(** * Aventura: the memory module of the design document and the LLM call helper

    The development embeds
    - [src/design.md], Appendix A.1 ([MemoryModule]: the memory tools, the
      pre-generation retrieval of phase 1 and the chapter creation of phase 4)
      together with the data model of sections 3.1.1 to 3.1.4, and
    - [src/src/lib/services/ai/core/BaseAIService.ts] ([callLLM]),
    and states the properties the specification claims about them.

    Conventions.  An [async] function is a computation in the monad [M]: it
    threads the shared state and ends either with a value ([Ok]) or with a
    thrown error ([Throw], a rejected promise).  A model call is a question to
    an oracle; every call is appended to a log, so "no model call was issued"
    is a statement about that log.  The oracle is indexed by the position of
    the call in the log: two calls with the same arguments may get different
    replies. *)

From Stdlib Require Import String Ascii List ZArith Lia Bool Arith PeanoNat.
From Stdlib Require Import DecimalString Sorted Permutation.
From Equations Require Import Equations.
From Equations.Prop Require Import Logic.
Import ListNotations.

Local Open Scope string_scope.
Local Open Scope list_scope.
Local Open Scope nat_scope.

(* ===================================================================== *)
(** ** Outcomes of a call *)
(* ===================================================================== *)

(** What a JavaScript [throw] (or a rejected promise) carries. *)
Inductive Error : Type :=
| ChapterNotFound (chapterNumber : nat)
    (* throw new Error(`Chapter ${chapterNumber} not found`) *)
| TypeError (what : string)
    (* reading a property of undefined, calling what is not a function *)
| ModelFailure (why : string)
    (* a model call that rejected *)
| OutOfSequence
    (* the Chapter Index refusing an append *).

Inductive Result (A : Type) : Type :=
| Ok (a : A)
| Throw (e : Error).
Arguments Ok {A} a.
Arguments Throw {A} e.

Definition isOk {A} (r : Result A) : bool :=
  match r with Ok _ => true | Throw _ => false end.

(* ===================================================================== *)
(** ** Asynchronous computations *)
(* ===================================================================== *)

(** An [async] function over a state of type [S]: it runs from a state to an
    outcome and the state it leaves. *)
Definition Async (S A : Type) : Type := S -> Result A * S.

Definition ret {S A} (a : A) : Async S A := fun s => (Ok a, s).

Definition throw {S A} (e : Error) : Async S A := fun s => (Throw e, s).

Definition bind {S A B} (m : Async S A) (k : A -> Async S B) : Async S B :=
  fun s =>
    match m s with
    | (Ok a, s') => k a s'
    | (Throw e, s') => (Throw e, s')
    end.

(** [try { body } catch (error) { handler }]. *)
Definition tryCatch {S A} (body : Async S A) (handler : Error -> Async S A)
  : Async S A :=
  fun s =>
    match body s with
    | (Ok a, s') => (Ok a, s')
    | (Throw e, s') => handler e s'
    end.

(** A value, or a throw, computed without touching the state. *)
Definition lift {S A} (r : Result A) : Async S A := fun s => (r, s).

Declare Scope async_scope.
Delimit Scope async_scope with async.
Notation "x <- m ;; k" := (bind m (fun x => k))
  (at level 61, m at next level, right associativity) : async_scope.
Notation "m ;; k" := (bind m (fun _ => k))
  (at level 61, right associativity) : async_scope.
Local Open Scope async_scope.

(** A promise that has settled: the computation ran, its outcome is a value. *)
Definition settle {S A} (m : Async S A) : Async S (Result A) :=
  fun s => let (r, s') := m s in (Ok r, s').

(** The promises of [xs.map(f)]: each call runs when [map] reaches it. *)
Fixpoint startAll {S A} (ps : list (Async S A)) : Async S (list (Result A)) :=
  match ps with
  | [] => ret []
  | p :: rest => r <- settle p ;; rs <- startAll rest ;; ret (r :: rs)
  end.

(** What [Promise.all] resolves or rejects with, from the settled outcomes:
    all the values in order, or an error as soon as one promise rejected (the
    first in the list stands for the first in time). *)
Fixpoint allOk {A} (rs : list (Result A)) : Result (list A) :=
  match rs with
  | [] => Ok []
  | Ok a :: rest =>
      match allOk rest with
      | Ok l => Ok (a :: l)
      | Throw e => Throw e
      end
  | Throw e :: _ => Throw e
  end.

(** [Promise.all(promises)]. *)
Definition promiseAll {S A} (ps : list (Async S A)) : Async S (list A) :=
  rs <- startAll ps ;; lift (allOk rs).

(* ===================================================================== *)
(** ** Data model (design.md 3.1.1, 7.2) *)
(* ===================================================================== *)

Inductive Role : Type := User | Assistant | System | Tool.

(** A transcript entry.  Message ids are strings ([msg_xxx]). *)
Record Message : Type := mkMessage {
  msg_id : string;
  msg_role : Role;
  msg_content : string
}.

(** [interface ChapterMetadata]. *)
Record ChapterMetadata : Type := mkMetadata {
  md_keywords : list string;
  md_characters : list string;
  md_locations : list string;
  md_plotThreads : list string;
  md_emotionalTone : string
}.

(** [interface Chapter].  [id] comes from [generateId()] and [createdAt] from
    [new Date()]: both are read off the state ([nextId], [now]). *)
Record Chapter : Type := mkChapter {
  id : nat;
  number : nat;
  startMessageId : string;
  endMessageId : string;
  messageCount : nat;
  summary : string;
  fullContent : string;
  createdAt : nat;
  keywords : list string;
  characters : list string;
  locations : list string;
  plotThreads : list string;
  emotionalTone : string
}.

(* ===================================================================== *)
(** ** The Chapter Index of the specification (section 4.2) *)
(* ===================================================================== *)

Module ChapterIndex.
Section WithTranscript.

(** The sequence position of a turn in the Transcript Store
    ("Turn: stable id, ..., sequence position"). *)
Variable position : string -> nat.

(** "chapter.startTurn immediately follows the prior chapter's endTurn". *)
Definition follows (startTurn priorEnd : string) : bool :=
  position startTurn =? S (position priorEnd).

Definition lastEnd (index : list Chapter) : option string :=
  match rev index with
  | [] => None
  | c :: _ => Some (endMessageId c)
  end.

(** The end turn the next chapter has to follow: the last chapter's, or the
    one handed down when the list is empty. *)
Definition endBefore (prior : option string) (l : list Chapter) : option string :=
  match lastEnd l with
  | Some e => Some e
  | None => prior
  end.

(** The check [append] makes: [chapter.number == count+1] and the start
    turn follows the prior chapter's end turn (nothing to follow for the
    first chapter). *)
Definition inSequence (index : list Chapter) (ch : Chapter) : bool :=
  (number ch =? S (length index)) &&
  match lastEnd index with
  | None => true
  | Some e => follows (startMessageId ch) e
  end.

(** Modelled from the spec: the Chapter Index's [append] (section 4.2).  The
    sources only call an undefined [saveChapter]; no function of them checks
    a chapter against the index.  "append(chapter) -- enforces the
    contiguity invariant (chapter.number == count+1 and chapter.startTurn
    immediately follows the prior chapter's endTurn); fails with
    OutOfSequence if violated."  The index is returned with the outcome, so
    that a refused append shows the index it leaves behind. *)
Definition append (ch : Chapter) (index : list Chapter)
  : Result unit * list Chapter :=
  if inSequence index ch then (Ok tt, index ++ [ch])
  else (Throw OutOfSequence, index).

(** A sequence of append operations, accepted or not, from a given index. *)
Fixpoint appendAll (ops : list Chapter) (index : list Chapter) : list Chapter :=
  match ops with
  | [] => index
  | ch :: rest => appendAll rest (snd (append ch index))
  end.

(** The contiguity invariant, checked from the chapter that must carry
    number [k]; [prior] is the end turn of the chapter before it. *)
Fixpoint contiguousFrom (k : nat) (prior : option string) (l : list Chapter) : bool :=
  match l with
  | [] => true
  | c :: rest =>
      (number c =? k) &&
      match prior with
      | None => true
      | Some e => follows (startMessageId c) e
      end &&
      contiguousFrom (S k) (Some (endMessageId c)) rest
  end.

Definition contiguous (index : list Chapter) : bool :=
  contiguousFrom 1 None index.

End WithTranscript.
End ChapterIndex.

(* ===================================================================== *)
(** ** The memory module (design.md, Appendix A.1) *)
(* ===================================================================== *)

Module Memory.

(** *** Configuration and the module's data *)

(** [mode: 'static' | 'agentic' | 'auto']. *)
Inductive Mode : Type := ModeStatic | ModeAgentic | ModeAuto.

(** [this.config].  The listing types it [MemoryConfig] and reads the fields
    of [RetrievalConfig] (3.1.4) from it; the record has the fields of both.
    A JavaScript [number] that counts is an integer here. *)
Record MemoryConfig : Type := mkConfig {
  mode : Mode;
  maxQueriesPerTurn : Z;
  maxChaptersPerQuery : Z;
  maxAgentIterations : Z;
  agenticThreshold : Z;
  chapterThreshold : nat;
  chapterBuffer : nat
}.

(** What [list_chapters] returns for one chapter. *)
Record ChapterPreview : Type := mkPreview {
  pv_number : nat;
  pv_summary : string;
  pv_messageRange : string * string;
  pv_characters : list string;
  pv_locations : list string
}.

(** What [query_chapter] returns: [{ chapterNumber, question, answer }]. *)
Record QueryResult : Type := mkQueryResult {
  qr_chapterNumber : nat;
  qr_question : string;
  qr_answer : string
}.

(** What [query_chapters] returns: [{ range, question, answer }]. *)
Record RangeResult : Type := mkRangeResult {
  rr_range : nat * nat;
  rr_question : string;
  rr_answer : string
}.

(** What [get_chapter_summary] returns. *)
Record ChapterSummary : Type := mkChapterSummary {
  cs_number : nat;
  cs_summary : string;
  cs_characters : list string;
  cs_locations : list string;
  cs_plotThreads : list string
}.

(** A value some tool returned.  [gatheredContext] is declared
    [QueryResult[]] and receives whatever the called tool returned;
    [PrototypeValue method] is what the method of that name of
    [Object.prototype] returns when it is called on the [tools] object. *)
Inductive ToolResult : Type :=
| ListResult (previews : list ChapterPreview)
| ChapterAnswer (r : QueryResult)
| RangeAnswer (r : RangeResult)
| SummaryResult (s : ChapterSummary)
| PrototypeValue (method : string).

(** [{ queriedChapters, retrievalTimestamp }]. *)
Record RetrievedContext : Type := mkContext {
  queriedChapters : list ToolResult;
  retrievalTimestamp : nat
}.

(** One entry of [decision.queries]. *)
Record RetrievalQuery : Type := mkQuery {
  chapter : nat;
  question : string
}.

Record RetrievalDecision : Type := mkDecision {
  queries : list RetrievalQuery
}.

(** A tool call of the retrieval agent, by the tool's name.  [other_tool]
    is any name that is not a key of the [tools] object (the prompt of 3.1.4
    offers [list_entries], which [tools] does not define). *)
Inductive ToolCall : Type :=
| call_list_chapters
| call_query_chapter (chapterNumber : nat) (question : string)
| call_query_chapters (startChapter endChapter : nat) (question : string)
| call_get_chapter_summary (chapterNumber : nat)
| call_finish_retrieval (synthesis : string)
| other_tool (name : string).

Definition toolName (tc : ToolCall) : string :=
  match tc with
  | call_list_chapters => "list_chapters"
  | call_query_chapter _ _ => "query_chapter"
  | call_query_chapters _ _ _ => "query_chapters"
  | call_get_chapter_summary _ => "get_chapter_summary"
  | call_finish_retrieval _ => "finish_retrieval"
  | other_tool name => name
  end.

(** The content of a message of the agent's conversation: the prompt built
    by [buildAgentPrompt(userInput, chapters)], a model's text, or
    [JSON.stringify(result)]. *)
Inductive AgentContent : Type :=
| AgentPrompt (userInput : string) (chapters : list Chapter)
| Text (s : string)
| Json (r : ToolResult).

Record AgentMessage : Type := mkAgentMessage {
  am_role : Role;
  am_content : AgentContent
}.

(** What [callRetrievalAgent] resolves with. *)
Record AgentResponse : Type := mkAgentResponse {
  content : string;
  toolCalls : list ToolCall
}.

(** [EndpointSelection] (3.1.2). *)
Record EndpointSelection : Type := mkEndpoint {
  ep_endMessageId : string;
  ep_reason : string;
  ep_suggestedTitle : string
}.

(** [event.chapterAnalysis].  The classifier's schema (3.3) has no
    [suggestedEndpoint] field, the handler reads one: it may be undefined. *)
Record ChapterAnalysis : Type := mkAnalysis {
  shouldCreateChapter : bool;
  suggestedEndpoint : option EndpointSelection
}.

Record ClassificationEvent : Type := mkClassification {
  chapterAnalysis : ChapterAnalysis
}.

Record UserInputEvent : Type := mkUserInput {
  text : string
}.

(** *** Shared state, model calls and events *)

(** A model call, as issued. *)
Inductive ModelCall : Type :=
| DecideCall (userInput : string) (chapters : list Chapter)
| QueryCall (ch : Chapter) (question : string)
| RangeQueryCall (combinedContent question : string)
| AgentCall (messages : list AgentMessage)
| SummarizeCall (messages : list Message)
| ExtractCall (messages : list Message) (summary : string).

(** What the event bus is given. *)
Inductive Event : Type :=
| ContextReady (retrievedContext : option RetrievedContext) (userInput : string)
| ChapterCreated (ch : Chapter).

(** The shared state of design.md 2.1 (story and chapters), the log of model
    calls, the events emitted, the clock and the id generator. *)
Record World : Type := mkWorld {
  st_chapters : list Chapter;
  st_transcript : list Message;
  modelCalls : list ModelCall;
  emitted : list Event;
  now : nat;
  nextId : nat
}.

(** The replies of the model, one function per kind of call; the first
    argument is the number of model calls issued before this one. *)
Record Model : Type := mkModel {
  decideRetrieval_reply : nat -> string -> list Chapter -> Result RetrievalDecision;
  executeQuery_reply : nat -> Chapter -> string -> Result string;
  executeRangeQuery_reply : nat -> string -> string -> Result string;
  callRetrievalAgent_reply : nat -> list AgentMessage -> Result AgentResponse;
  summarizeChapter_reply : nat -> list Message -> Result string;
  extractMetadata_reply : nat -> list Message -> string -> Result ChapterMetadata
}.

(** *** The module's computations *)

Definition M (A : Type) : Type := Async World A.

(** Issue a model call: log it, and take the oracle's reply for its position. *)
Definition issue {A} (c : ModelCall) (reply : nat -> Result A) : M A :=
  fun w =>
    (reply (length (modelCalls w)),
     mkWorld (st_chapters w) (st_transcript w) (modelCalls w ++ [c])
             (emitted w) (now w) (nextId w)).

(** [eventBus.emit]. *)
Definition emit (e : Event) : M unit :=
  fun w =>
    (Ok tt,
     mkWorld (st_chapters w) (st_transcript w) (modelCalls w)
             (emitted w ++ [e]) (now w) (nextId w)).

(** [new Date()]. *)
Definition newDate : M nat := fun w => (Ok (now w), w).

(** [generateId()]. *)
Definition generateId : M nat :=
  fun w =>
    (Ok (nextId w),
     mkWorld (st_chapters w) (st_transcript w) (modelCalls w)
             (emitted w) (now w) (S (nextId w))).

(** *** The store helpers the listing calls *)

(** Modelled from the spec: [getChapters()], called by the listing and
    defined nowhere in the sources.  "list() -> ordered sequence of chapter
    previews ... no model call, pure lookup": the committed chapters, in
    order. *)
Definition getChapters (w : World) : list Chapter := st_chapters w.

(** Modelled from the spec: [getChapter(number)], called by the listing and
    defined nowhere in the sources.  "get(number) -> Chapter": the chapter
    carrying that number; the listing tests the result with [!chapter], so a
    missing chapter is [undefined] here and not yet an error. *)
Definition getChapter (chapterNumber : nat) (w : World) : option Chapter :=
  find (fun ch => number ch =? chapterNumber) (st_chapters w).

(** Modelled from the spec: [getChaptersInRange(start, end)], called by the
    listing and defined nowhere in the sources.  "getRange(start, end) ->
    ordered sequence of Chapter": the chapters numbered from [start] to [end],
    both included, in the order of the index. *)
Definition getChaptersInRange (startChapter endChapter : nat) (w : World)
  : list Chapter :=
  filter (fun ch => (startChapter <=? number ch) && (number ch <=? endChapter))
         (st_chapters w).

(** Modelled from the spec: [getLastChapterEnd()], called by the listing and
    defined nowhere in the sources: the end message id of the last committed
    chapter, undefined when there is none. *)
Definition getLastChapterEnd (w : World) : option string :=
  match rev (st_chapters w) with
  | [] => None
  | ch :: _ => Some (endMessageId ch)
  end.

(** The messages after the one whose id is [mid] (all of them when there is
    no such message, as [slice(findIndex(..) + 1)] gives). *)
Fixpoint afterMessage (mid : string) (l : list Message) : list Message :=
  match l with
  | [] => []
  | m :: rest => if String.eqb (msg_id m) mid then rest else afterMessage mid rest
  end.

Definition hasMessage (mid : string) (l : list Message) : bool :=
  existsb (fun m => String.eqb (msg_id m) mid) l.

Definition messagesAfter (mid : string) (l : list Message) : list Message :=
  if hasMessage mid l then afterMessage mid l else l.

(** The messages up to and including the one whose id is [mid] (none when
    there is no such message, as [slice(0, findIndex(..) + 1)] gives). *)
Fixpoint throughMessage (mid : string) (l : list Message) : list Message :=
  match l with
  | [] => []
  | m :: rest =>
      if String.eqb (msg_id m) mid then [m] else m :: throughMessage mid rest
  end.

Definition messagesThrough (mid : string) (l : list Message) : list Message :=
  if hasMessage mid l then throughMessage mid l else [].

(** "The transcript's unassigned tail (turns after the last committed
    chapter)". *)
Definition unassignedTurns (w : World) : list Message :=
  match getLastChapterEnd w with
  | None => st_transcript w
  | Some e => messagesAfter e (st_transcript w)
  end.

(** [messagesSinceLastChapter] of 3.1.2, the unassigned-turn count. *)
Definition messagesSinceLastChapter (w : World) : nat :=
  length (unassignedTurns w).

(** Modelled from the spec: [getMessagesSinceLastChapter(endMessageId)],
    called by the listing and defined nowhere in the sources: the turns after
    the last committed chapter, up to the endpoint. *)
Definition getMessagesSinceLastChapter (endId : string) (w : World)
  : list Message :=
  messagesThrough endId (unassignedTurns w).

(** The sequence position of a turn in the transcript: the n-th turn has
    position n (0 for an id that is not in the transcript). *)
Definition turnPosition (transcript : list Message) (mid : string) : nat :=
  length (messagesThrough mid transcript).

(** Modelled from the spec: [saveChapter(chapter)], called by the listing and
    defined nowhere in the sources: the commit of a chapter.  "Chapter
    creation is a single atomic commit: build the full Chapter record ...
    before inserting into the Chapter Index", and the index's [append] "is
    the only mutator": the commit is [ChapterIndex.append] over the sequence
    positions of the transcript.  A refused append fails with OutOfSequence
    and leaves the index as it was.  The listing calls [saveChapter] without
    [await]: it is taken to be synchronous, so that a refusal is thrown into
    [createChapter]. *)
Definition saveChapter (ch : Chapter) : M unit :=
  fun w =>
    match ChapterIndex.append (turnPosition (st_transcript w)) ch
                              (st_chapters w) with
    | (Ok _, index) =>
        (Ok tt,
         mkWorld index (st_transcript w) (modelCalls w) (emitted w) (now w)
                 (nextId w))
    | (Throw e, _) => (Throw e, w)
    end.

Definition newline : string := String (ascii_of_nat 10) EmptyString.

(** Modelled from the spec: [formatMessages(messages)], called by the listing
    and defined nowhere in the sources: "full concatenated source text of its
    member turns", one turn per line. *)
Definition formatMessages (messages : list Message) : string :=
  String.concat newline (map msg_content messages).

(** [`${n}`] for a count. *)
Definition showNat (n : nat) : string :=
  NilEmpty.string_of_uint (Nat.to_uint n).

(** *** Model calls of the module *)

Definition decideRetrieval (mdl : Model) (userInput : string)
  (chapters : list Chapter) : M RetrievalDecision :=
  issue (DecideCall userInput chapters)
        (fun i => decideRetrieval_reply mdl i userInput chapters).

Definition executeQuery (mdl : Model) (ch : Chapter) (q : string) : M string :=
  issue (QueryCall ch q) (fun i => executeQuery_reply mdl i ch q).

(** [executeRangeQuery] is called by the listing and defined nowhere: here it
    is one question to the model on the text it is handed.  What the
    specification asks of a range query under a budget is in
    [QueryExecutor]. *)
Definition executeRangeQuery (mdl : Model) (combinedContent q : string)
  : M string :=
  issue (RangeQueryCall combinedContent q)
        (fun i => executeRangeQuery_reply mdl i combinedContent q).

Definition callRetrievalAgent (mdl : Model) (messages : list AgentMessage)
  : M AgentResponse :=
  issue (AgentCall messages) (fun i => callRetrievalAgent_reply mdl i messages).

Definition summarizeChapter (mdl : Model) (messages : list Message) : M string :=
  issue (SummarizeCall messages) (fun i => summarizeChapter_reply mdl i messages).

Definition extractMetadata (mdl : Model) (messages : list Message)
  (summary : string) : M ChapterMetadata :=
  issue (ExtractCall messages summary)
        (fun i => extractMetadata_reply mdl i messages summary).

(** *** The tools *)

Definition previewOf (ch : Chapter) : ChapterPreview :=
  mkPreview (number ch) (summary ch) (startMessageId ch, endMessageId ch)
            (characters ch) (locations ch).

(** [list_chapters: () => getChapters().map(...)]. *)
Definition list_chapters : M (list ChapterPreview) :=
  fun w => (Ok (map previewOf (getChapters w)), w).

(** [const chapter = getChapter(n); if (!chapter) throw new Error(...)]. *)
Definition requireChapter (chapterNumber : nat) : M Chapter :=
  fun w =>
    match getChapter chapterNumber w with
    | Some ch => (Ok ch, w)
    | None => (Throw (ChapterNotFound chapterNumber), w)
    end.

(** [query_chapter: async ({ chapterNumber, question }) => ...]. *)
Definition query_chapter (mdl : Model) (chapterNumber : nat) (q : string)
  : M QueryResult :=
  ch <- requireChapter chapterNumber ;;
  answer <- executeQuery mdl ch q ;;
  ret (mkQueryResult chapterNumber q answer).

(** [`=== Chapter ${ch.number} ===\n${ch.fullContent}`]. *)
Definition chapterBlock (ch : Chapter) : string :=
  "=== Chapter " ++ showNat (number ch) ++ " ===" ++ newline ++ fullContent ch.

(** [chapters.map(...).join('\n\n')]. *)
Definition combineChapters (chs : list Chapter) : string :=
  String.concat (newline ++ newline) (map chapterBlock chs).

(** [query_chapters: async ({ startChapter, endChapter, question }) => ...]. *)
Definition query_chapters (mdl : Model) (startChapter endChapter : nat)
  (q : string) : M RangeResult :=
  fun w =>
    let chs := getChaptersInRange startChapter endChapter w in
    let combinedContent := combineChapters chs in
    (answer <- executeRangeQuery mdl combinedContent q ;;
     ret (mkRangeResult (startChapter, endChapter) q answer)) w.

(** [get_chapter_summary: (chapterNumber) => ...]. *)
Definition get_chapter_summary (chapterNumber : nat) : M ChapterSummary :=
  ch <- requireChapter chapterNumber ;;
  ret (mkChapterSummary (number ch) (summary ch) (characters ch)
                        (locations ch) (plotThreads ch)).

(** [tools] is an object literal, so [this.tools[name]] also finds what the
    object inherits from [Object.prototype].  These are the inherited methods
    that return when called with the arguments object of a tool call;
    [__defineGetter__] and [__defineSetter__] throw for want of a function
    argument, and [__proto__] is an object, not a function. *)
Definition inheritedMethods : list string :=
  ["constructor"; "hasOwnProperty"; "isPrototypeOf"; "propertyIsEnumerable";
   "toString"; "toLocaleString"; "valueOf"; "__lookupGetter__";
   "__lookupSetter__"].

Definition inherited (name : string) : bool :=
  existsb (String.eqb name) inheritedMethods.

(** [this.tools[toolCall.name](toolCall.args)]: an own tool runs; an
    inherited method returns its value; any other name gives something that
    is not a function, and calling it throws. *)
Definition callTool (mdl : Model) (tc : ToolCall) : M ToolResult :=
  match tc with
  | call_list_chapters => l <- list_chapters ;; ret (ListResult l)
  | call_query_chapter n q => r <- query_chapter mdl n q ;; ret (ChapterAnswer r)
  | call_query_chapters s e q =>
      r <- query_chapters mdl s e q ;; ret (RangeAnswer r)
  | call_get_chapter_summary n =>
      s <- get_chapter_summary n ;; ret (SummaryResult s)
  | call_finish_retrieval _ => throw (TypeError "finish_retrieval")
  | other_tool name =>
      if inherited name then ret (PrototypeValue name)
      else throw (TypeError name)
  end.

(** *** Phase 1: pre-generation retrieval *)

(** [decision.queries.map(q => this.tools.query_chapter({ ... }))]. *)
Definition queryPromises (mdl : Model) (decision : RetrievalDecision)
  : list (M QueryResult) :=
  map (fun q => query_chapter mdl (chapter q) (question q)) (queries decision).

(** [staticRetrieval(userInput, chapters)]. *)
Definition staticRetrieval (mdl : Model) (userInput : string)
  (chapters : list Chapter) : M RetrievedContext :=
  decision <- decideRetrieval mdl userInput chapters ;;
  results <- promiseAll (queryPromises mdl decision) ;;
  stamp <- newDate ;;
  ret (mkContext (map ChapterAnswer results) stamp).

(** The variables of the agent loop that the body of one iteration updates. *)
Record Gathering : Type := mkGathering {
  complete : bool;
  gatheredContext : list ToolResult;
  messages : list AgentMessage
}.

(** [for (const toolCall of response.toolCalls) { ... }]: [finish_retrieval]
    sets [complete] and breaks; any other call runs its tool, pushes the
    result to [gatheredContext] and two messages to [messages]. *)
Fixpoint forToolCalls (mdl : Model) (response : AgentResponse)
  (tcs : list ToolCall) (g : Gathering) : M Gathering :=
  match tcs with
  | [] => ret g
  | toolCall :: rest =>
      if String.eqb (toolName toolCall) "finish_retrieval"
      then ret (mkGathering true (gatheredContext g) (messages g))
      else
        result <- callTool mdl toolCall ;;
        forToolCalls mdl response rest
          (mkGathering (complete g)
             (gatheredContext g ++ [result])
             (messages g ++ [mkAgentMessage Assistant (Text (content response));
                             mkAgentMessage Tool (Json result)]))
  end.

(** The body of the [while] loop, up to [iterations++]. *)
Definition agentIteration (mdl : Model) (g : Gathering) : M Gathering :=
  response <- callRetrievalAgent mdl (messages g) ;;
  forToolCalls mdl response (toolCalls response) g.

(** [!complete && iterations < this.config.maxAgentIterations]. *)
Definition whileGuard (cfg : MemoryConfig) (done : bool) (iterations : nat)
  : bool :=
  negb done && (Z.of_nat iterations <? maxAgentIterations cfg)%Z.

(** The [while] loop.  It ends with the loop variables: [iterations] and the
    gathered state.  The distance of [iterations] to the cap decreases with
    every iteration. *)
Equations? agentLoop (mdl : Model) (cfg : MemoryConfig) (iterations : nat)
  (g : Gathering) (w : World) : Result (nat * Gathering) * World
  by wf (Z.to_nat (maxAgentIterations cfg) - iterations) lt :=
agentLoop mdl cfg iterations g w
  with inspect (whileGuard cfg (complete g) iterations) := {
  | exist _ true guard
      with agentIteration mdl g w := {
      | pair (Ok g') w' => agentLoop mdl cfg (S iterations) g' w'
      | pair (Throw e) w' => (Throw e, w') }
  | exist _ false guard => (Ok (iterations, g), w) }.
Proof.
unfold whileGuard in guard.
apply andb_prop in guard. destruct guard as [_ guard].
apply Z.ltb_lt in guard. lia.
Qed.

(** [agenticRetrieval(userInput, chapters)]. *)
Definition agenticRetrieval (mdl : Model) (cfg : MemoryConfig)
  (userInput : string) (chapters : list Chapter) : M RetrievedContext :=
  run <- agentLoop mdl cfg 0
           (mkGathering false []
              [mkAgentMessage User (AgentPrompt userInput chapters)]) ;;
  stamp <- newDate ;;
  ret (mkContext (gatheredContext (snd run)) stamp).

(** [const useAgentic = mode === 'agentic' ||
      (mode === 'auto' && chapters.length > agenticThreshold)]. *)
Definition useAgentic (cfg : MemoryConfig) (chapters : list Chapter) : bool :=
  match mode cfg with
  | ModeAgentic => true
  | ModeAuto => (agenticThreshold cfg <? Z.of_nat (length chapters))%Z
  | ModeStatic => false
  end.

(** [handleUserInput(event)]. *)
Definition handleUserInput (mdl : Model) (cfg : MemoryConfig)
  (event : UserInputEvent) : M unit :=
  fun w =>
    let chapters := getChapters w in
    match chapters with
    | [] => emit (ContextReady None (text event)) w
    | _ :: _ =>
        (context <- (if useAgentic cfg chapters
                     then agenticRetrieval mdl cfg (text event) chapters
                     else staticRetrieval mdl (text event) chapters) ;;
         emit (ContextReady (Some context) (text event))) w
    end.

(** *** Phase 4: chapter creation *)

(** [getLastChapterEnd() || messages[0].id]: the last chapter's end when it
    is truthy (defined and not the empty string), else the id of the first
    message; reading [.id] of [messages[0]] throws when there is none. *)
Definition startOfChapter (lastChapterEnd : option string)
  (messages : list Message) : Result string :=
  match lastChapterEnd with
  | Some (String c s) => Ok (String c s)
  | _ =>
      match messages with
      | m :: _ => Ok (msg_id m)
      | [] => Throw (TypeError "messages[0].id")
      end
  end.

(** Lift a value computed from the state. *)
Definition reading {A} (f : World -> Result A) : M A := fun w => (f w, w).

(** [createChapter(endpoint)]. *)
Definition createChapter (mdl : Model) (endpoint : option EndpointSelection)
  : M Chapter :=
  match endpoint with
  | None => throw (TypeError "endpoint.endMessageId")
  | Some ep =>
      messages <- reading (fun w =>
                    Ok (getMessagesSinceLastChapter (ep_endMessageId ep) w)) ;;
      summary <- summarizeChapter mdl messages ;;
      metadata <- extractMetadata mdl messages summary ;;
      newId <- generateId ;;
      count <- reading (fun w => Ok (length (getChapters w))) ;;
      start <- reading (fun w => startOfChapter (getLastChapterEnd w) messages) ;;
      stamp <- newDate ;;
      let ch := mkChapter newId (count + 1) start (ep_endMessageId ep)
                  (length messages) summary (formatMessages messages) stamp
                  (md_keywords metadata) (md_characters metadata)
                  (md_locations metadata) (md_plotThreads metadata)
                  (md_emotionalTone metadata) in
      saveChapter ch ;;
      emit (ChapterCreated ch) ;;
      ret ch
  end.

(** [handleClassificationComplete(event)]. *)
Definition handleClassificationComplete (mdl : Model)
  (event : ClassificationEvent) : M unit :=
  if negb (shouldCreateChapter (chapterAnalysis event)) then ret tt
  else
    createChapter mdl (suggestedEndpoint (chapterAnalysis event)) ;;
    ret tt.

(** *** One turn of the agent, told by its parts *)

(** [toolCall.name === 'finish_retrieval']. *)
Definition isFinish (tc : ToolCall) : bool :=
  String.eqb (toolName tc) "finish_retrieval".

(** The tool calls of a response that come before its first
    [finish_retrieval]: the ones the [for] loop reaches. *)
Fixpoint beforeFinish (tcs : list ToolCall) : list ToolCall :=
  match tcs with
  | [] => []
  | tc :: rest => if isFinish tc then [] else tc :: beforeFinish rest
  end.

(** Whether a response calls [finish_retrieval]. *)
Definition asksToFinish (tcs : list ToolCall) : bool := existsb isFinish tcs.

(** Tools called one after the other, each awaited before the next; the
    first one that throws ends the run. *)
Fixpoint callTools (mdl : Model) (tcs : list ToolCall) : M (list ToolResult) :=
  match tcs with
  | [] => ret []
  | tc :: rest =>
      result <- callTool mdl tc ;;
      results <- callTools mdl rest ;;
      ret (result :: results)
  end.

(** The two messages pushed for every result. *)
Definition toolMessages (response : AgentResponse)
  (results : list ToolResult) : list AgentMessage :=
  flat_map (fun result =>
              [mkAgentMessage Assistant (Text (content response));
               mkAgentMessage Tool (Json result)]) results.

(** *** Reading the logs *)

Definition isSummarizeCall (c : ModelCall) : bool :=
  match c with SummarizeCall _ => true | _ => false end.

Definition isAgentCall (c : ModelCall) : bool :=
  match c with AgentCall _ => true | _ => false end.

(** How many turns of the retrieval agent the log holds. *)
Definition agentCalls (w : World) : nat :=
  length (filter isAgentCall (modelCalls w)).

(** How many chapter creations were attempted: [createChapter] opens with
    the summarization call, which nothing else issues. *)
Definition creationAttempts (w : World) : nat :=
  length (filter isSummarizeCall (modelCalls w)).

(** The handler run on one classification signal after the other. *)
Fixpoint handleAll (mdl : Model) (events : list ClassificationEvent)
  (w : World) : World :=
  match events with
  | [] => w
  | event :: rest =>
      handleAll mdl rest (snd (handleClassificationComplete mdl event w))
  end.

(** The committed chapters carry the numbers 1, 2, ..., count, in order. *)
Definition numbered (w : World) : Prop :=
  map number (st_chapters w) = seq 1 (length (st_chapters w)).

(** A computation that leaves an observation [f] of the state as it was. *)
Definition keeps {X A} (f : World -> X) (m : M A) : Prop :=
  forall w, f (snd (m w)) = f w.

End Memory.

(* ===================================================================== *)
(** ** The LLM call helper (BaseAIService.ts) *)
(* ===================================================================== *)

Module BaseAIService.

(** [Message] of the provider API: [{ role, content }]. *)
Record ChatMessage : Type := mkChat {
  role : Role;
  chat_content : string
}.

(** The fields of [GenerationPreset] that the getters read.  A temperature
    is only handed on; it is kept in thousandths.  The three settings of the
    extra body may be missing from a preset. *)
Record GenerationPreset : Type := mkPreset {
  preset_model : string;
  preset_temperature : Z;
  preset_maxTokens : Z;
  preset_manualBody : option string;
  preset_reasoningEffort : option string;
  preset_providerOnly : option (list string)
}.

(** [Partial<GenerationPreset>]. *)
Record PresetOverride : Type := mkOverride {
  ov_model : option string;
  ov_temperature : option Z;
  ov_maxTokens : option Z;
  ov_manualBody : option string;
  ov_reasoningEffort : option string;
  ov_providerOnly : option (list string)
}.

(** The argument of [buildExtraBody]. *)
Record ExtraBodyOptions : Type := mkExtraBodyOptions {
  opt_manualMode : bool;
  opt_manualBody : option string;
  opt_reasoningEffort : option string;
  opt_providerOnly : option (list string)
}.

(** The request handed to [provider.generateResponse]. *)
Record Request : Type := mkRequest {
  req_model : string;
  req_messages : list ChatMessage;
  req_temperature : Z;
  req_maxTokens : Z;
  req_extraBody : option string;
  req_signal : option nat
}.

(** What the provider resolves with. *)
Record Response : Type := mkResponse {
  response_content : string
}.

(** What a function of type [... => T] hands back when [T] may be a promise
    type: a plain value, or a promise together with the way it settles. *)
Inductive Returned (T : Type) : Type :=
| Plain (value : T)
| Promised (outcome : Result T).
Arguments Plain {T} value.
Arguments Promised {T} outcome.

(** What the promise of an [async] function does with the value the function
    returns: a plain value fulfils it, a promise is followed. *)
Definition settled {T} (r : Returned T) : Result T :=
  match r with
  | Plain value => Ok value
  | Promised outcome => outcome
  end.

(** [CallLLMOptions<T>]. *)
Record CallLLMOptions (T : Type) : Type := mkOptions {
  systemPrompt : string;
  userPrompt : string;
  parseResponse : string -> Result (Returned T);
  fallbackResult : Returned T;
  logPrefix : string;
  temperature : option Z;
  maxTokens : option Z;
  signal : option nat;
  additionalMessages : option (list ChatMessage)
}.
Arguments systemPrompt {T} _.
Arguments userPrompt {T} _.
Arguments parseResponse {T} _.
Arguments fallbackResult {T} _.
Arguments logPrefix {T} _.
Arguments temperature {T} _.
Arguments maxTokens {T} _.
Arguments signal {T} _.
Arguments additionalMessages {T} _.

(** A logger, as [createLogger] makes it: called with a line, it returns or
    throws. *)
Definition Logger : Type := string -> Result unit.

(** The service object and what it reaches outside the file:
    [settings.getPresetConfig(this.presetId)], which may throw;
    [settings.advancedRequestSettings.manualMode]; [buildExtraBody] and
    [createLogger], imported and not among the sources, which may throw; and
    the provider, which answers the n-th request it receives with a response
    or a rejection. *)
Record Service : Type := mkService {
  settingsOverride : option PresetOverride;
  getPresetConfig : Result GenerationPreset;
  manualMode : bool;
  buildExtraBody : ExtraBodyOptions -> Result (option string);
  createLogger : string -> Result Logger;
  generateResponse : nat -> Request -> Result Response
}.

(** What a run leaves behind: the requests sent to the provider and the
    lines handed to a logger. *)
Record Trace : Type := mkTrace {
  requests : list Request;
  logged : list (string * string)
}.

Definition IO (A : Type) : Type := Async Trace A.

(** A call of a logger: the line is recorded, and the call returns or throws
    as the logger does. *)
Definition say (logger : Logger) (prefix line : string) : IO unit :=
  fun t => (logger line, mkTrace (requests t) (logged t ++ [(prefix, line)])).

(** The module-level logger of a service file
    ([const log = createLogger('Translation')]), made once when the module
    is loaded by [createLogger] of [./config], which is not among the
    sources: a logger that was made, taken to record its line and return. *)
Definition log (prefix line : string) : IO unit :=
  say (fun _ => Ok tt) prefix line.

(** [a ?? b], with [b] evaluated only when [a] is null or undefined. *)
Definition orElse {A} (a : option A) (b : Result A) : Result A :=
  match a with
  | Some x => Ok x
  | None => b
  end.

(** [a ?? b] where [b] may be undefined as well. *)
Definition orElseOption {A} (a : option A) (b : Result (option A))
  : Result (option A) :=
  match a with
  | Some x => Ok (Some x)
  | None => b
  end.

Definition field {A} (ov : option PresetOverride)
  (f : PresetOverride -> option A) : option A :=
  match ov with
  | Some o => f o
  | None => None
  end.

Definition overPreset {A} (svc : Service) (f : GenerationPreset -> A)
  : Result A :=
  match getPresetConfig svc with
  | Ok p => Ok (f p)
  | Throw e => Throw e
  end.

(** [this.settingsOverride?.model ?? this.preset.model]. *)
Definition model (svc : Service) : Result string :=
  orElse (field (settingsOverride svc) ov_model) (overPreset svc preset_model).

(** [this.settingsOverride?.temperature ?? this.preset.temperature]. *)
Definition serviceTemperature (svc : Service) : Result Z :=
  orElse (field (settingsOverride svc) ov_temperature)
         (overPreset svc preset_temperature).

(** [this.settingsOverride?.maxTokens ?? this.preset.maxTokens]. *)
Definition serviceMaxTokens (svc : Service) : Result Z :=
  orElse (field (settingsOverride svc) ov_maxTokens)
         (overPreset svc preset_maxTokens).

(** The argument the [extraBody] getter builds for [buildExtraBody]: the
    fields of the object literal in the order they are evaluated; the preset
    is read for each setting the override does not have. *)
Definition extraBodyOptions (svc : Service) : Result ExtraBodyOptions :=
  match orElseOption (field (settingsOverride svc) ov_manualBody)
                     (overPreset svc preset_manualBody) with
  | Throw e => Throw e
  | Ok manualBody =>
      match orElseOption (field (settingsOverride svc) ov_reasoningEffort)
                         (overPreset svc preset_reasoningEffort) with
      | Throw e => Throw e
      | Ok reasoningEffort =>
          match orElseOption (field (settingsOverride svc) ov_providerOnly)
                             (overPreset svc preset_providerOnly) with
          | Throw e => Throw e
          | Ok providerOnly =>
              Ok (mkExtraBodyOptions (manualMode svc) manualBody
                                     reasoningEffort providerOnly)
          end
      end
  end.

(** The [extraBody] getter. *)
Definition extraBody (svc : Service) : Result (option string) :=
  match extraBodyOptions svc with
  | Throw e => Throw e
  | Ok body => buildExtraBody svc body
  end.

(** [await this.provider.generateResponse(request)]: the request is sent,
    and answered as the provider answers its n-th request. *)
Definition send (svc : Service) (req : Request) : IO Response :=
  fun t =>
    (generateResponse svc (length (requests t)) req,
     mkTrace (requests t ++ [req]) (logged t)).

(** The argument of [generateResponse]: the object literal's fields in the
    order they are evaluated ([this.model], [messages],
    [options.temperature ?? this.temperature],
    [options.maxTokens ?? this.maxTokens], [this.extraBody],
    [options.signal]); a getter that throws ends the evaluation. *)
Definition requestOf {T} (svc : Service) (options : CallLLMOptions T)
  : Result Request :=
  let messages :=
    [mkChat System (systemPrompt options)] ++
    match additionalMessages options with Some l => l | None => [] end ++
    [mkChat User (userPrompt options)] in
  match model svc with
  | Throw e => Throw e
  | Ok m =>
      match orElse (temperature options) (serviceTemperature svc) with
      | Throw e => Throw e
      | Ok temp =>
          match orElse (maxTokens options) (serviceMaxTokens svc) with
          | Throw e => Throw e
          | Ok maxTok =>
              match extraBody svc with
              | Throw e => Throw e
              | Ok extra =>
                  Ok (mkRequest m messages temp maxTok extra (signal options))
              end
          end
      end
  end.

(** The body of the [try] block of [callLLM]; it ends with the value of
    [options.parseResponse(response.content)], returned as it is. *)
Definition attempt {T} (svc : Service) (logger : Logger)
  (options : CallLLMOptions T) : IO (Returned T) :=
  say logger (logPrefix options) "Sending request..." ;;
  request <- lift (requestOf svc options) ;;
  response <- send svc request ;;
  say logger (logPrefix options) "Response received" ;;
  lift (parseResponse options (response_content response)).

(** [callLLM<T>(options)]: the logger is made before the [try]; the [try]
    and the [catch] block each end in a [return] without [await], so the
    promise of [callLLM] follows a promise that is returned. *)
Definition callLLM {T} (svc : Service) (options : CallLLMOptions T) : IO T :=
  logger <- lift (createLogger svc (logPrefix options)) ;;
  returned <- tryCatch (attempt svc logger options)
                (fun error =>
                   say logger (logPrefix options) "Request failed" ;;
                   ret (fallbackResult options)) ;;
  lift (settled returned).

End BaseAIService.

(* ========================================================================= *)
(** * The range query of the Query Executor and the retry of model calls

    The listing calls [executeRangeQuery] and the model-call functions
    ([summarizeChapter], [executeQuery], ...) and shows none of them; what
    they do with a budget and with a failing call is taken from the
    specification. *)
(* ========================================================================= *)

Module QueryExecutor.
Import Memory.

Section WithBudget.

(** The token or length count of a text, and the budget of one range query;
    the specification fixes neither. *)
Variable measure : string -> nat.
Variable budget : nat.

(** Modelled from the spec: "concatenates each chapter's retained text
    prefixed by its chapter number, subject to a token/length budget".  The
    concatenation is the one the listing builds in [query_chapters]; it fits
    when its measure is within the budget. *)
Definition fits (chs : list Chapter) : bool :=
  measure (combineChapters chs) <=? budget.

(** Modelled from the spec: "if the concatenation would exceed the budget,
    truncate from the oldest chapters first".  Chapters are left out whole,
    one at a time from the front of the range, until what is left fits. *)
Fixpoint retained (chs : list Chapter) : list Chapter :=
  match chs with
  | [] => []
  | oldest :: newer => if fits chs then chs else retained newer
  end.

(** Modelled from the spec: the chapters left out on the way. *)
Fixpoint omitted (chs : list Chapter) : list Chapter :=
  match chs with
  | [] => []
  | oldest :: newer => if fits chs then [] else oldest :: omitted newer
  end.

(** Modelled from the spec: "note truncation in the answer when it occurs".
    The specification does not fix the wording; the note names the chapters
    left out, and there is none when no chapter was. *)
Definition truncationNote (chs : list Chapter) : string :=
  match chs with
  | [] => ""
  | _ =>
      newline ++ "[Truncated: chapters " ++
      String.concat ", " (map (fun ch => showNat (number ch)) chs) ++
      " were left out.]"
  end.

(** Modelled from the spec: [queryRange(chapters, question) -> answerText]:
    one model call on the text of the retained chapters, and the note after
    the model's answer. *)
Definition queryRange (mdl : Model) (chapters : list Chapter)
  (question : string) : M string :=
  let text := combineChapters (retained chapters) in
  answer <- issue (RangeQueryCall text question)
                  (fun i => executeRangeQuery_reply mdl i text question) ;;
  ret (answer ++ truncationNote (omitted chapters))%string.

End WithBudget.

End QueryExecutor.

Module ModelCalls.
Import Memory.

(** Modelled from the spec: "retried automatically up to a fixed budget
    (5 attempts)". *)
Definition maxAttempts : nat := 5.

(** Modelled from the spec: the failures that are retried.  [ModelFailure]
    is the rejection of a model call, the TransientModelFailure of the
    specification ("network/timeout/rate-limit from a model call"); a missing
    chapter and an append out of sequence are contract violations, "not
    retried", and any other error surfaces as it is. *)
Definition transient (e : Error) : bool :=
  match e with
  | ModelFailure _ => true
  | _ => false
  end.

(** Modelled from the spec: how an operation under retry ends: with the
    model's answer, with OperationFailed once the attempts are exhausted, or
    with an error that is not retried. *)
Inductive Outcome (A : Type) : Type :=
| Answered (a : A)
| OperationFailed
| Surfaced (e : Error).
Arguments Answered {A} a.
Arguments OperationFailed {A}.
Arguments Surfaced {A} e.

(** The shared state together with the pauses taken between attempts, in
    milliseconds. *)
Record Retrying : Type := mkRetrying {
  world : World;
  pauses : list nat
}.

Section WithBackoff.

(** The first pause; the specification does not fix it. *)
Variable baseDelay : nat.

Context {A : Type}.

(** One attempt of the operation. *)
Variable operation : M A.

(** Modelled from the spec: "retried automatically up to a fixed budget
    (5 attempts) with exponential backoff; after exhaustion, escalates to
    OperationFailed".  After a transient failure the operation pauses and
    tries again, and each pause is twice the one before; there is no pause
    after the last attempt. *)
Fixpoint attempts (remaining delay : nat) (r : Retrying)
  : Outcome A * Retrying :=
  match remaining with
  | 0 => (OperationFailed, r)
  | S fewer =>
      match operation (world r) with
      | (Ok a, w) => (Answered a, mkRetrying w (pauses r))
      | (Throw e, w) =>
          if transient e
          then match fewer with
               | 0 => (OperationFailed, mkRetrying w (pauses r))
               | S _ =>
                   attempts fewer (2 * delay)
                            (mkRetrying w (pauses r ++ [delay]))
               end
          else (Surfaced e, mkRetrying w (pauses r))
      end
  end.

(** Modelled from the spec: a model-call operation under the retry policy of
    section 7. *)
Definition withRetry (w : World) : Outcome A * Retrying :=
  attempts maxAttempts baseDelay (mkRetrying w []).

End WithBackoff.

End ModelCalls.

(* ===================================================================== *)
(** ** Stories and models to run the module on *)
(* ===================================================================== *)

Module Samples.
Import Memory.

Definition messageId (i : nat) : string := "msg_" ++ showNat i.

(** The i-th turn of a story: the user speaks on odd turns. *)
Definition turn (i : nat) : Message :=
  mkMessage (messageId i) (if Nat.even i then Assistant else User)
            ("turn " ++ showNat i)%string.

(** A transcript of [n] turns, [msg_1] to [msg_n]. *)
Definition turns (n : nat) : list Message := map turn (seq 1 n).

(** A committed chapter with number [n] over the turns [first] to [last]. *)
Definition chapterOf (n first last : nat) : Chapter :=
  mkChapter n n (messageId first) (messageId last) (S last - first)
            ("summary " ++ showNat n)%string ("story " ++ showNat n)%string 0
            [] [] [] [] "calm".

(** Five chapters of ten turns each. *)
Definition fiveChapters : list Chapter :=
  [chapterOf 1 1 10; chapterOf 2 11 20; chapterOf 3 21 30;
   chapterOf 4 31 40; chapterOf 5 41 50].

(** A state with the given chapters and transcript, and empty logs. *)
Definition story (chs : list Chapter) (transcript : list Message) : World :=
  mkWorld chs transcript [] [] 0 (S (length chs)).

(** The defaults of design.md: N = 50, X = 10, at most 5 queries a turn and
    3 chapters a range query, auto mode from more than 30 chapters; the agent
    is given 3 iterations here to keep runs short (the default is 10). *)
Definition config : MemoryConfig := mkConfig ModeAuto 5 3 3 30 50 10.

Definition noMetadata : ChapterMetadata := mkMetadata [] [] [] [] "calm".

(** A model that picks chapters 1, 2 and 3, answers every query except those
    on chapter 2 (which time out), and whose agent asks about chapter 1 on
    every turn, never finishing. *)
Definition model : Model :=
  mkModel
    (fun _ _ _ => Ok (mkDecision [mkQuery 1 "who?"; mkQuery 2 "where?";
                                  mkQuery 3 "why?"]))
    (fun _ ch _ => if number ch =? 2 then Throw (ModelFailure "timeout")
                   else Ok ("answer from chapter " ++ showNat (number ch))%string)
    (fun _ _ _ => Ok "answer over the range")
    (fun _ _ => Ok (mkAgentResponse "looking" [call_query_chapter 1 "who?"]))
    (fun _ _ => Ok "what happened")
    (fun _ _ _ => Ok noMetadata).

(** The same model with an agent that asks once and finishes on its second
    turn. *)
Definition finishingModel : Model :=
  mkModel
    (decideRetrieval_reply model)
    (executeQuery_reply model)
    (executeRangeQuery_reply model)
    (fun i _ =>
       if i =? 0
       then Ok (mkAgentResponse "looking" [call_query_chapter 1 "who?"])
       else Ok (mkAgentResponse "done"
                  [call_finish_retrieval "enough"; call_query_chapter 3 "why?"]))
    (summarizeChapter_reply model)
    (extractMetadata_reply model).

(** A classification signal asking for a chapter that ends at turn [i]. *)
Definition boundaryAt (i : nat) : ClassificationEvent :=
  mkClassification
    (mkAnalysis true (Some (mkEndpoint (messageId i) "a scene ends" "Dawn"))).

(** A classification signal that asks for no chapter. *)
Definition noBoundary : ClassificationEvent :=
  mkClassification (mkAnalysis false None).

(** The sequence position of a turn of a sixty-turn story: [msg_i] is the
    i-th turn (0 for an id that is not in the story). *)
Definition position (mid : string) : nat :=
  length (messagesThrough mid (turns 60)).

(** The story after five chapters, fifty-five turns in. *)
Definition fiveChapterStory : World := story fiveChapters (turns 55).

(** A story of four turns with no chapter yet. *)
Definition freshStory : World := story [] (turns 4).

(** A story of sixty turns with no chapter yet: N + X unassigned turns. *)
Definition longStory : World := story [] (turns 60).

(** [config] in static mode. *)
Definition staticConfig : MemoryConfig := mkConfig ModeStatic 5 3 3 30 50 10.

End Samples.

(** A service to run [callLLM] on. *)
Module CallSamples.
Import BaseAIService.

Definition preset : GenerationPreset :=
  mkPreset "some-model" 700 1024 None None None.

(** A logger that records and returns. *)
Definition quiet : Logger := fun _ => Ok tt.

(** A service with the sample preset, no override, and a given provider. *)
Definition serviceWith (provider : nat -> Request -> Result Response)
  : Service :=
  mkService None (Ok preset) false (fun _ => Ok None) (fun _ => Ok quiet)
            provider.

(** A provider that is rate-limited on the first request it receives and
    answers every later one. *)
Definition flakyService : Service :=
  serviceWith
    (fun n _ => if n =? 0 then Throw (ModelFailure "429 rate limited")
                else Ok (mkResponse "three suggestions")).

(** A provider that answers every request. *)
Definition steadyService : Service :=
  serviceWith (fun _ _ => Ok (mkResponse "three suggestions")).

(** Options whose parser accepts any non-empty answer. *)
Definition options : CallLLMOptions string :=
  mkOptions string "You suggest." "What next?"
    (fun content => match content with
                    | EmptyString => Throw (TypeError "empty answer")
                    | _ => Ok (Plain content)
                    end)
    (Plain "no suggestion") "Suggestions" None None None None.

(** The same options with an [async] parser: it returns a promise, which
    rejects when the answer is not a JSON object. *)
Definition asyncOptions : CallLLMOptions string :=
  mkOptions string "You suggest." "What next?"
    (fun content =>
       Ok (Promised
             (match content with
              | String "{"%char _ => Ok content
              | _ => Throw (TypeError "not a JSON object")
              end)))
    (Plain "no suggestion") "Suggestions" None None None None.

Definition idle : Trace := mkTrace [] [].

End CallSamples.

(* ===================================================================== *)
(** ** The narrator module (design.md, Appendix A.2) *)
(* ===================================================================== *)

Module Narrator.

(** What the narrator gives the event bus. *)
Inductive NarratorEvent : Type :=
| ResponseStreaming (chunk : string)
| SentenceComplete (sentence : string)
| NarrativeResponse (messageId : nat) (content : string).

(** The event bus and the id generator. *)
Record Bus : Type := mkBus {
  emitted : list NarratorEvent;
  nextId : nat
}.

(** [ContextReadyEvent]. *)
Record ContextReadyEvent : Type := mkContextReady {
  retrievedContext : option Memory.RetrievedContext;
  userInput : string
}.

(** What the listing calls on [this] and does not define: [buildPrompt],
    [generate] (the stream it resolves with is the list of its chunks and the
    way it ends: [None] when the stream is exhausted, an error when iterating
    it throws) and [extractCompleteSentences] (the complete sentences of a
    buffer and the remainder). *)
Record Host : Type := mkHost {
  buildPrompt : option Memory.RetrievedContext -> string -> string;
  generate : string -> Result (list string * option Error);
  extractCompleteSentences : string -> list string * string
}.

Definition emit (e : NarratorEvent) : Async Bus unit :=
  fun b => (Ok tt, mkBus (emitted b ++ [e]) (nextId b)).

(** [generateId()]. *)
Definition generateId : Async Bus nat :=
  fun b => (Ok (nextId b), mkBus (emitted b) (S (nextId b))).

(** [for (const sentence of sentences.complete) eventBus.emit(...)]. *)
Fixpoint emitSentences (complete : list string) : Async Bus unit :=
  match complete with
  | [] => ret tt
  | sentence :: rest =>
      (emit (SentenceComplete sentence) ;; emitSentences rest)%async
  end.

(** The body of [for await (const chunk of stream)], chunk after chunk; it
    ends with [fullResponse] and [sentenceBuffer]. *)
Fixpoint forAwait (host : Host) (chunks : list string)
  (fullResponse sentenceBuffer : string) : Async Bus (string * string) :=
  match chunks with
  | [] => ret (fullResponse, sentenceBuffer)
  | chunk :: rest =>
      let fullResponse' := (fullResponse ++ chunk)%string in
      let sentenceBuffer' := (sentenceBuffer ++ chunk)%string in
      (emit (ResponseStreaming chunk) ;;
       let sentences := extractCompleteSentences host sentenceBuffer' in
       emitSentences (fst sentences) ;;
       forAwait host rest fullResponse' (snd sentences))%async
  end.

(** [handleContextReady(event)]. *)
Definition handleContextReady (host : Host) (event : ContextReadyEvent)
  : Async Bus unit :=
  let prompt := buildPrompt host (retrievedContext event) (userInput event) in
  (stream <- lift (generate host prompt) ;;
   buffers <- forAwait host (fst stream) "" "" ;;
   match snd stream with
   | Some e => throw e
   | None =>
       messageId <- generateId ;;
       emit (NarrativeResponse messageId (fst buffers))
   end)%async.

(** *** Reading the event log *)

Definition streamed (events : list NarratorEvent) : list string :=
  flat_map (fun e => match e with ResponseStreaming c => [c] | _ => [] end)
           events.

Definition sentencesOf (events : list NarratorEvent) : list string :=
  flat_map (fun e => match e with SentenceComplete s => [s] | _ => [] end)
           events.

Definition narrated (events : list NarratorEvent) : list (nat * string) :=
  flat_map (fun e => match e with
                     | NarrativeResponse i c => [(i, c)]
                     | _ => []
                     end) events.

(** The text of a list of pieces, one after the other. *)
Definition joined (pieces : list string) : string := String.concat "" pieces.

(** A sentence splitter loses and invents nothing: the complete sentences
    followed by the remainder are the buffer. *)
Definition splits (host : Host) : Prop :=
  forall buffer,
    (joined (fst (extractCompleteSentences host buffer)) ++
     snd (extractCompleteSentences host buffer))%string = buffer.

End Narrator.

(* ===================================================================== *)
(** ** The vision module (design.md, Appendix A.4) *)
(* ===================================================================== *)

Module Vision.

Inductive ElementType : Type :=
| ObjectElement | CharacterElement | LocationElement | SceneElement.

Inductive Importance : Type := High | Medium | Low.

(** An element of [ClassificationResult.visualElements]. *)
Record VisualElement : Type := mkElement {
  textSpan : string;
  elementType : ElementType;
  importance : Importance;
  imagePrompt : string;
  generateImmediately : bool
}.

Record ClassificationEvent : Type := mkClassified {
  visualElements : list VisualElement;
  messageId : string
}.

Definition maxConcurrent : nat := 2.

(** [element.generateImmediately || element.importance === 'high']. *)
Definition wanted (element : VisualElement) : bool :=
  generateImmediately element ||
  match importance element with High => true | _ => false end.

Section WithJobs.

(** [ImageJob], its numeric [priority] and [createJob] are used by the
    listing and defined nowhere. *)
Variable ImageJob : Type.
Variable priority : ImageJob -> Z.
Variable createJob : VisualElement -> string -> ImageJob.

(** The module's fields, and the jobs handed to [generateImage] so far, in
    the order of the calls. *)
Record State : Type := mkState {
  queue : list ImageJob;
  activeGenerations : nat;
  started : list ImageJob
}.

Definition initial : State := mkState [] 0 [].

(** [queue.sort((a, b) => a.priority - b.priority)]: the sort of an array is
    stable, so a job goes before the first job that does not precede it. *)
Fixpoint insertJob (job : ImageJob) (sorted : list ImageJob) : list ImageJob :=
  match sorted with
  | [] => [job]
  | j :: rest =>
      if (priority job <=? priority j)%Z then job :: j :: rest
      else j :: insertJob job rest
  end.

Definition sortByPriority (jobs : list ImageJob) : list ImageJob :=
  fold_right insertJob [] jobs.

(** [processQueue()]: the while loop shifts jobs off the queue while fewer
    than [maxConcurrent] generations are active. *)
Fixpoint processQueue (queue : list ImageJob) (active : nat)
  (started : list ImageJob) : State :=
  match queue with
  | [] => mkState [] active started
  | job :: rest =>
      if active <? maxConcurrent
      then processQueue rest (S active) (started ++ [job])
      else mkState queue active started
  end.

(** The jobs one event asks for. *)
Definition jobsOf (event : ClassificationEvent) : list ImageJob :=
  map (fun element => createJob element (messageId event))
      (filter wanted (visualElements event)).

(** [handleClassificationComplete(event)]. *)
Definition handleClassificationComplete (event : ClassificationEvent)
  (s : State) : State :=
  processQueue (sortByPriority (queue s ++ jobsOf event))
               (activeGenerations s) (started s).

(** The [finally] callback of a generation: it runs when a [generateImage]
    promise settles, fulfilled or rejected, so only while one is active. *)
Definition generationSettled (s : State) : option State :=
  match activeGenerations s with
  | 0 => None
  | S active => Some (processQueue (queue s) active (started s))
  end.

(** What happens to the module: an event arrives or a generation settles. *)
Inductive Step : Type :=
| Classified (event : ClassificationEvent)
| Settled.

Definition step (st : Step) (s : State) : option State :=
  match st with
  | Classified event => Some (handleClassificationComplete event s)
  | Settled => generationSettled s
  end.

Fixpoint run (steps : list Step) (s : State) : option State :=
  match steps with
  | [] => Some s
  | st :: rest =>
      match step st s with
      | Some s' => run rest s'
      | None => None
      end
  end.

(** All jobs the events of a run asked for, and the generations that
    settled in it. *)
Definition requested (steps : list Step) : list ImageJob :=
  flat_map (fun st => match st with
                      | Classified event => jobsOf event
                      | Settled => []
                      end) steps.

Definition settled (steps : list Step) : nat :=
  length (filter (fun st => match st with Settled => true | _ => false end)
                 steps).

Definition byPriority (a b : ImageJob) : Prop :=
  (priority a <= priority b)%Z.

(** What holds of the module between two steps, after the steps [steps]:
    the bound on the active generations, a queue that waits only while the
    bound is reached, in priority order, and every requested job either
    started or queued. *)
Definition settledState (steps : list Step) (s : State) : Prop :=
  activeGenerations s <= maxConcurrent /\
  (queue s <> [] -> activeGenerations s = maxConcurrent) /\
  StronglySorted byPriority (queue s) /\
  Permutation (started s ++ queue s) (requested steps) /\
  length (started s) = activeGenerations s + settled steps.

End WithJobs.

Arguments mkState {ImageJob}.
Arguments queue {ImageJob}.
Arguments activeGenerations {ImageJob}.
Arguments started {ImageJob}.
Arguments initial {ImageJob}.
Arguments processQueue {ImageJob}.
Arguments generationSettled {ImageJob}.

End Vision.

(* ===================================================================== *)
(** ** The text-to-speech module (design.md, Appendix A.5) *)
(* ===================================================================== *)

Module TTS.

Section WithAudio.

(** [AudioSegment] is used by the listing and defined nowhere. *)
Variable AudioSegment : Type.

(** The module's fields; whether a [playAudio] promise is unsettled; and the
    segments handed to [playAudio] so far, in the order of the calls. *)
Record State : Type := mkState {
  queue : list AudioSegment;
  isPlaying : bool;
  playback : bool;
  played : list AudioSegment
}.

Definition initial : State := mkState [] false false [].

(** [playNext()] up to its [await]. *)
Definition playNext (s : State) : State :=
  if isPlaying s then s
  else match queue s with
       | [] => s
       | segment :: rest => mkState rest true true (played s ++ [segment])
       end.

(** [handleSentenceComplete] once [synthesize] has resolved with [audio]. *)
Definition synthesized (audio : AudioSegment) (s : State) : State :=
  playNext (mkState (queue s ++ [audio]) (isPlaying s) (playback s)
                    (played s)).

(** [playNext()] after its [await], when [playAudio] resolves. *)
Definition playbackEnded (s : State) : option State :=
  if playback s
  then Some (playNext (mkState (queue s) false false (played s)))
  else None.

(** When [playAudio] rejects, [playNext] rejects at its [await]: the two
    statements after it do not run. *)
Definition playbackFailed (s : State) : option State :=
  if playback s
  then Some (mkState (queue s) (isPlaying s) false (played s))
  else None.

(** What happens to the module.  A synthesis that rejects makes
    [handleSentenceComplete] reject before it touches the queue. *)
Inductive Step : Type :=
| Synthesized (audio : AudioSegment)
| SynthesisFailed
| PlaybackEnded
| PlaybackFailed.

Definition step (st : Step) (s : State) : option State :=
  match st with
  | Synthesized audio => Some (synthesized audio s)
  | SynthesisFailed => Some s
  | PlaybackEnded => playbackEnded s
  | PlaybackFailed => playbackFailed s
  end.

Fixpoint run (steps : list Step) (s : State) : option State :=
  match steps with
  | [] => Some s
  | st :: rest =>
      match step st s with
      | Some s' => run rest s'
      | None => None
      end
  end.

(** The segments synthesized in a run, in the order their syntheses
    resolved. *)
Definition arrivals (steps : list Step) : list AudioSegment :=
  flat_map (fun st => match st with Synthesized audio => [audio] | _ => [] end)
           steps.

Definition isFailure (st : Step) : bool :=
  match st with PlaybackFailed => true | _ => false end.

End WithAudio.

Arguments mkState {AudioSegment}.
Arguments queue {AudioSegment}.
Arguments isPlaying {AudioSegment}.
Arguments playback {AudioSegment}.
Arguments played {AudioSegment}.
Arguments initial {AudioSegment}.
Arguments Synthesized {AudioSegment}.
Arguments SynthesisFailed {AudioSegment}.
Arguments PlaybackEnded {AudioSegment}.
Arguments PlaybackFailed {AudioSegment}.
Arguments run {AudioSegment}.
Arguments arrivals {AudioSegment}.
Arguments isFailure {AudioSegment}.

End TTS.

(* ===================================================================== *)
(** ** The lore management module (design.md, Appendix A.8) *)
(* ===================================================================== *)

Module LoreManagement.

Section WithEntries.

(** [Entry] values and the arguments of tool calls are only passed on by
    the listing. *)
Variable Entry : Type.
Variable Args : Type.

(** [ToolCall], by [toolCall.name], with the fields of [toolCall.args] the
    listing reads; every other name is a read-only tool. *)
Inductive ToolCall : Type :=
| create_entry (args : Args)
| update_entry (id : string) (changes previous : Args)
| merge_entries (ids : list string) (merged : Args)
| delete_entry (id : string)
| finish_lore_management (summary : string)
| read_only (name : string) (args : Args).

Inductive ChangeType : Type :=
| create | update | merge | delete | complete.

(** [LoreChange]. *)
Record LoreChange : Type := mkChange {
  changeType : ChangeType;
  entry : option Entry;
  previous : option Args;
  mergedFrom : option (list string);
  summary : option string
}.

(** [LoreManagementResult]. *)
Record LoreManagementResult : Type := mkResult {
  result_changes : list LoreChange;
  result_summary : string
}.

Record ChatMessage : Type := mkChat {
  role : Role;
  content : string
}.

Record AgentResponse : Type := mkResponse {
  response_content : string;
  toolCalls : list ToolCall
}.

(** What the module asked of the outside, in order. *)
Inductive Call : Type :=
| AskAgent (messages : list ChatMessage)
| Execute (toolCall : ToolCall).

(** [this.changes], and the calls made so far. *)
Record State : Type := mkState {
  changes : list LoreChange;
  trace : list Call
}.

(** What the listing calls and does not define; each answer may depend on
    the position of the call in the trace.  [prompt] is the outcome of
    gathering the context and [buildPrompt(context)]; [deleteEntry] may
    resolve with nothing. *)
Record Host : Type := mkHost {
  prompt : Result string;
  callAgent : nat -> list ChatMessage -> Result AgentResponse;
  createEntry : nat -> Args -> Result Entry;
  updateEntry : nat -> string -> Args -> Result Entry;
  mergeEntries : nat -> list string -> Args -> Result Entry;
  deleteEntry : nat -> string -> Result (option Entry);
  readTool : nat -> string -> Args -> Result string;
  stringify : Entry -> string
}.

Variable host : Host.

(** An outside call: its answer depends on its place in the trace, and it is
    recorded there. *)
Definition ask {A : Type} (c : Call) (reply : nat -> Result A)
  : Async State A :=
  fun s => (reply (length (trace s)), mkState (changes s) (trace s ++ [c])).

(** [this.changes.push(change)]. *)
Definition pushChange (change : LoreChange) : Async State unit :=
  fun s => (Ok tt, mkState (changes s ++ [change]) (trace s)).

(** [executeTool(toolCall)]. *)
Definition executeTool (toolCall : ToolCall) : Async State string :=
  match toolCall with
  | create_entry args =>
      (created <- ask (Execute toolCall) (fun n => createEntry host n args) ;;
       pushChange (mkChange create (Some created) None None None) ;;
       ret (stringify host created))%async
  | update_entry id changes previous =>
      (updated <- ask (Execute toolCall)
                      (fun n => updateEntry host n id changes) ;;
       pushChange (mkChange update (Some updated) (Some previous) None None) ;;
       ret (stringify host updated))%async
  | merge_entries ids merged =>
      (mergedEntry <- ask (Execute toolCall)
                          (fun n => mergeEntries host n ids merged) ;;
       pushChange (mkChange merge (Some mergedEntry) None (Some ids) None) ;;
       ret (stringify host mergedEntry))%async
  | delete_entry id =>
      (deleted <- ask (Execute toolCall) (fun n => deleteEntry host n id) ;;
       pushChange (mkChange delete deleted None None None) ;;
       ret "Deleted")%async
  | finish_lore_management summary =>
      (pushChange (mkChange complete None None None (Some summary)) ;;
       ret "Session complete")%async
  | read_only name args =>
      ask (Execute toolCall) (fun n => readTool host n name args)
  end.

(** [toolCall.name === 'finish_lore_management']. *)
Definition isFinish (toolCall : ToolCall) : bool :=
  match toolCall with finish_lore_management _ => true | _ => false end.

(** [for (const toolCall of response.toolCalls)], with [complete] and
    [messages] as they stand. *)
Fixpoint forToolCalls (responseContent : string) (calls : list ToolCall)
  (complete : bool) (messages : list ChatMessage)
  : Async State (bool * list ChatMessage) :=
  match calls with
  | [] => ret (complete, messages)
  | toolCall :: rest =>
      (result <- executeTool toolCall ;;
       forToolCalls responseContent rest
         (complete || isFinish toolCall)
         (messages ++ [mkChat Assistant responseContent;
                       mkChat Tool result]))%async
  end.

(** [while (!complete)].  The listing's loop has no bound: [fuel] bounds the
    turns of the loop that are followed, and [None] says that the loop is
    still running when they are used up. *)
Fixpoint whileNotComplete (fuel : nat) (messages : list ChatMessage)
  : Async State (option unit) :=
  match fuel with
  | 0 => ret None
  | S fuel' =>
      (response <- ask (AskAgent messages)
                       (fun n => callAgent host n messages) ;;
       after <- forToolCalls (response_content response)
                             (toolCalls response) false messages ;;
       if fst after then ret (Some tt)
       else whileNotComplete fuel' (snd after))%async
  end.

(** [this.changes[this.changes.length - 1]?.summary || '']. *)
Definition lastSummary (changes : list LoreChange) : string :=
  match rev changes with
  | [] => ""
  | last :: _ => match summary last with Some s => s | None => "" end
  end.

(** [runSession()]. *)
Definition runSession (fuel : nat)
  : Async State (option LoreManagementResult) :=
  ((fun s => (Ok tt, mkState [] (trace s))) ;;
   text <- lift (prompt host) ;;
   finished <- whileNotComplete fuel [mkChat User text] ;;
   match finished with
   | None => ret None
   | Some _ =>
       fun s => (Ok (Some (mkResult (changes s) (lastSummary (changes s)))), s)
   end)%async.

(** *** Reading a run *)

(** The tool calls that were executed, in order. *)
Definition executed (calls : list Call) : list ToolCall :=
  flat_map (fun c => match c with Execute tc => [tc] | AskAgent _ => [] end)
           calls.

(** How often the agent was asked. *)
Definition asked (calls : list Call) : nat :=
  length (filter (fun c => match c with AskAgent _ => true | _ => false end)
                 calls).

(** A tool call whose execution records a change. *)
Definition recordsChange (toolCall : ToolCall) : bool :=
  match toolCall with read_only _ _ => false | _ => true end.

(** The summary a tool call leaves in its change, if it leaves one. *)
Definition finishSummary (toolCall : ToolCall) : option string :=
  match toolCall with finish_lore_management s => Some s | _ => None end.

(** Every tool answers. *)
Definition toolsAnswer : Prop :=
  (forall n args, isOk (createEntry host n args) = true) /\
  (forall n id changes, isOk (updateEntry host n id changes) = true) /\
  (forall n ids merged, isOk (mergeEntries host n ids merged) = true) /\
  (forall n id, isOk (deleteEntry host n id) = true) /\
  (forall n name args, isOk (readTool host n name args) = true).

(** The agent answers every request, and never with a call of
    [finish_lore_management]. *)
Definition neverFinishes : Prop :=
  forall n messages,
  exists response,
    callAgent host n messages = Ok response /\
    existsb isFinish (toolCalls response) = false.

End WithEntries.

Arguments create_entry {Args}.
Arguments update_entry {Args}.
Arguments merge_entries {Args}.
Arguments delete_entry {Args}.
Arguments finish_lore_management {Args}.
Arguments read_only {Args}.
Arguments mkChange {Entry Args}.
Arguments changeType {Entry Args}.
Arguments summary {Entry Args}.
Arguments mkResult {Entry Args}.
Arguments result_changes {Entry Args}.
Arguments result_summary {Entry Args}.
Arguments mkResponse {Args}.
Arguments response_content {Args}.
Arguments toolCalls {Args}.
Arguments AskAgent {Args}.
Arguments Execute {Args}.
Arguments mkState {Entry Args}.
Arguments changes {Entry Args}.
Arguments trace {Entry Args}.
Arguments mkHost {Entry Args}.
Arguments prompt {Entry Args}.
Arguments callAgent {Entry Args}.
Arguments executeTool {Entry Args}.
Arguments isFinish {Args}.
Arguments forToolCalls {Entry Args}.
Arguments whileNotComplete {Entry Args}.
Arguments lastSummary {Entry Args}.
Arguments runSession {Entry Args}.
Arguments executed {Args}.
Arguments asked {Args}.
Arguments recordsChange {Args}.
Arguments finishSummary {Args}.
Arguments toolsAnswer {Entry Args}.
Arguments neverFinishes {Entry Args}.

End LoreManagement.

(* ===================================================================== *)
(** ** The SillyTavern lorebook import (design.md, Appendix B.1) *)
(* ===================================================================== *)

Module STImport.

(** [STLorebookEntry.extensions]; both fields may be missing.  A position is
    taken to be an integer. *)
Record STExtensions : Type := mkExtensions {
  position : option Z;
  disable : option bool
}.

Record STLorebookEntry : Type := mkSTEntry {
  uid : string;
  key : list string;
  content : string;
  extensions : STExtensions
}.

Record STLorebook : Type := mkLorebook {
  entries : list STLorebookEntry
}.

Inductive InjectionMode : Type := always | keyword | relevant | never.

Inductive Creator : Type := user | ai | import.

Record Injection : Type := mkInjection {
  mode : InjectionMode;
  keywords : list string;
  priority : Z
}.

Section WithInference.

(** [inferType], [inferInitialState] and [generateId] are called by the
    listing and defined nowhere.  The first two are taken as functions of the
    entry; [generateId] is taken by the number of calls made before: nothing
    is assumed about the ids it gives. *)
Variable EntryType : Type.
Variable EntryState : Type.
Variable Id : Type.
Variable inferType : STLorebookEntry -> EntryType.
Variable inferInitialState : STLorebookEntry -> EntryState.
Variable generateId : nat -> Id.

(** The object the listing builds for one entry. *)
Record Entry : Type := mkEntry {
  id : Id;
  name : string;
  type : EntryType;
  description : string;
  aliases : list string;
  state : EntryState;
  injection : Injection;
  createdBy : Creator
}.

(** [stEntry.key[0] || 'Unnamed']: a missing or empty first key gives the
    default. *)
Definition nameOf (stEntry : STLorebookEntry) : string :=
  match key stEntry with
  | [] => "Unnamed"
  | first :: _ => if String.eqb first "" then "Unnamed" else first
  end.

(** [stEntry.extensions.disable ? 'never' : 'keyword']. *)
Definition modeOf (stEntry : STLorebookEntry) : InjectionMode :=
  match disable (extensions stEntry) with
  | Some true => never
  | _ => keyword
  end.

(** [stEntry.extensions.position || 0]. *)
Definition priorityOf (stEntry : STLorebookEntry) : Z :=
  match position (extensions stEntry) with
  | Some p => if (p =? 0)%Z then 0%Z else p
  | None => 0%Z
  end.

(** The arrow function of the [map], after [calls] calls of
    [generateId]. *)
Definition convertEntry (calls : nat) (stEntry : STLorebookEntry) : Entry :=
  mkEntry (generateId calls)
          (nameOf stEntry)
          (inferType stEntry)
          (content stEntry)
          (tl (key stEntry))
          (inferInitialState stEntry)
          (mkInjection (modeOf stEntry) (key stEntry) (priorityOf stEntry))
          import.

(** [stLorebook.entries.map(...)]: the callback runs on the entries in
    order, and each run calls [generateId] once; the entries, and the number
    of calls made by the end. *)
Fixpoint convertEntries (stEntries : list STLorebookEntry) (calls : nat)
  : list Entry * nat :=
  match stEntries with
  | [] => ([], calls)
  | stEntry :: rest =>
      let converted := convertEntries rest (S calls) in
      (convertEntry calls stEntry :: fst converted, snd converted)
  end.

Definition convertSTLorebook (stLorebook : STLorebook) (calls : nat)
  : list Entry * nat :=
  convertEntries (entries stLorebook) calls.

End WithInference.

Arguments id {EntryType EntryState Id}.
Arguments name {EntryType EntryState Id}.
Arguments type {EntryType EntryState Id}.
Arguments description {EntryType EntryState Id}.
Arguments aliases {EntryType EntryState Id}.
Arguments state {EntryType EntryState Id}.
Arguments injection {EntryType EntryState Id}.
Arguments createdBy {EntryType EntryState Id}.
Arguments convertSTLorebook {EntryType EntryState Id}.
Arguments convertEntries {EntryType EntryState Id}.

End STImport.

(* ===================================================================== *)
(** ** TranslationService.ts *)
(* ===================================================================== *)

Module TranslationService.
Import BaseAIService.

(** [TranslationResult]; no method sets [detectedLanguage]. *)
Record TranslationResult : Type := mkTranslation {
  translatedContent : string;
  detectedLanguage : option string
}.

(** What [tryParseJsonWithHealing] gives: [null], an array, or another
    value. *)
Inductive Parsed (Item : Type) : Type :=
| ParsedNull
| ParsedArray (elements : list Item)
| ParsedOther.
Arguments ParsedNull {Item}.
Arguments ParsedArray {Item}.
Arguments ParsedOther {Item}.

(** What the file uses and does not define: [Intl.DisplayNames.of], which
    may throw or give nothing; [promptService.renderPrompt] and
    [renderUserPrompt], by template id and the value of the one variable
    handed to them; [JSON.stringify]; [tryParseJsonWithHealing];
    [String.prototype.trim]; and the matches of [itemRegex] in a text, each
    with [parseInt] of its first group and the text of its second. *)
Record Runtime (Item : Type) : Type := mkRuntime {
  displayNameOf : string -> Result (option string);
  renderPrompt : string -> string -> Result string;
  renderUserPrompt : string -> string -> Result string;
  stringify : list Item -> string;
  tryParseJsonWithHealing : string -> Parsed Item;
  trim : string -> string;
  itemMatches : string -> list (Z * string)
}.
Arguments displayNameOf {Item}.
Arguments renderPrompt {Item}.
Arguments renderUserPrompt {Item}.
Arguments stringify {Item}.
Arguments tryParseJsonWithHealing {Item}.
Arguments trim {Item}.
Arguments itemMatches {Item}.

Section WithRuntime.

Variable Item : Type.
Variable rt : Runtime Item.
Variable svc : Service.

(** The module's logger, [createLogger('Translation')]. *)
Definition note (line : string) : IO unit := log "Translation" line.

(** [a || b] on strings. *)
Definition orString (a b : string) : string :=
  if String.eqb a "" then b else a.

(** [getLanguageName(code)]. *)
Definition getLanguageName (code : string) : string :=
  if String.eqb code "auto" then "auto-detect"
  else match displayNameOf rt code with
       | Ok (Some name) => orString name code
       | Ok None => code
       | Throw _ => code
       end.

(** The argument of [generateResponse] in every method: the getters in the
    order of the object literal; no abort signal is passed. *)
Definition requestFor (systemPrompt userPrompt : string) : Result Request :=
  match model svc with
  | Throw e => Throw e
  | Ok m =>
      match serviceTemperature svc with
      | Throw e => Throw e
      | Ok temp =>
          match serviceMaxTokens svc with
          | Throw e => Throw e
          | Ok maxTok =>
              match extraBody svc with
              | Throw e => Throw e
              | Ok extra =>
                  Ok (mkRequest m [mkChat System systemPrompt;
                                   mkChat User userPrompt]
                                temp maxTok extra None)
              end
          end
      end
  end.

(** [await this.provider.generateResponse({...})]. *)
Definition request (systemPrompt userPrompt : string) : IO Response :=
  (req <- lift (requestFor systemPrompt userPrompt) ;;
   send svc req)%async.

(** What [translateNarration], [translateInput] and
    [translateWizardContent] share after their first lines: the two prompts
    are rendered, then the [try] block asks and trims, and the [catch] block
    logs and throws the error again. *)
Definition translateText (template called done failed language content : string)
  : IO TranslationResult :=
  (note called ;;
   systemPrompt <- lift (renderPrompt rt template language) ;;
   userPrompt <- lift (renderUserPrompt rt template content) ;;
   tryCatch
     (response <- request systemPrompt userPrompt ;;
      note done ;;
      ret (mkTranslation (trim rt (response_content response)) None))
     (fun error => note failed ;; throw error))%async.

(** [translateNarration(content, targetLanguage, isVisualProse)]. *)
Definition translateNarration (content targetLanguage : string)
  (isVisualProse : bool) : IO TranslationResult :=
  if String.eqb targetLanguage "en" then ret (mkTranslation content None)
  else translateText "translate-narration" "translateNarration called"
         "Narration translated" "Narration translation failed:"
         (getLanguageName targetLanguage) content.

(** [translateInput(content, sourceLanguage)]. *)
Definition translateInput (content sourceLanguage : string)
  : IO TranslationResult :=
  translateText "translate-input" "translateInput called"
    "Input translated" "Input translation failed:"
    (if String.eqb sourceLanguage "auto" then "the detected language"
     else getLanguageName sourceLanguage)
    content.

(** [translateWizardContent(content, targetLanguage)]. *)
Definition translateWizardContent (content targetLanguage : string)
  : IO TranslationResult :=
  if String.eqb targetLanguage "en" then ret (mkTranslation content None)
  else translateText "translate-wizard-content" "translateWizardContent called"
         "Wizard content translated" "Wizard content translation failed:"
         (getLanguageName targetLanguage) content.

(** What [translateUIElements], [translateSuggestions] and
    [translateActionChoices] share: the same statements with other template
    ids and log lines. *)
Definition translateList (template called unparsed done failed : string)
  (items : list Item) (targetLanguage : string) : IO (list Item) :=
  match items with
  | [] => ret []
  | _ =>
      if String.eqb targetLanguage "en" then ret items
      else
        (note called ;;
         systemPrompt <- lift (renderPrompt rt template
                                 (getLanguageName targetLanguage)) ;;
         userPrompt <- lift (renderUserPrompt rt template
                               (stringify rt items)) ;;
         tryCatch
           (response <- request systemPrompt userPrompt ;;
            match tryParseJsonWithHealing rt (response_content response) with
            | ParsedArray parsed => (note done ;; ret parsed)
            | _ => (note unparsed ;; ret items)
            end)
           (fun _ => note failed ;; ret items))%async
  end.

(** [translateUIElements(items, targetLanguage)]. *)
Definition translateUIElements : list Item -> string -> IO (list Item) :=
  translateList "translate-ui" "translateUIElements called"
    "Failed to parse UI translation response" "UI elements translated"
    "UI translation failed:".

(** [translateSuggestions(suggestions, targetLanguage)]. *)
Definition translateSuggestions : list Item -> string -> IO (list Item) :=
  translateList "translate-suggestions" "translateSuggestions called"
    "Failed to parse suggestions translation response"
    "Suggestions translated" "Suggestions translation failed:".

(** [translateActionChoices(choices, targetLanguage)]. *)
Definition translateActionChoices : list Item -> string -> IO (list Item) :=
  translateList "translate-action-choices" "translateActionChoices called"
    "Failed to parse action choices translation response"
    "Action choices translated" "Action choices translation failed:".

(** *** The batch translation of wizard fields

    A [Record<string, string>] is the list of its entries in the order of
    enumeration, each key once. *)

(** [value && value.trim()] is falsy. *)
Definition blank (value : string) : bool :=
  String.eqb value "" || String.eqb (trim rt value) "".

(** The loop that fills [nonEmptyFields]. *)
Definition nonEmptyFields (fields : list (string * string))
  : list (string * string) :=
  filter (fun field => negb (blank (snd field))) fields.

(** [record[key]]. *)
Fixpoint lookup (key : string) (record : list (string * string))
  : option string :=
  match record with
  | [] => None
  | (k, v) :: rest => if String.eqb key k then Some v else lookup key rest
  end.

(** [record[key] = value]. *)
Fixpoint assign (key value : string) (record : list (string * string))
  : list (string * string) :=
  match record with
  | [] => [(key, value)]
  | (k, v) :: rest =>
      if String.eqb key k then (k, value) :: rest
      else (k, v) :: assign key value rest
  end.

(** [fieldKeys.map((key, i) => `[${i + 1}] ${nonEmptyFields[key]}`)], from
    index [i] on. *)
Fixpoint numberedLines (i : nat) (values : list string) : list string :=
  match values with
  | [] => []
  | value :: rest =>
      ("[" ++ Memory.showNat (i + 1) ++ "] " ++ value)%string ::
      numberedLines (S i) rest
  end.

Definition batchSystemPrompt (languageName count : string) : string :=
  String.concat Memory.newline
    [("You are a translator. Translate each numbered item to " ++
      languageName ++ ".")%string;
     "";
     "RULES:";
     ("- Output ALL " ++ count ++ " items with their numbers")%string;
     "- Keep the exact format: [number] translated text";
     "- For names/proper nouns: translate phonetically or keep as-is, but ALWAYS include the item";
     "- Do not skip any items, do not add explanations";
     "";
     "Example input:";
     "[1] Hello world";
     "[2] John Smith";
     "";
     "Example output:";
     "[1] Hola mundo";
     "[2] John Smith"].

Definition batchUserPrompt (languageName count inputText : string) : string :=
  ("Translate these " ++ count ++ " items to " ++ languageName ++ ":" ++
   Memory.newline ++ Memory.newline ++ inputText)%string.

(** The [while] loop over the matches of [itemRegex]. *)
Fixpoint applyMatches (fieldKeys : list string) (matches : list (Z * string))
  (result : list (string * string)) : list (string * string) :=
  match matches with
  | [] => result
  | (number, raw) :: rest =>
      let index := (number - 1)%Z in
      let value := trim rt raw in
      applyMatches fieldKeys rest
        (if (0 <=? index)%Z && (index <? Z.of_nat (length fieldKeys))%Z &&
            negb (String.eqb value "")
         then match nth_error fieldKeys (Z.to_nat index) with
              | Some key => assign key value result
              | None => result
              end
         else result)
  end.

(** [result[k] !== fields[k]]. *)
Definition differs (key : string) (result fields : list (string * string))
  : bool :=
  match lookup key result, lookup key fields with
  | Some a, Some b => negb (String.eqb a b)
  | None, None => false
  | _, _ => true
  end.

(** [translateWizardBatch(fields, targetLanguage)]. *)
Definition translateWizardBatch (fields : list (string * string))
  (targetLanguage : string) : IO (list (string * string)) :=
  if String.eqb targetLanguage "en" then ret fields
  else
    match nonEmptyFields fields with
    | [] => ret fields
    | nonEmpty =>
        let languageName := getLanguageName targetLanguage in
        let fieldKeys := map fst nonEmpty in
        let inputLines := numberedLines 0 (map snd nonEmpty) in
        let inputText :=
          String.concat (Memory.newline ++ Memory.newline) inputLines in
        let count := Memory.showNat (length fieldKeys) in
        (note "translateWizardBatch called" ;;
         tryCatch
           (response <- request (batchSystemPrompt languageName count)
                                (batchUserPrompt languageName count inputText) ;;
            let responseText := trim rt (response_content response) in
            let result :=
              applyMatches fieldKeys (itemMatches rt responseText) fields in
            let parsedCount :=
              length (filter (fun k => differs k result fields) fieldKeys) in
            (if parsedCount <? length fieldKeys
             then note "Batch translation parsing may have missed fields"
             else ret tt) ;;
            note "Wizard batch translated" ;;
            ret result)
           (fun error =>
              note "Wizard batch translation failed:" ;; throw error))%async
    end.

End WithRuntime.

Arguments blank {Item}.
Arguments nonEmptyFields {Item}.
Arguments applyMatches {Item}.
Arguments translateWizardBatch {Item}.
Arguments getLanguageName {Item}.
Arguments translateText {Item}.
Arguments translateNarration {Item}.
Arguments translateInput {Item}.
Arguments translateWizardContent {Item}.
Arguments translateList {Item}.
Arguments translateUIElements {Item}.
Arguments translateSuggestions {Item}.
Arguments translateActionChoices {Item}.

End TranslationService.

(* ===================================================================== *)
(** ** The service factory (ServiceFactory) *)
(* ===================================================================== *)

Module ServiceFactory.

(** The API settings of a profile: the key the factory tests, and the rest,
    which it only hands to the provider. *)
Record ApiSettings : Type := mkApiSettings {
  openaiApiKey : option string;
  otherSettings : string
}.

(** [new OpenAIProvider(apiSettings)]: the provider keeps the settings it
    was made with. *)
Record OpenAIProvider : Type := mkProvider {
  apiSettings : ApiSettings
}.

(** What the factory reads of the settings store. *)
Record Settings : Type := mkSettings {
  mainNarrativeProfileId : string;
  getApiSettingsForProfile : string -> Result ApiSettings
}.

(** What a method of the factory throws: [new Error(message)] of its own,
    or what the settings store threw. *)
Inductive Thrown : Type :=
| ErrorMessage (message : string)
| Raised (e : Error).

Inductive Outcome (A : Type) : Type :=
| Returned (a : A)
| Threw (t : Thrown).
Arguments Returned {A}.
Arguments Threw {A}.

(** A method of the factory: from the lines logged so far to its outcome and
    the lines logged after it. *)
Definition Factory (A : Type) : Type := list string -> Outcome A * list string.

(** [new ContextBuilder(provider, config)]. *)
Record ContextBuilder (Config : Type) : Type := mkContextBuilder {
  builderProvider : option OpenAIProvider;
  builderConfig : option Config
}.
Arguments mkContextBuilder {Config}.
Arguments builderProvider {Config}.
Arguments builderConfig {Config}.

Section WithSettings.

Variable settings : Settings.

(** [!apiSettings.openaiApiKey]. *)
Definition keyMissing (s : ApiSettings) : bool :=
  match openaiApiKey s with
  | Some key => String.eqb key ""
  | None => true
  end.

(** [getProviderForProfileId(profileId, contextLabel)]. *)
Definition getProviderForProfileId (profileId : string)
  (contextLabel : option string) : Factory OpenAIProvider :=
  fun logged =>
    match getApiSettingsForProfile settings profileId with
    | Throw e => (Threw (Raised e), logged)
    | Ok found =>
        let logged' := logged ++ ["Getting provider for profile"] in
        if keyMissing found then
          match contextLabel with
          | Some label =>
              if String.eqb label "" then
                (Threw (ErrorMessage
                          ("No API key configured for profile: " ++ profileId)),
                 logged')
              else
                (Threw (ErrorMessage
                          ("No API key configured for " ++ label ++ " profile")),
                 logged')
          | None =>
              (Threw (ErrorMessage
                        ("No API key configured for profile: " ++ profileId)),
               logged')
          end
        else (Returned (mkProvider found), logged')
    end.

(** [getMainProvider()]. *)
Definition getMainProvider : Factory OpenAIProvider :=
  getProviderForProfileId (mainNarrativeProfileId settings)
                          (Some "main narrative").

(** [getProviderForProfile(profileId)]. *)
Definition getProviderForProfile (profileId : option string)
  : Factory OpenAIProvider :=
  let resolvedProfileId :=
    match profileId with
    | Some given => given
    | None => mainNarrativeProfileId settings
    end in
  getProviderForProfileId resolvedProfileId None.

(** [tryGetProviderForProfile(profileId)]. *)
Definition tryGetProviderForProfile (profileId : option string)
  : Factory (option OpenAIProvider) :=
  fun logged =>
    match getProviderForProfile profileId logged with
    | (Returned provider, logged') => (Returned (Some provider), logged')
    | (Threw _, logged') =>
        (Returned None, logged' ++ ["Provider not available for profile"])
    end.

(** [createContextBuilder(config)]. *)
Definition createContextBuilder {Config : Type} (config : option Config)
  : Factory (ContextBuilder Config) :=
  fun logged =>
    match getMainProvider logged with
    | (Returned provider, logged') =>
        (Returned (mkContextBuilder (Some provider) config), logged')
    | (Threw _, logged') =>
        (Returned (mkContextBuilder None config),
         logged' ++
         ["No provider available for context builder, skipping Tier 3"])
    end.

End WithSettings.

End ServiceFactory.

(* ===================================================================== *)
(** ** Sample modules, hosts and runs for the further properties *)
(* ===================================================================== *)

Module Scenes.

(** *** Memory *)


(** The sample model with an agent that calls [toString], which [tools]
    inherits from [Object.prototype], and then finishes. *)
Definition pryingModel : Memory.Model :=
  Memory.mkModel
    (Memory.decideRetrieval_reply Samples.model)
    (Memory.executeQuery_reply Samples.model)
    (Memory.executeRangeQuery_reply Samples.model)
    (fun _ _ =>
       Ok (Memory.mkAgentResponse "looking"
             [Memory.other_tool "toString";
              Memory.call_finish_retrieval "enough"]))
    (Memory.summarizeChapter_reply Samples.model)
    (Memory.extractMetadata_reply Samples.model).


(** The sample configuration with no agent iteration allowed. *)
Definition noIterations : Memory.MemoryConfig :=
  Memory.mkConfig Memory.ModeAgentic 5 3 0 30 50 10.

(** *** Narrator *)

(** A splitter that ends a sentence at every full stop. *)
Fixpoint splitSentences (current text : string) : list string * string :=
  match text with
  | EmptyString => ([], current)
  | String c rest =>
      let current' := (current ++ String c EmptyString)%string in
      if Ascii.eqb c "."%char
      then let later := splitSentences EmptyString rest in
           (current' :: fst later, snd later)
      else splitSentences current' rest
  end.

(** A narrator whose model streams three chunks. *)
Definition narratorHost : Narrator.Host :=
  Narrator.mkHost
    (fun _ userInput => userInput)
    (fun _ => Ok (["The door "; "opens. A "; "draft"], None))
    (splitSentences EmptyString).

Definition lookAround : Narrator.ContextReadyEvent :=
  Narrator.mkContextReady None "look around".

Definition quietBus : Narrator.Bus := Narrator.mkBus [] 7.

(** *** Vision *)

(** A job is its prompt and its priority; the priority of a job is the
    length of the text it illustrates. *)
Definition sampleJob (element : Vision.VisualElement) (messageId : string)
  : string * Z :=
  (Vision.imagePrompt element,
   Z.of_nat (String.length (Vision.textSpan element))).

Definition element (span : string) (importance : Vision.Importance)
  (immediately : bool) : Vision.VisualElement :=
  Vision.mkElement span Vision.ObjectElement importance
                   ("a picture of " ++ span)%string immediately.

(** Four elements, three of them wanted; then a generation settles. *)
Definition visionSteps : list Vision.Step :=
  [Vision.Classified
     (Vision.mkClassified
        [element "the old lighthouse" Vision.High false;
         element "a key" Vision.Low true;
         element "rain" Vision.Medium false;
         element "the harbour" Vision.High false] "msg_8");
   Vision.Settled].

(** *** Text to speech *)

(** Two sentences are synthesized. *)
Definition speechSteps : list (TTS.Step string) :=
  [TTS.Synthesized "one"; TTS.Synthesized "two"].

(** What arrives later: a third sentence, and a synthesis that fails. *)
Definition laterSpeech : list (TTS.Step string) :=
  [TTS.Synthesized "three"; TTS.SynthesisFailed].

(** *** Lore management *)

(** Tools that answer; entries and arguments are texts. *)
Definition loreHost (agent : nat -> LoreManagement.AgentResponse string)
  : LoreManagement.Host string string :=
  LoreManagement.mkHost
    (Ok "Tidy the lore.")
    (fun n _ => Ok (agent n))
    (fun _ args => Ok args)
    (fun _ id _ => Ok id)
    (fun _ _ merged => Ok merged)
    (fun _ id => Ok (Some id))
    (fun _ name _ => Ok name)
    (fun entry => entry).

(** An agent that lists the entries on every turn and never finishes. *)
Definition browsingHost : LoreManagement.Host string string :=
  loreHost (fun _ =>
              LoreManagement.mkResponse "browsing"
                [LoreManagement.read_only "list_entries" "all"]).

(** An agent that finishes at once and deletes an entry in the same
    response. *)
Definition hastyHost : LoreManagement.Host string string :=
  loreHost (fun _ =>
              LoreManagement.mkResponse "done"
                [LoreManagement.finish_lore_management "merged two entries";
                 LoreManagement.delete_entry "entry_7"]).

Definition noSession : LoreManagement.State string string :=
  LoreManagement.mkState [] [].

(** *** Lorebook import *)

Definition lorebook : STImport.STLorebook :=
  STImport.mkLorebook
    [STImport.mkSTEntry "0" ["Elena"; "the captain"] "Captain of the Gull."
       (STImport.mkExtensions (Some 4%Z) None);
     STImport.mkSTEntry "1" [] "An entry without keys."
       (STImport.mkExtensions None (Some true))].

(** *** The base service and the translation service *)

(** A service whose preset cannot be found, with an override that names
    every setting the getters read. *)
Definition overriddenService : BaseAIService.Service :=
  BaseAIService.mkService
    (Some (BaseAIService.mkOverride (Some "small-model") (Some 300%Z)
             (Some 512%Z) (Some "{}") (Some "low") (Some ["openrouter"])))
    (Throw (TypeError "preset"))
    false
    (fun body => Ok (BaseAIService.opt_manualBody body))
    (fun _ => Ok CallSamples.quiet)
    (fun _ _ => Ok (BaseAIService.mkResponse "  Hola  ")).

(** The same service with an override that leaves the reasoning effort to
    the preset. *)
Definition halfOverriddenService : BaseAIService.Service :=
  BaseAIService.mkService
    (Some (BaseAIService.mkOverride (Some "small-model") (Some 300%Z)
             (Some 512%Z) (Some "{}") None (Some ["openrouter"])))
    (BaseAIService.getPresetConfig overriddenService)
    false
    (BaseAIService.buildExtraBody overriddenService)
    (BaseAIService.createLogger overriddenService)
    (BaseAIService.generateResponse overriddenService).

(** The fully overridden service with a provider that rejects every
    request. *)
Definition downService : BaseAIService.Service :=
  BaseAIService.mkService
    (BaseAIService.settingsOverride overriddenService)
    (BaseAIService.getPresetConfig overriddenService)
    false
    (BaseAIService.buildExtraBody overriddenService)
    (BaseAIService.createLogger overriddenService)
    (fun _ _ => Throw (ModelFailure "503")).

Fixpoint dropSpaces (text : string) : string :=
  match text with
  | String c rest => if Ascii.eqb c " "%char then dropSpaces rest else text
  | EmptyString => EmptyString
  end.

Definition reversed (text : string) : string :=
  string_of_list_ascii (rev (list_ascii_of_string text)).

(** A runtime over items that are texts: display names are unknown, prompts
    are rendered as the template id and the variable, an answer parses to
    the array of itself, [trim] removes spaces at both ends, and the answer
    is read as the items 1 and 3. *)
Definition runtime : TranslationService.Runtime string :=
  TranslationService.mkRuntime string
    (fun _ => Ok None)
    (fun template value => Ok (template ++ ": " ++ value)%string)
    (fun template value => Ok (template ++ ": " ++ value)%string)
    (String.concat ", ")
    (fun content => TranslationService.ParsedArray [content])
    (fun text => reversed (dropSpaces (reversed (dropSpaces text))))
    (fun _ => [(1%Z, " Un faro "); (3%Z, "sobra")]).

Definition wizardFields : list (string * string) :=
  [("title", "A lighthouse"); ("notes", "  "); ("hero", "Elena")].

(** *** The service factory *)

(** Settings in which only the profile [main] has a key. *)
Definition factorySettings : ServiceFactory.Settings :=
  ServiceFactory.mkSettings "main"
    (fun profileId =>
       if String.eqb profileId "main"
       then Ok (ServiceFactory.mkApiSettings (Some "sk-1") "openrouter")
       else Ok (ServiceFactory.mkApiSettings None "openrouter")).

End Scenes.

(* ===================================================================== *)
(** ** The entries module (design.md, Appendix A.6) *)
(* ===================================================================== *)

Module Entries.

Section WithEntries.

(** Entries, changes to an entry and new entries are only passed on by the
    listing. *)
Variable Entry : Type.
Variable Changes : Type.
Variable NewEntry : Type.

(** An element of [event.entryUpdates.updates]. *)
Record EntryUpdate : Type := mkUpdate {
  entryId : string;
  changes : Changes
}.

(** The part of [ClassificationEvent] the handler reads. *)
Record ClassificationEvent : Type := mkClassified {
  updates : list EntryUpdate;
  newEntries : list NewEntry
}.

(** The calls the handler awaits. *)
Inductive Call : Type :=
| UpdateEntry (entryId : string) (changes : Changes)
| CreateEntry (newEntry : NewEntry).

(** The calls made so far and the payloads of the [StateUpdated] events
    emitted so far. *)
Record State : Type := mkState {
  calls : list Call;
  stateUpdated : list (list Entry)
}.

(** What the listing calls and does not define: [this.updateEntry] and
    [this.createEntry], each answering by its place among the calls, and
    [getAllEntries()], which reads the store those calls have written. *)
Record Host : Type := mkHost {
  updateEntry : nat -> string -> Changes -> Result unit;
  createEntry : nat -> NewEntry -> Result unit;
  getAllEntries : list Call -> list Entry
}.

Variable host : Host.

(** The answer to a call made as the [n]-th. *)
Definition answer (n : nat) (call : Call) : Result unit :=
  match call with
  | UpdateEntry entryId changes => updateEntry host n entryId changes
  | CreateEntry newEntry => createEntry host n newEntry
  end.

(** An awaited call: [await this.updateEntry(...)] or
    [await this.createEntry(...)]. *)
Definition await (call : Call) : Async State unit :=
  fun s =>
    (answer (length (calls s)) call,
     mkState (calls s ++ [call]) (stateUpdated s)).

(** [for (const x of xs) { await f(x); }]. *)
Fixpoint forEach {A : Type} (f : A -> Async State unit) (xs : list A)
  : Async State unit :=
  match xs with
  | [] => ret tt
  | x :: rest => (f x ;; forEach f rest)%async
  end.

(** [eventBus.emit('StateUpdated', { entries: getAllEntries() })]. *)
Definition emitStateUpdated : Async State unit :=
  fun s =>
    (Ok tt,
     mkState (calls s) (stateUpdated s ++ [getAllEntries host (calls s)])).

(** [handleClassificationComplete(event)]. *)
Definition handleClassificationComplete (event : ClassificationEvent)
  : Async State unit :=
  (forEach (fun update =>
              await (UpdateEntry (entryId update) (changes update)))
           (updates event) ;;
   forEach (fun newEntry => await (CreateEntry newEntry))
           (newEntries event) ;;
   emitStateUpdated)%async.

(** The calls an event asks for, in the order of the two loops. *)
Definition intended (event : ClassificationEvent) : list Call :=
  map (fun update => UpdateEntry (entryId update) (changes update))
      (updates event) ++
  map CreateEntry (newEntries event).

End WithEntries.

Arguments mkUpdate {Changes}.
Arguments mkClassified {Changes NewEntry}.
Arguments UpdateEntry {Changes NewEntry}.
Arguments CreateEntry {Changes NewEntry}.
Arguments mkState {Entry Changes NewEntry}.
Arguments calls {Entry Changes NewEntry}.
Arguments stateUpdated {Entry Changes NewEntry}.
Arguments mkHost {Entry Changes NewEntry}.
Arguments getAllEntries {Entry Changes NewEntry}.
Arguments await {Entry Changes NewEntry}.
Arguments forEach {Entry Changes NewEntry A}.
Arguments handleClassificationComplete {Entry Changes NewEntry}.
Arguments intended {Changes NewEntry}.
Arguments answer {Entry Changes NewEntry}.

End Entries.

(* ===================================================================== *)
(** * Properties *)
(* ===================================================================== *)

Local Open Scope async_scope.

(** ** The Chapter Index keeps its chapters contiguous *)

Section ChapterIndexFacts.

Variable position : string -> nat.

Local Abbreviation lastEnd := ChapterIndex.lastEnd.
Local Abbreviation endBefore := ChapterIndex.endBefore.
Local Abbreviation follows := (ChapterIndex.follows position).
Local Abbreviation inSequence := (ChapterIndex.inSequence position).
Local Abbreviation append := (ChapterIndex.append position).
Local Abbreviation appendAll := (ChapterIndex.appendAll position).
Local Abbreviation contiguousFrom := (ChapterIndex.contiguousFrom position).
Local Abbreviation contiguous := (ChapterIndex.contiguous position).

Lemma lastEnd_cons (a : Chapter) (l : list Chapter) :
  lastEnd (a :: l) =
  match lastEnd l with
  | Some e => Some e
  | None => Some (endMessageId a)
  end.
Proof.
  unfold ChapterIndex.lastEnd. simpl.
  destruct (rev l) as [|c r]; reflexivity.
Qed.

Lemma contiguousFrom_snoc (l : list Chapter) :
  forall (k : nat) (prior : option string) (c : Chapter),
    contiguousFrom k prior (l ++ [c]) =
    contiguousFrom k prior l &&
    ((number c =? k + length l) &&
     match endBefore prior l with
     | None => true
     | Some e => follows (startMessageId c) e
     end).
Proof.
  induction l as [|a l IH]; intros k prior c.
  - simpl. unfold ChapterIndex.endBefore. simpl. rewrite Nat.add_0_r.
    rewrite andb_true_r. reflexivity.
  - cbn [app ChapterIndex.contiguousFrom length]. rewrite IH.
    unfold ChapterIndex.endBefore. rewrite lastEnd_cons.
    replace (k + S (length l)) with (S k + length l) by lia.
    destruct (lastEnd l); rewrite <- !andb_assoc; reflexivity.
Qed.

Lemma inSequence_contiguous (index : list Chapter) (ch : Chapter) :
  contiguous index = true ->
  contiguous (index ++ [ch]) = inSequence index ch.
Proof.
  intros H. unfold ChapterIndex.contiguous in *.
  rewrite contiguousFrom_snoc, H. unfold ChapterIndex.endBefore, ChapterIndex.inSequence.
  simpl. destruct (lastEnd index); reflexivity.
Qed.

Lemma append_contiguous (index : list Chapter) (ch : Chapter) :
  contiguous index = true ->
  contiguous (snd (append ch index)) = true.
Proof.
  intros H. unfold ChapterIndex.append.
  destruct (inSequence index ch) eqn:E; simpl; [|exact H].
  rewrite inSequence_contiguous; assumption.
Qed.

Lemma appendAll_contiguous (ops : list Chapter) :
  forall index, contiguous index = true -> contiguous (appendAll ops index) = true.
Proof.
  induction ops as [|ch ops IH]; intros index H; simpl.
  - exact H.
  - apply IH, append_contiguous, H.
Qed.

Lemma contiguousFrom_numbers (l : list Chapter) :
  forall k prior i ch,
    contiguousFrom k prior l = true ->
    nth_error l i = Some ch -> number ch = k + i.
Proof.
  induction l as [|a l IH]; intros k prior i ch H Hn.
  - destruct i; discriminate.
  - simpl in H. apply andb_prop in H. destruct H as [H Hrest].
    apply andb_prop in H. destruct H as [Hk _].
    destruct i as [|i]; simpl in Hn.
    + injection Hn as <-. apply Nat.eqb_eq in Hk. lia.
    + rewrite (IH _ _ _ _ Hrest Hn). lia.
Qed.

Lemma contiguousFrom_adjacent (l : list Chapter) :
  forall k prior i a b,
    contiguousFrom k prior l = true ->
    nth_error l i = Some a -> nth_error l (S i) = Some b ->
    position (startMessageId b) = S (position (endMessageId a)).
Proof.
  induction l as [|x l IH]; intros k prior i a b H Ha Hb.
  - destruct i; discriminate.
  - simpl in H. apply andb_prop in H. destruct H as [_ Hrest].
    destruct i as [|i]; simpl in Ha, Hb.
    + injection Ha as <-. destruct l as [|y l]; [discriminate|].
      simpl in Hb. injection Hb as <-. simpl in Hrest.
      apply andb_prop in Hrest. destruct Hrest as [Hrest _].
      apply andb_prop in Hrest. destruct Hrest as [_ Hf].
      apply Nat.eqb_eq in Hf. exact Hf.
    + exact (IH _ _ _ _ _ Hrest Ha Hb).
Qed.

(** Chapters further apart: when every chapter ends no earlier than it
    starts, an earlier chapter ends before a later one starts. *)
Lemma contiguousFrom_ordered (l : list Chapter) (k : nat)
  (prior : option string) :
  contiguousFrom k prior l = true ->
  (forall c, In c l ->
             position (startMessageId c) <= position (endMessageId c)) ->
  forall d i a b,
    nth_error l i = Some a -> nth_error l (i + S d) = Some b ->
    position (endMessageId a) < position (startMessageId b).
Proof.
  intros H Hwf. induction d as [|d IH]; intros i a b Ha Hb.
  - rewrite Nat.add_1_r in Hb.
    rewrite (contiguousFrom_adjacent _ _ _ _ _ _ H Ha Hb). lia.
  - destruct (nth_error l (i + S d)) as [c|] eqn:Hc.
    + specialize (IH i a c Ha Hc).
      replace (i + S (S d)) with (S (i + S d)) in Hb by lia.
      rewrite (contiguousFrom_adjacent _ _ _ _ _ _ H Hc Hb).
      specialize (Hwf c (nth_error_In _ _ Hc)). lia.
    + apply nth_error_None in Hc.
      assert (Hlt : i + S (S d) < length l)
        by (apply nth_error_Some; congruence).
      lia.
Qed.

(** C1.  Whatever appends are attempted on an empty Chapter Index, the
    committed chapters are numbered 1, 2, ..., count in order (the first one
    carries number 1); each chapter starts at the turn right after the end
    turn of the chapter before it, so that chapters that end no earlier than
    they start neither leave a gap nor overlap; and a further append is
    accepted exactly when the index would still be contiguous with the
    chapter added: if not, it fails with OutOfSequence and leaves the index
    as it was. *)
Theorem chapter_index_contiguity (ops : list Chapter) :
  let index := appendAll ops [] in
  (forall i ch, nth_error index i = Some ch -> number ch = S i) /\
  (forall i a b,
      nth_error index i = Some a -> nth_error index (S i) = Some b ->
      position (startMessageId b) = S (position (endMessageId a))) /\
  ((forall c, In c index ->
              position (startMessageId c) <= position (endMessageId c)) ->
   forall i j a b,
     i < j -> nth_error index i = Some a -> nth_error index j = Some b ->
     position (endMessageId a) < position (startMessageId b)) /\
  (forall ch,
      append ch index =
      if contiguous (index ++ [ch]) then (Ok tt, index ++ [ch])
      else (Throw OutOfSequence, index)).
Proof.
  intros index.
  assert (H : contiguous index = true)
    by (apply appendAll_contiguous; reflexivity).
  split; [|split; [|split]].
  - intros i ch Hn.
    exact (contiguousFrom_numbers _ _ _ _ _ H Hn).
  - intros i a b Ha Hb.
    exact (contiguousFrom_adjacent _ _ _ _ _ _ H Ha Hb).
  - intros Hwf i j a b Hij Ha Hb.
    replace j with (i + S (j - S i)) in Hb by lia.
    exact (contiguousFrom_ordered _ _ _ H Hwf _ _ _ _ Ha Hb).
  - intros ch. rewrite (inSequence_contiguous _ _ H).
    reflexivity.
Qed.

End ChapterIndexFacts.

(** ** Strings *)

Lemma string_app_nil_r (s : string) : (s ++ "")%string = s.
Proof. induction s as [|c s IH]; simpl; [reflexivity | rewrite IH; reflexivity]. Qed.

Lemma string_app_assoc (a b c : string) :
  ((a ++ b) ++ c)%string = (a ++ b ++ c)%string.
Proof. induction a as [|x a IH]; simpl; [reflexivity | rewrite IH; reflexivity]. Qed.

(** A piece that was joined is a part of the joined text. *)
Lemma concat_holds_piece (sep : string) (pieces : list string) (x : string) :
  In x pieces ->
  exists before after,
    String.concat sep pieces = (before ++ x ++ after)%string.
Proof.
  induction pieces as [|y rest IH]; intros H; [destruct H|].
  destruct H as [->|H].
  - destruct rest as [|z rest].
    + exists ""%string, ""%string. simpl. rewrite string_app_nil_r. reflexivity.
    + exists ""%string, (sep ++ String.concat sep (z :: rest))%string.
      reflexivity.
  - destruct (IH H) as [before [after E]].
    destruct rest as [|z rest]; [destruct H|].
    exists (y ++ sep ++ before)%string, after.
    cbn [String.concat]. cbn [String.concat] in E. rewrite E.
    rewrite !string_app_assoc. reflexivity.
Qed.

(** ** Promises *)

Lemma allOk_map_Ok {A} (vs : list A) : allOk (map Ok vs) = Ok vs.
Proof.
  induction vs as [|v vs IH]; simpl; [reflexivity|].
  rewrite IH. reflexivity.
Qed.

Lemma allOk_Ok_inv {A} (rs : list (Result A)) :
  forall vs, allOk rs = Ok vs -> rs = map Ok vs.
Proof.
  induction rs as [|r rs IH]; intros vs H; simpl in H.
  - injection H as <-. reflexivity.
  - destruct r as [a|e]; [|discriminate].
    destruct (allOk rs) as [l|e]; [|discriminate].
    injection H as <-. simpl. rewrite (IH l eq_refl). reflexivity.
Qed.

(** One rejected promise is enough for [Promise.all] to reject. *)
Lemma allOk_In_Throw {A} (rs : list (Result A)) (e : Error) :
  In (Throw e) rs -> exists e', allOk rs = Throw e'.
Proof.
  induction rs as [|r rs IH]; intros H; [destruct H|].
  destruct r as [a|e0]; simpl.
  - destruct H as [H|H]; [discriminate|].
    destruct (IH H) as [e' ->]. exists e'. reflexivity.
  - exists e0. reflexivity.
Qed.

(** Every promise started by [map] settles, one outcome per promise. *)
Lemma startAll_settles {S A} (ps : list (Async S A)) :
  forall s, exists outcomes,
    fst (startAll ps s) = Ok outcomes /\ length outcomes = length ps.
Proof.
  induction ps as [|p ps IH]; intros s; simpl.
  - exists []. split; reflexivity.
  - unfold bind, settle. destruct (p s) as [r s1].
    destruct (IH s1) as [outs [E L]].
    destruct (startAll ps s1) as [[rs|e] s2]; simpl in E; [|discriminate].
    injection E as ->. exists (r :: outs). simpl. split; [reflexivity|lia].
Qed.

(** ** The memory module: what a computation leaves of the state *)

Section MemoryFacts.

Import Memory.

Variable mdl : Model.

Lemma agentCalls_issue {A} (c : ModelCall) (reply : nat -> Result A) (w : World) :
  agentCalls (snd (issue c reply w)) =
  agentCalls w + (if isAgentCall c then 1 else 0).
Proof.
  unfold agentCalls, issue. cbn [snd modelCalls].
  rewrite filter_app, length_app. simpl. destruct (isAgentCall c); reflexivity.
Qed.

Lemma creationAttempts_issue {A} (c : ModelCall) (reply : nat -> Result A)
  (w : World) :
  creationAttempts (snd (issue c reply w)) =
  creationAttempts w + (if isSummarizeCall c then 1 else 0).
Proof.
  unfold creationAttempts, issue. cbn [snd modelCalls].
  rewrite filter_app, length_app. simpl. destruct (isSummarizeCall c); reflexivity.
Qed.

Lemma keeps_ret {X A} (f : World -> X) (a : A) : keeps f (ret a).
Proof. intros w. reflexivity. Qed.

Lemma keeps_throw {X A} (f : World -> X) (e : Error) : keeps f (throw (A := A) e).
Proof. intros w. reflexivity. Qed.

Lemma keeps_reading {X A} (f : World -> X) (r : World -> Result A) :
  keeps f (reading r).
Proof. intros w. reflexivity. Qed.

Lemma keeps_bind {X A B} (f : World -> X) (m : M A) (k : A -> M B) :
  keeps f m -> (forall a, keeps f (k a)) -> keeps f (bind m k).
Proof.
  intros Hm Hk w. unfold bind. specialize (Hm w).
  destruct (m w) as [[a|err] w1]; cbn [snd] in *; [|exact Hm].
  rewrite (Hk a w1). exact Hm.
Qed.

Lemma keeps_chapters_issue {A} (c : ModelCall) (reply : nat -> Result A) :
  keeps st_chapters (issue c reply).
Proof. intros w. reflexivity. Qed.

Lemma keeps_agentCalls_issue {A} (c : ModelCall) (reply : nat -> Result A) :
  isAgentCall c = false -> keeps agentCalls (issue c reply).
Proof. intros Hc w. rewrite agentCalls_issue, Hc. lia. Qed.

Lemma keeps_attempts_issue {A} (c : ModelCall) (reply : nat -> Result A) :
  isSummarizeCall c = false -> keeps creationAttempts (issue c reply).
Proof. intros Hc w. rewrite creationAttempts_issue, Hc. lia. Qed.

Lemma keeps_requireChapter {X} (f : World -> X) (n : nat) :
  keeps f (requireChapter n).
Proof.
  intros w. unfold requireChapter. destruct (getChapter n w); reflexivity.
Qed.

Section Tools.

(** An observation that a query to the model does not change. *)
Variables (X : Type) (f : World -> X).
Hypothesis f_issue :
  forall A (c : ModelCall) (reply : nat -> Result A),
    isAgentCall c = false -> keeps f (issue c reply).

(** A tool reads the chapters and may issue a query: it leaves any such
    observation alone. *)
Lemma callTool_keeps (tc : ToolCall) : keeps f (callTool mdl tc).
Proof.
  destruct tc as [|n q|s e q|n|syn|name]; unfold callTool;
    try apply keeps_throw;
    try (destruct (inherited name); [apply keeps_ret | apply keeps_throw]);
    (apply keeps_bind; [|intros; apply keeps_ret]).
  - intros w. reflexivity.
  - unfold query_chapter. apply keeps_bind; [apply keeps_requireChapter|].
    intros ch. apply keeps_bind; [|intros; apply keeps_ret].
    apply f_issue. reflexivity.
  - intros w. unfold query_chapters.
    apply keeps_bind; [|intros; apply keeps_ret].
    apply f_issue. reflexivity.
  - unfold get_chapter_summary.
    apply keeps_bind; [apply keeps_requireChapter | intros; apply keeps_ret].
Qed.

Lemma forToolCalls_keeps (response : AgentResponse) (tcs : list ToolCall) :
  forall g : Gathering, keeps f (forToolCalls mdl response tcs g).
Proof.
  induction tcs as [|tc rest IH]; intros g; cbn [forToolCalls].
  - apply keeps_ret.
  - destruct (String.eqb (toolName tc) "finish_retrieval").
    + apply keeps_ret.
    + apply keeps_bind; [apply callTool_keeps | intros r; apply IH].
Qed.

End Tools.

(** One iteration of the loop asks the agent exactly once. *)
Lemma agentIteration_frame (g : Gathering) (w : World) :
  st_chapters (snd (agentIteration mdl g w)) = st_chapters w /\
  agentCalls (snd (agentIteration mdl g w)) = S (agentCalls w).
Proof.
  unfold agentIteration, callRetrievalAgent, bind.
  set (c := AgentCall _). set (reply := fun i : nat => _).
  pose proof (agentCalls_issue c reply w) as Hc.
  assert (Hs : st_chapters (snd (issue c reply w)) = st_chapters w) by reflexivity.
  destruct (issue c reply w) as [[response|err] w1]; cbn [snd] in *.
  - pose proof (forToolCalls_keeps _ st_chapters
                  (fun A c r _ => keeps_chapters_issue c r)
                  response (toolCalls response) g w1) as Hs'.
    pose proof (forToolCalls_keeps _ agentCalls
                  (fun A c r H => keeps_agentCalls_issue c r H)
                  response (toolCalls response) g w1) as Ha'.
    subst c. cbn [isAgentCall] in Hc. split; [congruence | lia].
  - subst c. cbn [isAgentCall] in Hc. split; [assumption | lia].
Qed.

(** The equation of the [while] loop. *)
Lemma agentLoop_unfold (cfg : MemoryConfig) (iterations : nat) (g : Gathering)
  (w : World) :
  agentLoop mdl cfg iterations g w =
  if whileGuard cfg (complete g) iterations then
    match agentIteration mdl g w with
    | (Ok g', w') => agentLoop mdl cfg (S iterations) g' w'
    | (Throw e, w') => (Throw e, w')
    end
  else (Ok (iterations, g), w).
Proof.
  funelim (agentLoop mdl cfg iterations g w); rewrite guard.
  - reflexivity.
  - match goal with E : agentIteration _ _ _ = _ |- _ => rewrite E end.
    reflexivity.
  - match goal with E : agentIteration _ _ _ = _ |- _ => rewrite E end.
    reflexivity.
Qed.

(** What the loop leaves: the chapters untouched, one agent call per
    iteration and no more iterations than the distance to the cap; when it
    ends normally, the guard of the [while] is false. *)
Lemma agentLoop_run (cfg : MemoryConfig) (k : nat) :
  forall (iterations : nat) (g : Gathering) (w : World),
    Z.to_nat (maxAgentIterations cfg) - iterations = k ->
    st_chapters (snd (agentLoop mdl cfg iterations g w)) = st_chapters w /\
    agentCalls (snd (agentLoop mdl cfg iterations g w)) <= agentCalls w + k /\
    match fst (agentLoop mdl cfg iterations g w) with
    | Ok (n, g') =>
        iterations <= n /\
        n - iterations <= k /\
        agentCalls (snd (agentLoop mdl cfg iterations g w)) =
          agentCalls w + (n - iterations) /\
        whileGuard cfg (complete g') n = false
    | Throw _ => True
    end.
Proof.
  induction k as [|k IH]; intros iterations g w Hk;
    rewrite agentLoop_unfold;
    destruct (whileGuard cfg (complete g) iterations) eqn:guard.
  - unfold whileGuard in guard. apply andb_prop in guard.
    destruct guard as [_ guard]. apply Z.ltb_lt in guard. lia.
  - cbn [fst snd]. repeat split; try lia. exact guard.
  - destruct (agentIteration_frame g w) as [Hs Ha].
    destruct (agentIteration mdl g w) as [[g'|err] w1]; cbn [fst snd] in *.
    + assert (Hk' : Z.to_nat (maxAgentIterations cfg) - S iterations = k) by lia.
      destruct (IH (S iterations) g' w1 Hk') as [Hs' [Hle Hok]].
      split; [congruence|]. split; [lia|].
      destruct (fst (agentLoop mdl cfg (S iterations) g' w1)) as [[n g'']|err];
        [|exact I].
      destruct Hok as [H1 [H2 [H3 H4]]]. repeat split; try lia. exact H4.
    + repeat split; try assumption; lia.
  - cbn [fst snd]. repeat split; try lia. exact guard.
Qed.

(** The results gathered are never taken back: the tool calls of an
    iteration only add to them. *)
Lemma forToolCalls_gathers (response : AgentResponse) (tcs : list ToolCall) :
  forall (g g' : Gathering) (w w' : World),
    forToolCalls mdl response tcs g w = (Ok g', w') ->
    exists more, gatheredContext g' = gatheredContext g ++ more.
Proof.
  induction tcs as [|tc rest IH]; intros g g' w w' H; cbn [forToolCalls] in H.
  - injection H as <- _. exists []. rewrite app_nil_r. reflexivity.
  - destruct (String.eqb (toolName tc) "finish_retrieval").
    + injection H as <- _. exists []. rewrite app_nil_r. reflexivity.
    + unfold bind in H. destruct (callTool mdl tc w) as [[r|e] w1];
        [|discriminate].
      destruct (IH _ _ _ _ H) as [more E]. cbn [gatheredContext] in E.
      exists (r :: more). rewrite E, <- app_assoc. reflexivity.
Qed.

Lemma agentLoop_gathers (cfg : MemoryConfig) (k : nat) :
  forall (iterations n : nat) (g g' : Gathering) (w w' : World),
    Z.to_nat (maxAgentIterations cfg) - iterations = k ->
    agentLoop mdl cfg iterations g w = (Ok (n, g'), w') ->
    exists more, gatheredContext g' = gatheredContext g ++ more.
Proof.
  induction k as [|k IH]; intros iterations n g g' w w' Hk H;
    rewrite agentLoop_unfold in H;
    destruct (whileGuard cfg (complete g) iterations) eqn:guard.
  - unfold whileGuard in guard. apply andb_prop in guard.
    destruct guard as [_ guard]. apply Z.ltb_lt in guard. lia.
  - injection H as _ <- _. exists []. rewrite app_nil_r. reflexivity.
  - destruct (agentIteration mdl g w) as [[g1|e] w1] eqn:E; [|discriminate].
    unfold agentIteration, bind in E.
    destruct (callRetrievalAgent mdl (messages g) w) as [[response|e] w0];
      [|discriminate].
    destruct (forToolCalls_gathers _ _ _ _ _ _ E) as [m1 E1].
    assert (Hk' : Z.to_nat (maxAgentIterations cfg) - S iterations = k) by lia.
    destruct (IH _ _ _ _ _ _ Hk' H) as [m2 E2].
    exists (m1 ++ m2). rewrite E2, E1, <- app_assoc. reflexivity.
  - injection H as _ <- _. exists []. rewrite app_nil_r. reflexivity.
Qed.

(** The tool calls listed after [finish_retrieval] are not run. *)
Lemma forToolCalls_finish (response : AgentResponse) (synthesis : string)
  (rest : list ToolCall) (g : Gathering) (w : World) :
  forToolCalls mdl response (call_finish_retrieval synthesis :: rest) g w =
  (Ok (mkGathering true (gatheredContext g) (messages g)), w).
Proof. reflexivity. Qed.

(** ** Retrieval before generation *)

(** C2.  With no committed chapter, [handleUserInput] hands the narrator a
    null context at once: it emits [ContextReady] with [null] and the log of
    model calls is as it was.  With at least one chapter it runs the
    configured retrieval and emits [ContextReady] with the context that
    retrieval returned (and rejects as the retrieval rejects). *)
Theorem empty_history_short_circuit (cfg : MemoryConfig)
  (event : UserInputEvent) (w : World) :
  (getChapters w = [] ->
   fst (handleUserInput mdl cfg event w) = Ok tt /\
   modelCalls (snd (handleUserInput mdl cfg event w)) = modelCalls w /\
   emitted (snd (handleUserInput mdl cfg event w)) =
     emitted w ++ [ContextReady None (text event)]) /\
  (getChapters w <> [] ->
   handleUserInput mdl cfg event w =
   match (if useAgentic cfg (getChapters w)
          then agenticRetrieval mdl cfg (text event) (getChapters w)
          else staticRetrieval mdl (text event) (getChapters w)) w with
   | (Ok context, w') => emit (ContextReady (Some context) (text event)) w'
   | (Throw e, w') => (Throw e, w')
   end).
Proof.
  unfold handleUserInput. split; intros H.
  - rewrite H. repeat split.
  - destruct (getChapters w) as [|c cs]; [contradiction|].
    unfold bind. reflexivity.
Qed.

(** C9.  With chapters to retrieve from, [handleUserInput] runs the static
    retrieval in mode [static], the agentic retrieval in mode [agentic], and
    in mode [auto] the agentic one exactly when there are more chapters than
    [agenticThreshold]. *)
Theorem retrieval_strategy_by_mode (cfg : MemoryConfig)
  (event : UserInputEvent) (w : World) (c : Chapter) (cs : list Chapter) :
  getChapters w = c :: cs ->
  let chapters := c :: cs in
  let static := staticRetrieval mdl (text event) chapters in
  let agentic := agenticRetrieval mdl cfg (text event) chapters in
  let chosen :=
    match mode cfg with
    | ModeStatic => static
    | ModeAgentic => agentic
    | ModeAuto =>
        if (agenticThreshold cfg <? Z.of_nat (length chapters))%Z
        then agentic else static
    end in
  (useAgentic cfg chapters = true <->
   mode cfg = ModeAgentic \/
   (mode cfg = ModeAuto /\
    (agenticThreshold cfg < Z.of_nat (length chapters))%Z)) /\
  handleUserInput mdl cfg event w =
  (context <- chosen ;; emit (ContextReady (Some context) (text event))) w.
Proof.
  intros H chapters static agentic chosen. split.
  - unfold useAgentic. destruct (mode cfg).
    + split; [discriminate | intros [E|[E _]]; discriminate].
    + split; [intros _; left; reflexivity | reflexivity].
    + rewrite Z.ltb_lt. split; [intros L; right; split; [reflexivity|exact L]|].
      intros [E|[_ L]]; [discriminate | exact L].
  - unfold handleUserInput. rewrite H. fold chapters.
    unfold chosen, useAgentic. destruct (mode cfg); reflexivity.
Qed.

(** The static retrieval, step by step. *)
Lemma staticRetrieval_steps (userInput : string) (chapters : list Chapter)
  (w : World) :
  staticRetrieval mdl userInput chapters w =
  match decideRetrieval mdl userInput chapters w with
  | (Throw e, w1) => (Throw e, w1)
  | (Ok decision, w1) =>
      match startAll (queryPromises mdl decision) w1 with
      | (Throw e, w2) => (Throw e, w2)
      | (Ok outcomes, w2) =>
          match allOk outcomes with
          | Ok results => (Ok (mkContext (map ChapterAnswer results) (now w2)), w2)
          | Throw e => (Throw e, w2)
          end
      end
  end.
Proof.
  unfold staticRetrieval, promiseAll, queryPromises, bind, lift, newDate, ret.
  destruct (decideRetrieval mdl userInput chapters w) as [[decision|e] w1];
    [|reflexivity].
  destruct (startAll _ w1) as [[outcomes|e] w2]; [|reflexivity].
  destruct (allOk outcomes); reflexivity.
Qed.

(** C4, as the listing has it.  Once the decision step has selected its
    queries and the query calls have settled, the static retrieval resolves
    only when every query resolved, then with all the results in the order of
    the decision; as soon as one query rejected, the whole retrieval rejects
    and returns no context, whatever the other queries answered. *)
Theorem static_retrieval_all_or_nothing (userInput : string)
  (chapters : list Chapter) (w : World) (decision : RetrievalDecision)
  (w1 : World) (outcomes : list (Result QueryResult)) (w2 : World) :
  decideRetrieval mdl userInput chapters w = (Ok decision, w1) ->
  startAll (queryPromises mdl decision) w1 = (Ok outcomes, w2) ->
  length outcomes = length (queries decision) /\
  (forall e, In (Throw e) outcomes ->
     exists e', staticRetrieval mdl userInput chapters w = (Throw e', w2)) /\
  (forall results, outcomes = map Ok results ->
     staticRetrieval mdl userInput chapters w =
       (Ok (mkContext (map ChapterAnswer results) (now w2)), w2)).
Proof.
  intros Hd Hq. rewrite staticRetrieval_steps, Hd, Hq.
  split; [|split].
  - destruct (startAll_settles (queryPromises mdl decision) w1) as [outs [E L]].
    rewrite Hq in E. injection E as <-.
    rewrite L. unfold queryPromises. apply length_map.
  - intros e Hin. destruct (allOk_In_Throw outcomes e Hin) as [e' ->].
    exists e'. reflexivity.
  - intros results ->. rewrite allOk_map_Ok. reflexivity.
Qed.

(** ** Range queries *)

(** The tool [query_chapters] of the listing takes every chapter of the
    index whose number lies in the range, oldest first, joins their blocks
    (each chapter's text under its number) and hands that text to
    [executeRangeQuery]; what it returns is the answer of
    [executeRangeQuery]. *)
Lemma query_chapters_hands_over_the_range (startChapter endChapter : nat)
  (q : string) (w : World) :
  let chs := getChaptersInRange startChapter endChapter w in
  let sent := combineChapters chs in
  (forall ch,
      In ch chs <->
      In ch (getChapters w) /\ startChapter <= number ch <= endChapter) /\
  (forall ch,
      In ch chs ->
      exists before after, sent = (before ++ chapterBlock ch ++ after)%string) /\
  modelCalls (snd (query_chapters mdl startChapter endChapter q w)) =
    modelCalls w ++ [RangeQueryCall sent q] /\
  fst (query_chapters mdl startChapter endChapter q w) =
    match executeRangeQuery_reply mdl (length (modelCalls w)) sent q with
    | Ok answer => Ok (mkRangeResult (startChapter, endChapter) q answer)
    | Throw e => Throw e
    end.
Proof.
  intros chs sent. split; [|split; [|split]].
  - intros ch. unfold chs, getChaptersInRange, getChapters.
    rewrite filter_In, andb_true_iff, !Nat.leb_le. reflexivity.
  - intros ch Hin. unfold sent, combineChapters.
    apply concat_holds_piece, in_map, Hin.
  - unfold query_chapters, executeRangeQuery, bind, issue. fold chs. fold sent.
    cbn [modelCalls].
    destruct (executeRangeQuery_reply mdl (length (modelCalls w)) sent q);
      reflexivity.
  - unfold query_chapters, executeRangeQuery, bind, issue. fold chs. fold sent.
    destruct (executeRangeQuery_reply mdl (length (modelCalls w)) sent q);
      reflexivity.
Qed.

(** The [for] loop over the tool calls of a response: it runs the tools
    that come before the first [finish_retrieval], in order, adds their
    results to what was gathered, and sets [complete] when the response calls
    [finish_retrieval]. *)
Lemma forToolCalls_runs (response : AgentResponse) (tcs : list ToolCall) :
  forall (g : Gathering) (w : World),
    forToolCalls mdl response tcs g w =
    match callTools mdl (beforeFinish tcs) w with
    | (Ok results, w') =>
        (Ok (mkGathering (complete g || asksToFinish tcs)
                         (gatheredContext g ++ results)
                         (messages g ++ toolMessages response results)), w')
    | (Throw e, w') => (Throw e, w')
    end.
Proof.
  induction tcs as [|tc rest IH]; intros g w.
  - cbn. rewrite orb_false_r, !app_nil_r. destruct g; reflexivity.
  - cbn [forToolCalls beforeFinish asksToFinish existsb]. unfold isFinish at 1 2.
    destruct (String.eqb (toolName tc) "finish_retrieval").
    + cbn. rewrite orb_true_r, !app_nil_r. reflexivity.
    + cbn [callTools]. unfold bind at 1 2.
      destruct (callTool mdl tc w) as [[result|e] w1]; [|reflexivity].
      rewrite IH. unfold bind.
      destruct (callTools mdl (beforeFinish rest) w1) as [[results|e] w2];
        [|reflexivity].
      cbn [ret complete gatheredContext messages orb toolMessages flat_map].
      rewrite <- !app_assoc. reflexivity.
Qed.

(** C5.  The agentic retrieval asks the agent at most [maxAgentIterations]
    times, whatever the model replies.  The loop stops at once in a state
    where [finish_retrieval] has been called and in a state at the cap, and
    otherwise runs one more iteration.  An iteration asks the agent once,
    runs the tools the response calls before its first [finish_retrieval],
    adds their results to the results gathered, and sets [complete] when the
    response calls [finish_retrieval].  When the loop ends normally it has
    run [n <= maxAgentIterations] iterations, with [finish_retrieval] called
    or [n] at the cap, and the retrieval resolves with the results gathered
    (nothing gathered is ever taken back); it rejects only when the loop
    itself rejected (a model or tool call threw). *)
Theorem agentic_retrieval_within_cap (cfg : MemoryConfig) (userInput : string)
  (chapters : list Chapter) (w : World) :
  let start :=
    mkGathering false [] [mkAgentMessage User (AgentPrompt userInput chapters)] in
  let cap := Z.to_nat (maxAgentIterations cfg) in
  agentCalls (snd (agenticRetrieval mdl cfg userInput chapters w)) <=
    agentCalls w + cap /\
  (forall n g w1,
      complete g = true -> agentLoop mdl cfg n g w1 = (Ok (n, g), w1)) /\
  (forall n g w1,
      cap <= n -> agentLoop mdl cfg n g w1 = (Ok (n, g), w1)) /\
  (forall n g w1,
      complete g = false -> n < cap ->
      agentLoop mdl cfg n g w1 =
      match agentIteration mdl g w1 with
      | (Ok g', w') => agentLoop mdl cfg (S n) g' w'
      | (Throw e, w') => (Throw e, w')
      end) /\
  (forall g w1,
      agentIteration mdl g w1 =
      match callRetrievalAgent mdl (messages g) w1 with
      | (Throw e, w2) => (Throw e, w2)
      | (Ok response, w2) =>
          match callTools mdl (beforeFinish (toolCalls response)) w2 with
          | (Throw e, w3) => (Throw e, w3)
          | (Ok results, w3) =>
              (Ok (mkGathering
                     (complete g || asksToFinish (toolCalls response))
                     (gatheredContext g ++ results)
                     (messages g ++ toolMessages response results)), w3)
          end
      end) /\
  match agentLoop mdl cfg 0 start w with
  | (Ok (n, g), w') =>
      n <= cap /\
      agentCalls w' = agentCalls w + n /\
      (complete g = true \/ n = cap) /\
      agenticRetrieval mdl cfg userInput chapters w =
        (Ok (mkContext (gatheredContext g) (now w')), w')
  | (Throw e, w') =>
      agenticRetrieval mdl cfg userInput chapters w = (Throw e, w')
  end.
Proof.
  intros start cap.
  assert (Hrun := agentLoop_run cfg cap 0 start w (Nat.sub_0_r _)).
  assert (Hout : agenticRetrieval mdl cfg userInput chapters w =
                 match agentLoop mdl cfg 0 start w with
                 | (Ok run, w') =>
                     (Ok (mkContext (gatheredContext (snd run)) (now w')), w')
                 | (Throw e, w') => (Throw e, w')
                 end).
  { unfold agenticRetrieval, bind. fold start.
    destruct (agentLoop mdl cfg 0 start w) as [[run|e] w']; reflexivity. }
  destruct Hrun as [_ [Hle Hok]].
  split; [|split; [|split; [|split; [|split]]]].
  - rewrite Hout.
    destruct (agentLoop mdl cfg 0 start w) as [[run|e] w']; exact Hle.
  - intros n g w1 Hc. rewrite agentLoop_unfold. unfold whileGuard.
    rewrite Hc. reflexivity.
  - intros n g w1 Hn. rewrite agentLoop_unfold. unfold whileGuard.
    replace (Z.of_nat n <? maxAgentIterations cfg)%Z with false.
    + rewrite andb_false_r. reflexivity.
    + symmetry. apply Z.ltb_ge. unfold cap in Hn. lia.
  - intros n g w1 Hc Hn. rewrite agentLoop_unfold. unfold whileGuard.
    rewrite Hc.
    replace (Z.of_nat n <? maxAgentIterations cfg)%Z with true;
      [reflexivity|].
    symmetry. apply Z.ltb_lt. unfold cap in Hn. lia.
  - intros g w1. unfold agentIteration, bind.
    destruct (callRetrievalAgent mdl (messages g) w1) as [[response|e] w2];
      [|reflexivity].
    apply forToolCalls_runs.
  - rewrite Hout.
    destruct (agentLoop mdl cfg 0 start w) as [[[n g] |e] w'];
      cbn [fst snd] in *; [|reflexivity].
    destruct Hok as [_ [Hn [Hcalls Hguard]]].
    rewrite Nat.sub_0_r in Hn, Hcalls.
    repeat split; try assumption.
    unfold whileGuard in Hguard. apply andb_false_iff in Hguard.
    destruct Hguard as [Hc|Hlt].
    + left. apply negb_false_iff. exact Hc.
    + right. apply Z.ltb_ge in Hlt. unfold cap in *. lia.
Qed.

(** ** Chapter creation *)

(** The commit, case by case: the index accepts the chapter and holds it
    after the chapters already there, or refuses it and nothing changes. *)
Lemma saveChapter_cases (ch : Chapter) (w : World) :
  saveChapter ch w =
  if ChapterIndex.inSequence (turnPosition (st_transcript w)) (st_chapters w) ch
  then (Ok tt,
        mkWorld (st_chapters w ++ [ch]) (st_transcript w) (modelCalls w)
                (emitted w) (now w) (nextId w))
  else (Throw OutOfSequence, w).
Proof.
  unfold saveChapter, ChapterIndex.append.
  destruct (ChapterIndex.inSequence _ _ ch); reflexivity.
Qed.

(** The commit changes the committed chapters and nothing else. *)
Lemma keeps_saveChapter {X} (f : World -> X) (ch : Chapter) :
  (forall w index,
      f (mkWorld index (st_transcript w) (modelCalls w) (emitted w) (now w)
                 (nextId w)) = f w) ->
  keeps f (saveChapter ch).
Proof.
  intros Hf w. rewrite saveChapter_cases.
  destruct (ChapterIndex.inSequence _ _ ch); [apply Hf | reflexivity].
Qed.

(** [createChapter] opens with the summarization call, and issues no other
    one: each run of it counts as one attempt, however it ends. *)
Lemma createChapter_attempt (ep : EndpointSelection) (w : World) :
  creationAttempts (snd (createChapter mdl (Some ep) w)) =
  S (creationAttempts w).
Proof.
  unfold createChapter. unfold bind at 1. unfold reading at 1.
  set (msgs := getMessagesSinceLastChapter (ep_endMessageId ep) w).
  unfold bind at 1. unfold summarizeChapter.
  pose proof (creationAttempts_issue (SummarizeCall msgs)
                (fun i => summarizeChapter_reply mdl i msgs) w) as Hc.
  cbn [isSummarizeCall] in Hc.
  destruct (issue (SummarizeCall msgs)
              (fun i => summarizeChapter_reply mdl i msgs) w)
    as [[summary|err] w1]; cbn [snd] in *; [|lia].
  match goal with
  | |- creationAttempts (snd (?rest w1)) = _ =>
      assert (K : keeps creationAttempts rest)
  end.
  { apply keeps_bind.
    { apply keeps_attempts_issue. reflexivity. }
    intros metadata. apply keeps_bind; [intros x; reflexivity|].
    intros newId. apply keeps_bind; [apply keeps_reading|].
    intros count. apply keeps_bind; [apply keeps_reading|].
    intros start. apply keeps_bind; [intros x; reflexivity|].
    intros stamp.
    apply keeps_bind; [apply keeps_saveChapter; reflexivity|].
    intros _. apply keeps_bind; [intros x; reflexivity|].
    intros _. apply keeps_ret. }
  rewrite (K w1). lia.
Qed.

(** What a successful [createChapter] has stored: one more chapter, numbered
    after the count, ending at the endpoint it was given. *)
Lemma createChapter_stores (ep : EndpointSelection) (w w' : World)
  (ch : Chapter) :
  createChapter mdl (Some ep) w = (Ok ch, w') ->
  st_chapters w' = st_chapters w ++ [ch] /\
  number ch = S (length (st_chapters w)) /\
  endMessageId ch = ep_endMessageId ep.
Proof.
  unfold createChapter, bind, reading, summarizeChapter, extractMetadata,
    issue, generateId, newDate, emit, ret, getChapters,
    getLastChapterEnd.
  cbn [fst snd st_chapters st_transcript modelCalls emitted now nextId].
  destruct (summarizeChapter_reply mdl _ _) as [summary|e]; [|discriminate].
  destruct (extractMetadata_reply mdl _ _ _) as [metadata|e]; [|discriminate].
  destruct (startOfChapter _ _) as [start|e]; [|discriminate].
  rewrite saveChapter_cases.
  cbn [fst snd st_chapters st_transcript modelCalls emitted now nextId].
  destruct (ChapterIndex.inSequence _ _ _); [|discriminate].
  intros H. injection H as <- <-.
  cbn [st_chapters number endMessageId]. rewrite Nat.add_1_r.
  repeat split.
Qed.

Lemma handler_without_signal (event : ClassificationEvent) (w : World) :
  shouldCreateChapter (chapterAnalysis event) = false ->
  handleClassificationComplete mdl event w = (Ok tt, w).
Proof.
  intros H. unfold handleClassificationComplete. rewrite H. reflexivity.
Qed.

Lemma handler_with_signal (event : ClassificationEvent) (w : World) :
  shouldCreateChapter (chapterAnalysis event) = true ->
  handleClassificationComplete mdl event w =
  match createChapter mdl (suggestedEndpoint (chapterAnalysis event)) w with
  | (Ok _, w') => (Ok tt, w')
  | (Throw e, w') => (Throw e, w')
  end.
Proof.
  intros H. unfold handleClassificationComplete. rewrite H. reflexivity.
Qed.

(** A [createChapter] that throws has stored nothing. *)
Lemma createChapter_throw (endpoint : option EndpointSelection)
  (w w' : World) (e : Error) :
  createChapter mdl endpoint w = (Throw e, w') ->
  st_chapters w' = st_chapters w.
Proof.
  destruct endpoint as [ep|]; [|intros H; injection H as _ <-; reflexivity].
  unfold createChapter, bind, reading, summarizeChapter, extractMetadata,
    issue, generateId, newDate, emit, ret, getChapters,
    getLastChapterEnd.
  cbn [fst snd st_chapters st_transcript modelCalls emitted now nextId].
  destruct (summarizeChapter_reply mdl _ _) as [summary|e1];
    [|intros H; injection H as _ <-; reflexivity].
  destruct (extractMetadata_reply mdl _ _ _) as [metadata|e2];
    [|intros H; injection H as _ <-; reflexivity].
  destruct (startOfChapter _ _) as [start|e3];
    [|intros H; injection H as _ <-; reflexivity].
  rewrite saveChapter_cases.
  cbn [fst snd st_chapters st_transcript modelCalls emitted now nextId].
  destruct (ChapterIndex.inSequence _ _ _);
    [discriminate | intros H; injection H as _ <-; reflexivity].
Qed.

(** The numbering of the listing: [number: getChapters().length + 1] keeps
    the chapters numbered 1, 2, ..., count, whatever signals arrive and
    however the creations end. *)
Lemma handleAll_numbered (events : list ClassificationEvent) :
  forall w, numbered w -> numbered (handleAll mdl events w).
Proof.
  induction events as [|event rest IH]; intros w Hw; [exact Hw|].
  cbn [handleAll]. apply IH.
  destruct (shouldCreateChapter (chapterAnalysis event)) eqn:Hflag.
  - rewrite (handler_with_signal _ _ Hflag).
    destruct (createChapter mdl (suggestedEndpoint (chapterAnalysis event)) w)
      as [[ch|e] w'] eqn:E; cbn [snd].
    + destruct (suggestedEndpoint (chapterAnalysis event)) as [ep|];
        [|discriminate].
      destruct (createChapter_stores _ _ _ _ E) as [S1 [N1 _]].
      unfold numbered in *. rewrite S1, map_app, length_app, Hw.
      cbn [map length]. rewrite N1, Nat.add_1_r, seq_S. reflexivity.
    + unfold numbered in *. rewrite (createChapter_throw _ _ _ _ E). exact Hw.
  - rewrite (handler_without_signal _ _ Hflag). exact Hw.
Qed.

(** C3, as the listing has it.  The handler takes the decision from the
    classification signal and never counts the unassigned turns: with the
    flag clear it does nothing, at any count; with the flag set, an endpoint
    supplied and at least N + X unassigned turns, it attempts the creation
    of one chapter. *)
Theorem creation_follows_the_signal (cfg : MemoryConfig)
  (event : ClassificationEvent) (w : World) :
  (shouldCreateChapter (chapterAnalysis event) = false ->
   handleClassificationComplete mdl event w = (Ok tt, w)) /\
  (shouldCreateChapter (chapterAnalysis event) = true ->
   forall ep,
     suggestedEndpoint (chapterAnalysis event) = Some ep ->
     chapterThreshold cfg + chapterBuffer cfg <= messagesSinceLastChapter w ->
     creationAttempts (snd (handleClassificationComplete mdl event w)) =
       S (creationAttempts w)).
Proof.
  split.
  - apply handler_without_signal.
  - intros Hflag ep Hep _. rewrite (handler_with_signal _ _ Hflag), Hep.
    pose proof (createChapter_attempt ep w) as Hc.
    destruct (createChapter mdl (Some ep) w) as [[ch|e] w']; exact Hc.
Qed.



End MemoryFacts.

(* ===================================================================== *)
(** ** The range query under a budget *)
(* ===================================================================== *)

Section QueryExecutorFacts.

Import Memory QueryExecutor.

Variable measure : string -> nat.
Variable budget : nat.

(** The count of the empty text is zero. *)
Hypothesis measure_empty : measure ""%string = 0.

Local Abbreviation fits := (fits measure budget).
Local Abbreviation retained := (retained measure budget).
Local Abbreviation omitted := (omitted measure budget).

(** What is left out and what is retained make up the range, in order. *)
Lemma omitted_then_retained (chs : list Chapter) :
  chs = omitted chs ++ retained chs.
Proof.
  induction chs as [|oldest newer IH]; [reflexivity|].
  cbn [QueryExecutor.omitted QueryExecutor.retained].
  destruct (fits (oldest :: newer)); [reflexivity|].
  cbn [app]. f_equal. exact IH.
Qed.

(** What is retained fits. *)
Lemma retained_fits (chs : list Chapter) :
  fits (retained chs) = true.
Proof.
  induction chs as [|oldest newer IH].
  - unfold QueryExecutor.fits. cbn. rewrite measure_empty. reflexivity.
  - cbn [QueryExecutor.retained].
    destruct (fits (oldest :: newer)) eqn:Hfits; [exact Hfits | exact IH].
Qed.

(** No chapter is left out that could have stayed: with any of the omitted
    chapters put back, together with the omitted ones after it, the text
    does not fit. *)
Lemma omitted_is_needed (chs older newer : list Chapter) :
  omitted chs = older ++ newer -> newer <> [] ->
  fits (newer ++ retained chs) = false.
Proof.
  revert older. induction chs as [|oldest rest IH]; intros older.
  - cbn [QueryExecutor.omitted]. intros Heq Hnewer.
    destruct older, newer; try discriminate. contradiction.
  - cbn [QueryExecutor.omitted QueryExecutor.retained].
    destruct (fits (oldest :: rest)) eqn:Hfits.
    + intros Heq Hnewer. destruct older, newer; try discriminate.
      contradiction.
    + intros Heq Hnewer. destruct older as [|o older'].
      * cbn [app] in Heq. subst newer. cbn [app].
        rewrite <- omitted_then_retained. exact Hfits.
      * cbn [app] in Heq. injection Heq as _ Heq.
        exact (IH older' Heq Hnewer).
Qed.

(** Chapters are left out exactly when the whole range does not fit. *)
Lemma omitted_when_over_budget (chs : list Chapter) :
  omitted chs = [] <-> (chs = [] \/ fits chs = true).
Proof.
  destruct chs as [|oldest newer]; [split; auto|].
  cbn [QueryExecutor.omitted].
  destruct (fits (oldest :: newer)) eqn:Hfits; split; auto.
  - discriminate.
  - intros [Hnil | Hfalse]; discriminate.
Qed.

(** A range that fits the budget is sent whole, and the answer is the model's
    answer. *)
Lemma range_query_within_budget (mdl : Model) (chapters : list Chapter)
  (question : string) (w : World) :
  measure (combineChapters chapters) <= budget ->
  queryRange measure budget mdl chapters question w
  = issue (RangeQueryCall (combineChapters chapters) question)
          (fun i => executeRangeQuery_reply mdl i (combineChapters chapters)
                      question) w.
Proof.
  intros Hfits. unfold queryRange, bind, ret.
  assert (Hall : retained chapters = chapters /\ omitted chapters = []).
  { destruct chapters as [|oldest newer]; [split; reflexivity|].
    cbn [QueryExecutor.retained QueryExecutor.omitted].
    unfold QueryExecutor.fits. apply Nat.leb_le in Hfits. rewrite Hfits.
    split; reflexivity. }
  destruct Hall as [-> ->]. cbn [truncationNote].
  destruct (issue _ _ w) as [[answer|e] w']; [|reflexivity].
  rewrite string_app_nil_r. reflexivity.
Qed.

(** C6.  A range whose text exceeds the budget: the chapters left out are a
    prefix of the range, the oldest ones, and there is at least one; the
    chapters retained are the rest, the most recent ones, and their text
    fits the budget; no chapter is
    left out that could have stayed; one model call is made, on the text of
    the retained chapters; and the answer is the model's answer followed by
    the note, which is not empty. *)
Theorem range_query_drops_oldest_first (mdl : Model)
  (chapters : list Chapter) (question : string) (w : World) :
  budget < measure (combineChapters chapters) ->
  let out := queryRange measure budget mdl chapters question w in
  let dropped := omitted chapters in
  let kept := retained chapters in
  chapters = dropped ++ kept /\
  dropped <> [] /\
  measure (combineChapters kept) <= budget /\
  (forall older newer,
      dropped = older ++ newer -> newer <> [] ->
      budget < measure (combineChapters (newer ++ kept))) /\
  modelCalls (snd out)
  = modelCalls w ++ [RangeQueryCall (combineChapters kept) question] /\
  truncationNote dropped <> ""%string /\
  fst out
  = match executeRangeQuery_reply mdl (length (modelCalls w))
            (combineChapters kept) question with
    | Ok answer => Ok (answer ++ truncationNote dropped)%string
    | Throw e => Throw e
    end.
Proof.
  intros Hover out dropped kept. subst out dropped kept.
  assert (Hdropped : omitted chapters <> []).
  { intros Hnone. apply omitted_when_over_budget in Hnone.
    destruct Hnone as [-> | Hfits].
    - cbn in Hover. rewrite measure_empty in Hover. lia.
    - unfold QueryExecutor.fits in Hfits. apply Nat.leb_le in Hfits. lia. }
  split; [apply omitted_then_retained|].
  split; [exact Hdropped|].
  split.
  { pose proof (retained_fits chapters) as Hfits.
    unfold QueryExecutor.fits in Hfits. apply Nat.leb_le. exact Hfits. }
  split.
  { intros older newer Heq Hnewer.
    pose proof (omitted_is_needed chapters older newer Heq Hnewer) as Hno.
    unfold QueryExecutor.fits in Hno. apply Nat.leb_gt in Hno. exact Hno. }
  split.
  { unfold queryRange, bind, issue, ret. cbn [fst snd modelCalls].
    destruct (executeRangeQuery_reply mdl _ _ _); reflexivity. }
  split.
  { destruct (omitted chapters) as [|ch rest]; [contradiction|].
    cbn [truncationNote]. unfold newline. discriminate. }
  unfold queryRange, bind, issue, ret. cbn [fst snd].
  destruct (executeRangeQuery_reply mdl _ _ _); reflexivity.
Qed.

End QueryExecutorFacts.

(* ===================================================================== *)
(** ** Model calls under retry *)
(* ===================================================================== *)

Section ModelCallFacts.

Import Memory ModelCalls.

Context {A : Type}.
Variable baseDelay : nat.

(** The state after [n] attempts of an operation. *)
Local Abbreviation after operation n w :=
  (Nat.iter n (fun w' => snd (operation w')) w).

(** The pauses before the attempts that follow the first of [n]. *)
Local Abbreviation backoff delay n :=
  (map (fun i => delay * 2 ^ i) (seq 0 (n - 1))).

Lemma backoff_next (delay n : nat) :
  delay :: map (fun i => 2 * delay * 2 ^ i) (seq 0 n)
  = map (fun i => delay * 2 ^ i) (seq 0 (S n)).
Proof.
  cbn [seq map]. f_equal; [cbn; lia|].
  rewrite <- seq_shift, map_map. apply map_ext.
  intros i. cbn [Nat.pow]. lia.
Qed.

(** The attempts of an operation, whatever it is: some number [n] of them
    were made, at least one and at most as many as allowed; all but the last
    failed with a transient failure; before each attempt after the first
    there was a pause, twice as long as the one before; and the outcome is
    that of the last attempt, with OperationFailed only when the attempts are
    used up. *)
Lemma attempts_made (operation : M A) (remaining : nat) :
  forall (delay : nat) (r : Retrying),
    0 < remaining ->
    let out := attempts operation remaining delay r in
    exists n,
      1 <= n <= remaining /\
      world (snd out) = after operation n (world r) /\
      (forall i, i < n - 1 ->
         exists e, fst (operation (after operation i (world r))) = Throw e /\
                   transient e = true) /\
      pauses (snd out) = pauses r ++ backoff delay n /\
      fst out
      = match fst (operation (after operation (n - 1) (world r))) with
        | Ok a => Answered a
        | Throw e => if transient e then OperationFailed else Surfaced e
        end /\
      (fst out = OperationFailed -> n = remaining).
Proof.
  induction remaining as [|fewer IH]; intros delay r Hpos; [lia|].
  cbn [attempts].
  destruct (operation (world r)) as [[a|e] w1] eqn:Hfirst.
  - exists 1. cbn [Nat.sub snd fst world pauses seq map]; cbn [Nat.iter nat_rect].
    rewrite Hfirst, app_nil_r. cbn [fst snd].
    repeat split; try lia; try discriminate; intros i Hi; lia.
  - destruct (transient e) eqn:Htransient.
    + destruct fewer as [|fewer'].
      * exists 1. cbn [Nat.sub snd fst world pauses seq map]; cbn [Nat.iter nat_rect].
        rewrite Hfirst, app_nil_r. cbn [fst snd]. rewrite Htransient.
        repeat split; try lia; intros i Hi; lia.
      * destruct (IH (2 * delay) (mkRetrying w1 (pauses r ++ [delay]))
                    ltac:(lia))
          as (n & Hn & Hworld & Hfailed & Hpauses & Hout & Hexhausted).
        cbn [world pauses] in *.
        assert (Hshift : forall i,
                   after operation i w1 = after operation (S i) (world r)).
        { intros i. rewrite Nat.iter_succ_r, Hfirst. reflexivity. }
        exists (S n). split; [lia|]. split; [rewrite <- Hshift; exact Hworld|].
        split.
        { intros [|i] Hi.
          - exists e. cbn [Nat.iter nat_rect]. rewrite Hfirst. auto.
          - rewrite <- Hshift. apply Hfailed. lia. }
        split.
        { rewrite Hpauses, <- app_assoc. cbn [app]. f_equal.
          replace (S n - 1) with (S (n - 1)) by lia.
          apply backoff_next. }
        split.
        { replace (S n - 1) with (S (n - 1)) by lia.
          rewrite <- Hshift. exact Hout. }
        intros Hfailed'. f_equal. apply Hexhausted. exact Hfailed'.
    + exists 1. cbn [Nat.sub snd fst world pauses seq map]; cbn [Nat.iter nat_rect].
      rewrite Hfirst, app_nil_r. cbn [fst snd]. rewrite Htransient.
      repeat split; try lia; try discriminate; intros i Hi; lia.
Qed.

(** The state after [n] attempts of a model call: the call was logged [n]
    times, and nothing else changed. *)
Lemma issued_again (call : ModelCall) (reply : nat -> Result A) (w : World)
  (n : nat) :
  after (issue call reply) n w
  = mkWorld (st_chapters w) (st_transcript w) (modelCalls w ++ repeat call n)
            (emitted w) (now w) (nextId w).
Proof.
  induction n as [|n IH].
  - cbn [Nat.iter nat_rect repeat]. rewrite app_nil_r. destruct w; reflexivity.
  - rewrite Nat.iter_succ, IH. unfold issue. cbn [snd modelCalls st_chapters
      st_transcript emitted now nextId].
    rewrite <- app_assoc. f_equal. f_equal.
    change [call] with (repeat call 1). rewrite <- repeat_app.
    f_equal. lia.
Qed.

(** C8.  A model call of the Memory Engine under retry.  The call is issued
    [n] times, at least once and at most five times; every attempt but the
    last met a transient failure; before each attempt after the first the
    operation paused, and each pause is twice the one before; the outcome is
    the model's answer, or the error of the last attempt when it is not a
    transient one, or OperationFailed, and that only after five attempts,
    each of which met a transient failure.  Chapters, transcript and events
    are as they were. *)
Theorem model_call_is_retried (call : ModelCall) (reply : nat -> Result A)
  (w : World) :
  let out := withRetry baseDelay (issue call reply) w in
  let first := length (modelCalls w) in
  exists n,
    1 <= n <= 5 /\
    modelCalls (world (snd out)) = modelCalls w ++ repeat call n /\
    (forall i, i < n - 1 ->
       exists e, reply (first + i) = Throw e /\ transient e = true) /\
    pauses (snd out) = map (fun i => baseDelay * 2 ^ i) (seq 0 (n - 1)) /\
    fst out
    = match reply (first + (n - 1)) with
      | Ok a => Answered a
      | Throw e => if transient e then OperationFailed else Surfaced e
      end /\
    (fst out = OperationFailed <->
     n = 5 /\
     forall i, i < 5 ->
       exists e, reply (first + i) = Throw e /\ transient e = true) /\
    st_chapters (world (snd out)) = st_chapters w /\
    st_transcript (world (snd out)) = st_transcript w /\
    emitted (world (snd out)) = emitted w.
Proof.
  intros out first. subst out first. unfold withRetry, maxAttempts.
  destruct (attempts_made (issue call reply) 5 baseDelay (mkRetrying w [])
              ltac:(lia))
    as (n & Hn & Hworld & Hfailed & Hpauses & Hout & Hexhausted).
  cbn [world pauses app] in *.
  assert (Hreply : forall i,
             fst (issue call reply
                    (Nat.iter i (fun w' => snd (issue call reply w')) w))
             = reply (length (modelCalls w) + i)).
  { intros i. rewrite issued_again. unfold issue. cbn [fst modelCalls].
    rewrite length_app, repeat_length. reflexivity. }
  rewrite issued_again in Hworld. rewrite Hreply in Hout.
  exists n. split; [exact Hn|].
  split; [rewrite Hworld; reflexivity|].
  split; [intros i Hi; rewrite <- Hreply; exact (Hfailed i Hi)|].
  split; [exact Hpauses|].
  split; [exact Hout|].
  split; [|rewrite Hworld; repeat split; reflexivity].
  split.
  - intros Hfailed'. pose proof (Hexhausted Hfailed') as ->.
    split; [reflexivity|]. intros i Hi.
    destruct (Nat.eq_dec i 4) as [-> | Hne].
    + rewrite Hfailed' in Hout. cbn [Nat.sub] in Hout.
      destruct (reply (length (modelCalls w) + 4)) as [a|e];
        [discriminate|].
      exists e. split; [reflexivity|].
      destruct (transient e); [reflexivity | discriminate].
    + rewrite <- Hreply. apply Hfailed. lia.
  - intros [-> Hall]. rewrite Hout. cbn [Nat.sub].
    destruct (Hall 4 ltac:(lia)) as [e [-> ->]]. reflexivity.
Qed.

End ModelCallFacts.

(** ** The LLM call helper *)

Section CallLLMFacts.

Import BaseAIService.

Context {T : Type}.
Variables (svc : Service) (options : CallLLMOptions T).

Local Ltac settle :=
  match goal with |- context [settled ?returned] => destruct (settled returned) end.

(** [callLLM] with a logger that was made and returns, case by case: the
    request could not be built, the provider rejected it, the parser threw,
    or the parser returned a value; what is returned settles the promise. *)
Lemma callLLM_cases (logger : Logger) (t : Trace) :
  createLogger svc (logPrefix options) = Ok logger ->
  (forall line, logger line = Ok tt) ->
  let sending := (logPrefix options, "Sending request...") in
  let received := (logPrefix options, "Response received") in
  let failed := (logPrefix options, "Request failed") in
  callLLM svc options t =
  match requestOf svc options with
  | Throw _ =>
      (settled (fallbackResult options),
       mkTrace (requests t) (logged t ++ [sending] ++ [failed]))
  | Ok request =>
      match generateResponse svc (length (requests t)) request with
      | Throw _ =>
          (settled (fallbackResult options),
           mkTrace (requests t ++ [request])
                   (logged t ++ [sending] ++ [failed]))
      | Ok response =>
          match parseResponse options (response_content response) with
          | Ok v =>
              (settled v,
               mkTrace (requests t ++ [request])
                       (logged t ++ [sending] ++ [received]))
          | Throw _ =>
              (settled (fallbackResult options),
               mkTrace (requests t ++ [request])
                       ((logged t ++ [sending] ++ [received]) ++ [failed]))
          end
      end
  end.
Proof.
  intros Hmade Hreturns sending received failed.
  unfold callLLM, tryCatch, attempt, bind, lift, say, send, ret.
  rewrite Hmade, !Hreturns. cbn [requests logged].
  destruct (requestOf svc options) as [request|e].
  - destruct (generateResponse svc (length (requests t)) request)
      as [response|e]; cbn [requests logged].
    + destruct (parseResponse options (response_content response)) as [v|e];
        cbn [requests logged]; rewrite <- ?app_assoc;
        settle; reflexivity.
    + rewrite <- app_assoc. settle; reflexivity.
  - cbn [requests logged]. rewrite <- app_assoc.
    settle; reflexivity.
Qed.


(** C10, as [callLLM] has it.  With a logger that was made and returns, and
    with a parser and a fallback that hand back plain values or promises that
    fulfil, [callLLM] resolves: with the parsed answer when the request was
    built, the provider answered and the parser returned, and with
    [fallbackResult] in every other case (a getter, the provider or the
    parser threw).  What the parser returns is not awaited inside the [try]:
    when it is a promise that rejects, [callLLM] rejects with that error, and
    the [catch] block is not entered. *)
Theorem callLLM_resolves_when_values_settle (logger : Logger) (t : Trace) :
  createLogger svc (logPrefix options) = Ok logger ->
  (forall line, logger line = Ok tt) ->
  ((forall content v,
       parseResponse options content = Ok v -> isOk (settled v) = true) ->
   isOk (settled (fallbackResult options)) = true ->
   isOk (fst (callLLM svc options t)) = true) /\
  fst (callLLM svc options t) =
  match requestOf svc options with
  | Throw _ => settled (fallbackResult options)
  | Ok request =>
      match generateResponse svc (length (requests t)) request with
      | Throw _ => settled (fallbackResult options)
      | Ok response =>
          match parseResponse options (response_content response) with
          | Ok v => settled v
          | Throw _ => settled (fallbackResult options)
          end
      end
  end /\
  (forall request response e,
      requestOf svc options = Ok request ->
      generateResponse svc (length (requests t)) request = Ok response ->
      parseResponse options (response_content response)
      = Ok (Promised (Throw e)) ->
      callLLM svc options t
      = (Throw e,
         mkTrace (requests t ++ [request])
                 (logged t ++ [(logPrefix options, "Sending request...");
                               (logPrefix options, "Response received")]))).
Proof.
  intros Hmade Hreturns.
  rewrite (callLLM_cases logger t Hmade Hreturns).
  split; [|split].
  - intros Hparser Hfallback.
    destruct (requestOf svc options) as [request|e]; [|exact Hfallback].
    destruct (generateResponse svc (length (requests t)) request)
      as [response|e]; [|exact Hfallback].
    destruct (parseResponse options (response_content response)) as [v|e]
      eqn:Hparsed; [|exact Hfallback].
    exact (Hparser _ _ Hparsed).
  - destruct (requestOf svc options) as [request|e]; [|reflexivity].
    destruct (generateResponse svc (length (requests t)) request)
      as [response|e]; [|reflexivity].
    destruct (parseResponse options (response_content response));
      reflexivity.
  - intros request response e -> -> ->. reflexivity.
Qed.

End CallLLMFacts.

(** ** Runs on the sample stories *)

Section Runs.

Import Memory Samples.

(** The Chapter Index on a run of appends: chapters 1 and 2 are accepted, a
    chapter numbered 4 and a chapter 3 that leaves a gap are refused, the
    chapter 3 that follows turn 20 is accepted. *)
Example chapter_index_run :
  map number
      (ChapterIndex.appendAll position
         [chapterOf 1 1 10; chapterOf 2 11 20; chapterOf 4 21 30;
          chapterOf 3 25 30; chapterOf 3 21 30] []) = [1; 2; 3] /\
  ChapterIndex.append position (chapterOf 4 21 30)
                      [chapterOf 1 1 10; chapterOf 2 11 20] =
    (Throw OutOfSequence, [chapterOf 1 1 10; chapterOf 2 11 20]) /\
  ChapterIndex.append position (chapterOf 3 20 30)
                      [chapterOf 1 1 10; chapterOf 2 11 20] =
    (Throw OutOfSequence, [chapterOf 1 1 10; chapterOf 2 11 20]).
Proof. vm_compute. repeat split. Qed.

(** The theorem on the Chapter Index, on that run. *)
Lemma chapter_index_contiguity_witness :
  position (messageId 11) = S (position (messageId 10)) /\
  ChapterIndex.append position (chapterOf 4 21 30)
    (ChapterIndex.appendAll position
       [chapterOf 1 1 10; chapterOf 2 11 20] []) =
  (Throw OutOfSequence,
   ChapterIndex.appendAll position [chapterOf 1 1 10; chapterOf 2 11 20] []).
Proof.
  destruct (chapter_index_contiguity position
              [chapterOf 1 1 10; chapterOf 2 11 20]) as [_ [Hadj [_ Happ]]].
  split.
  - exact (Hadj 0 (chapterOf 1 1 10) (chapterOf 2 11 20) eq_refl eq_refl).
  - rewrite (Happ (chapterOf 4 21 30)). reflexivity.
Defined.

(** An empty story: no retrieval, a null context, no model call. *)
Lemma empty_history_short_circuit_witness :
  (fst (handleUserInput model config (mkUserInput "look around") freshStory) =
     Ok tt /\
   modelCalls (snd (handleUserInput model config (mkUserInput "look around")
                      freshStory)) = [] /\
   emitted (snd (handleUserInput model config (mkUserInput "look around")
                   freshStory)) = [ContextReady None "look around"]) /\
  emitted (snd (handleUserInput finishingModel
                  (mkConfig ModeAgentic 5 3 3 30 50 10)
                  (mkUserInput "look around") fiveChapterStory)) =
    [ContextReady
       (Some (mkContext
                [ChapterAnswer (mkQueryResult 1 "who?" "answer from chapter 1")]
                0))
       "look around"].
Proof.
  split.
  - exact (proj1 (empty_history_short_circuit model config
                    (mkUserInput "look around") freshStory) eq_refl).
  - rewrite (proj2 (empty_history_short_circuit finishingModel
                      (mkConfig ModeAgentic 5 3 3 30 50 10)
                      (mkUserInput "look around") fiveChapterStory)).
    + vm_compute. reflexivity.
    + discriminate.
Defined.

(** Five chapters in auto mode with a threshold of 30: the static retrieval. *)
Lemma retrieval_strategy_by_mode_witness :
  handleUserInput model config (mkUserInput "look around") fiveChapterStory =
  (context <- staticRetrieval model "look around" fiveChapters ;;
   emit (ContextReady (Some context) "look around")) fiveChapterStory.
Proof.
  exact (proj2 (retrieval_strategy_by_mode model config
                  (mkUserInput "look around") fiveChapterStory
                  (chapterOf 1 1 10)
                  [chapterOf 2 11 20; chapterOf 3 21 30;
                   chapterOf 4 31 40; chapterOf 5 41 50]
                  eq_refl)).
Defined.

(** An agent that never finishes is asked [maxAgentIterations] = 3 times, and
    the retrieval resolves with the three answers gathered. *)
Example agentic_run_reaches_cap :
  fst (agenticRetrieval model config "look around" fiveChapters
         fiveChapterStory) =
    Ok (mkContext
          [ChapterAnswer (mkQueryResult 1 "who?" "answer from chapter 1");
           ChapterAnswer (mkQueryResult 1 "who?" "answer from chapter 1");
           ChapterAnswer (mkQueryResult 1 "who?" "answer from chapter 1")]
          0) /\
  agentCalls (snd (agenticRetrieval model config "look around" fiveChapters
                     fiveChapterStory)) = 3.
Proof. vm_compute. split; reflexivity. Qed.

(** An agent that finishes on its second turn is asked twice; the call it
    lists after [finish_retrieval] is not run. *)
Example agentic_run_finishes :
  fst (agenticRetrieval finishingModel config "look around" fiveChapters
         fiveChapterStory) =
    Ok (mkContext
          [ChapterAnswer (mkQueryResult 1 "who?" "answer from chapter 1")] 0) /\
  agentCalls (snd (agenticRetrieval finishingModel config "look around"
                     fiveChapters fiveChapterStory)) = 2.
Proof. vm_compute. split; reflexivity. Qed.

(** The theorem on the agentic retrieval, on both agents.  The agent that
    finishes on its second turn: the loop ends after two of the three
    iterations allowed, with the one answer gathered before the finish call.
    The agent that never finishes: the loop ends at the cap, with the three
    answers gathered, and the retrieval resolves with them. *)
Lemma agentic_retrieval_within_cap_witness :
  (exists g w',
      agentLoop finishingModel config 0
        (mkGathering false []
           [mkAgentMessage User (AgentPrompt "look around" fiveChapters)])
        fiveChapterStory = (Ok (2, g), w') /\
      complete g = true /\
      agentCalls w' = 2 /\
      agenticRetrieval finishingModel config "look around" fiveChapters
        fiveChapterStory
      = (Ok (mkContext
               [ChapterAnswer (mkQueryResult 1 "who?" "answer from chapter 1")]
               0), w')) /\
  (exists g w',
      agentLoop model config 0
        (mkGathering false []
           [mkAgentMessage User (AgentPrompt "look around" fiveChapters)])
        fiveChapterStory = (Ok (3, g), w') /\
      complete g = false /\
      agentCalls w' = 3 /\
      agenticRetrieval model config "look around" fiveChapters fiveChapterStory
      = (Ok (mkContext
               [ChapterAnswer (mkQueryResult 1 "who?" "answer from chapter 1");
                ChapterAnswer (mkQueryResult 1 "who?" "answer from chapter 1");
                ChapterAnswer (mkQueryResult 1 "who?" "answer from chapter 1")]
               0), w')) /\
  agentLoop model config 3 (mkGathering false [] []) fiveChapterStory =
    (Ok (3, mkGathering false [] []), fiveChapterStory).
Proof.
  split; [|split].
  - destruct (agentic_retrieval_within_cap finishingModel config "look around"
                fiveChapters fiveChapterStory)
      as (_ & _ & _ & _ & _ & Hends).
    destruct (agentLoop finishingModel config 0 _ fiveChapterStory)
      as [[[n g]|e] w'] eqn:Hloop.
    + destruct Hends as (_ & Hcalls & _ & Hout).
      vm_compute in Hloop. injection Hloop as <- <- <-.
      eexists _, _. split; [reflexivity|]. split; [reflexivity|].
      split; [exact Hcalls | exact Hout].
    + exfalso. vm_compute in Hloop. discriminate.
  - destruct (agentic_retrieval_within_cap model config "look around"
                fiveChapters fiveChapterStory)
      as (_ & _ & _ & _ & _ & Hends).
    destruct (agentLoop model config 0 _ fiveChapterStory)
      as [[[n g]|e] w'] eqn:Hloop.
    + destruct Hends as (_ & Hcalls & _ & Hout).
      vm_compute in Hloop. injection Hloop as <- <- <-.
      eexists _, _. split; [reflexivity|]. split; [reflexivity|].
      split; [exact Hcalls | exact Hout].
    + exfalso. vm_compute in Hloop. discriminate.
  - apply (agentic_retrieval_within_cap model config "look around"
             fiveChapters fiveChapterStory). vm_compute. lia.
Defined.

(** *** Static retrieval with one query failing *)

(** The decision selects chapters 1, 2 and 3; the query on chapter 2 times
    out and the other two are answered.  The specification asks for a context with
    the two answers: the retrieval rejects with the time-out instead, and
    [handleUserInput] emits no [ContextReady] at all. *)
Lemma one_failed_query_voids_static_retrieval :
  let decided := snd (decideRetrieval model "look around" fiveChapters
                        fiveChapterStory) in
  fst (decideRetrieval model "look around" fiveChapters fiveChapterStory) =
    Ok (mkDecision [mkQuery 1 "who?"; mkQuery 2 "where?"; mkQuery 3 "why?"]) /\
  fst (startAll
         (queryPromises model
            (mkDecision [mkQuery 1 "who?"; mkQuery 2 "where?"; mkQuery 3 "why?"]))
         decided) =
    Ok [Ok (mkQueryResult 1 "who?" "answer from chapter 1");
        Throw (ModelFailure "timeout");
        Ok (mkQueryResult 3 "why?" "answer from chapter 3")] /\
  fst (staticRetrieval model "look around" fiveChapters fiveChapterStory) =
    Throw (ModelFailure "timeout") /\
  fst (handleUserInput model staticConfig (mkUserInput "look around")
         fiveChapterStory) = Throw (ModelFailure "timeout") /\
  emitted (snd (handleUserInput model staticConfig (mkUserInput "look around")
                  fiveChapterStory)) = [].
Proof. vm_compute. repeat split. Qed.

(** The theorem on the static retrieval, on that run. *)
Lemma static_retrieval_all_or_nothing_witness :
  exists e' w2,
    staticRetrieval model "look around" fiveChapters fiveChapterStory =
    (Throw e', w2).
Proof.
  pose (decision :=
          mkDecision [mkQuery 1 "who?"; mkQuery 2 "where?"; mkQuery 3 "why?"]).
  pose (w1 := snd (decideRetrieval model "look around" fiveChapters
                     fiveChapterStory)).
  pose (w2 := snd (startAll (queryPromises model decision) w1)).
  destruct (static_retrieval_all_or_nothing model "look around" fiveChapters
              fiveChapterStory decision w1
              [Ok (mkQueryResult 1 "who?" "answer from chapter 1");
               Throw (ModelFailure "timeout");
               Ok (mkQueryResult 3 "why?" "answer from chapter 3")]
              w2)
    as [_ [Hfail _]].
  - vm_compute. reflexivity.
  - vm_compute. reflexivity.
  - destruct (Hfail (ModelFailure "timeout")) as [e' He'].
    + right. left. reflexivity.
    + exists e', w2. exact He'.
Defined.

(** *** A range query over chapters 2 to 5 *)

(** The tool of the listing on the range 2 to 5: the text handed to
    [executeRangeQuery] is the four blocks, 106 characters. *)
Example query_chapters_run :
  let out := query_chapters model 2 5 "how did we get here?" fiveChapterStory in
  modelCalls (snd out) =
    [RangeQueryCall
       (combineChapters [chapterOf 2 11 20; chapterOf 3 21 30;
                         chapterOf 4 31 40; chapterOf 5 41 50])
       "how did we get here?"] /\
  String.length
    (combineChapters [chapterOf 2 11 20; chapterOf 3 21 30;
                      chapterOf 4 31 40; chapterOf 5 41 50]) = 106 /\
  fst out =
    Ok (mkRangeResult (2, 5) "how did we get here?" "answer over the range").
Proof. vm_compute. repeat split. Qed.

(** *** Chapters as the listing creates them *)

(** Two boundaries served on a story of six turns.  The listing commits
    chapter 1 over the turns 1 to 3.  For the second boundary it builds a
    chapter 2 that starts at [getLastChapterEnd()], which is the turn chapter 1
    ended at and not the turn after it: the Chapter Index refuses that
    chapter, and would take one that starts at turn 4. *)
Example chapters_as_created :
  let w1 := handleAll model [boundaryAt 3] (story [] (turns 6)) in
  let out := createChapter model (Some (mkEndpoint "msg_5" "a scene ends" "Dusk"))
               w1 in
  map number (st_chapters w1) = [1] /\
  map startMessageId (st_chapters w1) = ["msg_1"]%string /\
  map endMessageId (st_chapters w1) = ["msg_3"]%string /\
  startOfChapter (getLastChapterEnd w1)
    (getMessagesSinceLastChapter "msg_5" w1) = Ok "msg_3"%string /\
  fst out = Throw OutOfSequence /\
  st_chapters (snd out) = st_chapters w1 /\
  ChapterIndex.inSequence position (st_chapters w1) (chapterOf 2 3 5) = false /\
  ChapterIndex.inSequence position (st_chapters w1) (chapterOf 2 4 5) = true.
Proof. vm_compute. repeat split. Qed.

(** *** Classification signals *)

(** Sixty unassigned turns with N = 50 and X = 10, and a signal whose flag
    is clear: the specification asks for an attempt, the handler does nothing.
    Three unassigned turns and a signal whose flag is set: it forbids an
    attempt, the handler makes one (and a chapter is stored). *)
Lemma threshold_does_not_trigger_creation :
  messagesSinceLastChapter longStory = 60 /\
  chapterThreshold config + chapterBuffer config = 60 /\
  handleClassificationComplete model noBoundary longStory = (Ok tt, longStory) /\
  creationAttempts longStory = 0 /\
  messagesSinceLastChapter (story [] (turns 3)) = 3 /\
  creationAttempts
    (snd (handleClassificationComplete model (boundaryAt 2)
            (story [] (turns 3)))) = 1 /\
  map number
    (st_chapters
       (snd (handleClassificationComplete model (boundaryAt 2)
               (story [] (turns 3))))) = [1].
Proof. vm_compute. repeat split. Qed.

(** The theorem on the handler's trigger, on the sixty-turn story. *)
Lemma creation_follows_the_signal_witness :
  handleClassificationComplete model noBoundary longStory = (Ok tt, longStory) /\
  creationAttempts
    (snd (handleClassificationComplete model (boundaryAt 50) longStory)) = 1.
Proof.
  split.
  - exact (proj1 (creation_follows_the_signal model config noBoundary longStory)
             eq_refl).
  - apply (proj2 (creation_follows_the_signal model config (boundaryAt 50)
                    longStory) eq_refl
             (mkEndpoint (messageId 50) "a scene ends" "Dawn") eq_refl).
    vm_compute. lia.
Defined.



End Runs.

(* ===================================================================== *)
(** ** Runs of the range query and of the retry *)
(* ===================================================================== *)

Section QueryRuns.

Import Memory Samples QueryExecutor ModelCalls.

(** The range 2 to 5 of the five-chapter story under a budget of 60
    characters.  A chapter's block is 25 characters long, two blocks with the
    blank line between them are 52, three are 79: the budget fits two
    chapters.  Chapters 2 and 3 are left out, the model is asked about
    chapters 4 and 5, and the answer carries the note. *)
Lemma range_query_drops_oldest_first_witness :
  let range := getChaptersInRange 2 5 fiveChapterStory in
  let out :=
    queryRange String.length 60 model range "how did we get here?"
               fiveChapterStory in
  range = [chapterOf 2 11 20; chapterOf 3 21 30;
           chapterOf 4 31 40; chapterOf 5 41 50] /\
  String.length (combineChapters [chapterOf 4 31 40; chapterOf 5 41 50]) = 52 /\
  String.length
    (combineChapters [chapterOf 3 21 30; chapterOf 4 31 40;
                      chapterOf 5 41 50]) = 79 /\
  omitted String.length 60 range = [chapterOf 2 11 20; chapterOf 3 21 30] /\
  retained String.length 60 range = [chapterOf 4 31 40; chapterOf 5 41 50] /\
  modelCalls (snd out)
  = [RangeQueryCall
       (combineChapters [chapterOf 4 31 40; chapterOf 5 41 50])
       "how did we get here?"] /\
  fst out
  = Ok ("answer over the range" ++ newline ++
        "[Truncated: chapters 2, 3 were left out.]")%string.
Proof.
  intros range out.
  assert (Hover : 60 < String.length (combineChapters range))
    by (apply Nat.ltb_lt; reflexivity).
  destruct (range_query_drops_oldest_first String.length 60 eq_refl model
              range "how did we get here?" fiveChapterStory Hover)
    as (_ & _ & _ & _ & Hcalls & _ & Hout).
  split; [reflexivity|]. split; [reflexivity|]. split; [reflexivity|].
  split; [reflexivity|]. split; [reflexivity|].
  split; [exact Hcalls | exact Hout].
Defined.

(** The same range under a budget of 200 characters: nothing is left out,
    and the answer is the model's answer. *)
Example range_query_within_budget_run :
  queryRange String.length 200 model (getChaptersInRange 2 5 fiveChapterStory)
             "how did we get here?" fiveChapterStory
  = executeRangeQuery model
      (combineChapters (getChaptersInRange 2 5 fiveChapterStory))
      "how did we get here?" fiveChapterStory.
Proof. reflexivity. Qed.

(** A summarization under retry, with a first pause of 100 milliseconds.  A model
    that is rate-limited twice is asked three times, after pauses of 100 and
    200 milliseconds.  A model that is down is asked five times, with pauses of
    100, 200, 400 and 800 milliseconds, and the operation fails.  A model call
    that meets another error is not repeated. *)
Example retried_model_calls :
  let call := SummarizeCall (turns 2) in
  let rateLimitedTwice (i : nat) : Result string :=
    if i <? 2 then Throw (ModelFailure "429 rate limited")
    else Ok "what happened"%string in
  let down (i : nat) : Result string := Throw (ModelFailure "timeout") in
  let broken (i : nat) : Result string := Throw (TypeError "fetch") in
  withRetry 100 (issue call rateLimitedTwice) freshStory
  = (Answered "what happened"%string,
     mkRetrying (mkWorld [] (turns 4) [call; call; call] [] 0 1)
                [100; 200]) /\
  withRetry 100 (issue call down) freshStory
  = (OperationFailed,
     mkRetrying (mkWorld [] (turns 4) [call; call; call; call; call] [] 0 1)
                [100; 200; 400; 800]) /\
  withRetry 100 (issue call broken) freshStory
  = (Surfaced (TypeError "fetch"),
     mkRetrying (mkWorld [] (turns 4) [call] [] 0 1) []).
Proof. vm_compute. repeat split. Qed.

(** The model calls of the module are calls of that kind: the retried
    summarization is [summarizeChapter] under retry. *)
Example summarization_under_retry :
  withRetry 100 (summarizeChapter model (turns 2)) freshStory
  = (Answered "what happened"%string,
     mkRetrying (mkWorld [] (turns 4) [SummarizeCall (turns 2)] [] 0 1) []).
Proof. vm_compute. reflexivity. Qed.

End QueryRuns.

(** ** Runs of the call helper *)

Section CallRuns.

Import BaseAIService CallSamples.

(** The request [callLLM] builds from the sample options. *)
Example sample_request :
  requestOf flakyService options =
  Ok (mkRequest "some-model"
        [mkChat System "You suggest."; mkChat User "What next?"]
        700 1024 None None).
Proof. reflexivity. Qed.

(** A provider that is rate-limited once and would answer the next request:
    one call of [callLLM] sends one request and resolves with
    [fallbackResult]; a second call of [callLLM] reaches the provider
    again. *)
Example rate_limited_call :
  let first := callLLM flakyService options idle in
  fst first = Ok "no suggestion"%string /\
  length (requests (snd first)) = 1 /\
  logged (snd first) =
    [("Suggestions", "Sending request..."); ("Suggestions", "Request failed")]%string /\
  fst (callLLM flakyService options (snd first)) =
    Ok "three suggestions"%string.
Proof. vm_compute. repeat split. Qed.

(** [callLLM] with a provider that answers, with a parser that throws on the
    answer, and with a preset lookup that throws. *)
Example callLLM_runs :
  fst (callLLM steadyService options idle) = Ok "three suggestions"%string /\
  fst (callLLM (serviceWith (fun _ _ => Ok (mkResponse ""))) options idle)
  = Ok "no suggestion"%string /\
  callLLM
    (mkService None (Throw (TypeError "no such preset")) false
       (fun _ => Ok None) (fun _ => Ok quiet)
       (fun _ _ => Ok (mkResponse "three suggestions")))
    options idle
  = (Ok "no suggestion"%string,
     mkTrace [] [("Suggestions", "Sending request...");
                 ("Suggestions", "Request failed")]%string).
Proof. vm_compute. repeat split. Qed.

(** C10 as stated fails.  The provider answers, and the parser is an
    [async] function whose promise rejects on the answer: the [try] block has
    returned by then, the [catch] block is not entered (no line
    'Request failed'), and the promise of [callLLM] rejects.  So does it when
    [createLogger], called before the [try], throws: no request is sent. *)
Lemma callLLM_rejects_past_the_catch :
  callLLM steadyService asyncOptions idle
  = (Throw (TypeError "not a JSON object"),
     mkTrace [mkRequest "some-model"
                [mkChat System "You suggest."; mkChat User "What next?"]
                700 1024 None None]
             [("Suggestions", "Sending request...");
              ("Suggestions", "Response received")]%string) /\
  callLLM
    (mkService None (Ok preset) false (fun _ => Ok None)
       (fun _ => Throw (TypeError "createLogger"))
       (fun _ _ => Ok (mkResponse "three suggestions")))
    options idle
  = (Throw (TypeError "createLogger"), idle) /\
  ~ (forall (svc : Service) (opts : CallLLMOptions string) (t : Trace),
        isOk (fst (callLLM svc opts t)) = true).
Proof.
  split; [reflexivity|]. split; [reflexivity|].
  intros Hresolves.
  specialize (Hresolves steadyService asyncOptions idle).
  vm_compute in Hresolves. discriminate.
Qed.

(** The theorem on the runs above: the rate-limited call resolves with the
    fallback, and the call with the [async] parser rejects. *)
Lemma callLLM_resolves_when_values_settle_witness :
  isOk (fst (callLLM flakyService options idle)) = true /\
  fst (callLLM flakyService options idle) = Ok "no suggestion"%string /\
  fst (callLLM steadyService asyncOptions idle)
  = Throw (TypeError "not a JSON object").
Proof.
  destruct (callLLM_resolves_when_values_settle flakyService options quiet
              idle eq_refl (fun _ => eq_refl)) as [Hresolves [Hvalue _]].
  destruct (callLLM_resolves_when_values_settle steadyService asyncOptions
              quiet idle eq_refl (fun _ => eq_refl)) as [_ [_ Hrejects]].
  split; [|split].
  - apply Hresolves; [|reflexivity].
    intros content v. destruct content; simpl; intros Hparsed;
      [discriminate | injection Hparsed as <-; reflexivity].
  - rewrite Hvalue. reflexivity.
  - rewrite (Hrejects _ _ _ eq_refl eq_refl eq_refl). reflexivity.
Defined.

End CallRuns.

(* ===================================================================== *)
(** * Further properties of the memory module *)
(* ===================================================================== *)

Section MemoryLookups.

Import Memory.

(** In a numbered index the lookup by number finds the very chapter that
    carries the number. *)
Lemma find_numbered (l : list Chapter) :
  forall k ch,
    map number l = seq k (length l) ->
    In ch l ->
    find (fun c => number c =? number ch) l = Some ch.
Proof.
  induction l as [|a l IH]; intros k ch Hn Hin; [destruct Hin|].
  cbn [map length seq] in Hn. injection Hn as Ha Hl.
  cbn [find]. destruct Hin as [->|Hin].
  - rewrite Nat.eqb_refl. reflexivity.
  - assert (Hk : S k <= number ch).
    { assert (Hm : In (number ch) (map number l)) by (apply in_map; exact Hin).
      rewrite Hl in Hm. apply in_seq in Hm. lia. }
    replace (number a =? number ch) with false
      by (symmetry; apply Nat.eqb_neq; lia).
    exact (IH (S k) ch Hl Hin).
Qed.

Lemma getChapter_numbered (w : World) (ch : Chapter) :
  numbered w -> In ch (st_chapters w) -> getChapter (number ch) w = Some ch.
Proof. intros Hn Hin. exact (find_numbered _ 1 ch Hn Hin). Qed.

Lemma numbered_bound (w : World) (ch : Chapter) :
  numbered w -> In ch (st_chapters w) ->
  1 <= number ch <= length (st_chapters w).
Proof.
  intros Hn Hin.
  assert (Hm : In (number ch) (map number (st_chapters w)))
    by (apply in_map; exact Hin).
  rewrite Hn in Hm. apply in_seq in Hm. lia.
Qed.

(** X1.  Listing and looking up agree.  In an index numbered 1..count, every
    chapter that [list_chapters] lists is found again under its number: the
    listing changes nothing and calls no model, [get_chapter_summary] of a
    listed number returns the summary, characters, locations and plot
    threads of that same chapter (again without a model call), and
    [query_chapter] of a listed number puts its one question to that same
    chapter. *)
Theorem listed_chapters_are_found (mdl : Model) (w : World) (ch : Chapter)
  (q : string) :
  numbered w ->
  In ch (getChapters w) ->
  list_chapters w = (Ok (map previewOf (getChapters w)), w) /\
  In (previewOf ch) (map previewOf (getChapters w)) /\
  get_chapter_summary (pv_number (previewOf ch)) w =
    (Ok (mkChapterSummary (number ch) (summary ch) (characters ch)
           (locations ch) (plotThreads ch)), w) /\
  modelCalls (snd (query_chapter mdl (pv_number (previewOf ch)) q w)) =
    modelCalls w ++ [QueryCall ch q] /\
  fst (query_chapter mdl (pv_number (previewOf ch)) q w) =
    match executeQuery_reply mdl (length (modelCalls w)) ch q with
    | Ok answer => Ok (mkQueryResult (number ch) q answer)
    | Throw e => Throw e
    end.
Proof.
  intros Hn Hin. cbn [previewOf pv_number].
  split; [reflexivity|]. split; [apply in_map; exact Hin|].
  unfold get_chapter_summary, query_chapter, requireChapter, bind, ret,
    executeQuery, issue.
  rewrite (getChapter_numbered _ _ Hn Hin). cbn [fst snd modelCalls].
  split; [reflexivity|].
  destruct (executeQuery_reply mdl (length (modelCalls w)) ch q);
    split; reflexivity.
Qed.

(** X2.  A chapter number that is not in the index: [query_chapter] and
    [get_chapter_summary] both reject with "Chapter n not found", no model
    call is issued and the state is left as it was.  In an index numbered
    1..count this is the case for 0 and for every number above the count. *)
Theorem missing_chapter_is_rejected (mdl : Model) (w : World) (n : nat)
  (q : string) :
  numbered w ->
  n = 0 \/ length (getChapters w) < n ->
  query_chapter mdl n q w = (Throw (ChapterNotFound n), w) /\
  get_chapter_summary n w = (Throw (ChapterNotFound n), w).
Proof.
  intros Hn Hout.
  assert (Hnone : getChapter n w = None).
  { unfold getChapter. destruct (find _ (st_chapters w)) as [c|] eqn:E;
      [|reflexivity].
    apply find_some in E. destruct E as [Hin Heq].
    apply Nat.eqb_eq in Heq. pose proof (numbered_bound _ _ Hn Hin) as Hb.
    unfold getChapters in Hout. lia. }
  unfold query_chapter, get_chapter_summary, requireChapter, bind.
  rewrite Hnone. split; reflexivity.
Qed.

End MemoryLookups.

Section MemoryCreation.

Import Memory.

Variable mdl : Model.

(** X3.  [createChapter] either commits a whole chapter or nothing.  When it
    resolves, exactly one chapter was stored, after the ones already there,
    and exactly one [ChapterCreated] was emitted, carrying that chapter; the
    chapter counts and holds the turns since the last chapter up to the
    endpoint, its summary is what the summarization call returned, and the
    two model calls issued are that summarization and the extraction run on
    its summary.  When it rejects, no chapter was stored and no event
    emitted.  The transcript is never touched. *)
Theorem createChapter_all_or_nothing (ep : EndpointSelection) (w : World) :
  let turns := getMessagesSinceLastChapter (ep_endMessageId ep) w in
  match createChapter mdl (Some ep) w with
  | (Ok ch, w') =>
      st_chapters w' = st_chapters w ++ [ch] /\
      emitted w' = emitted w ++ [ChapterCreated ch] /\
      st_transcript w' = st_transcript w /\
      messageCount ch = length turns /\
      fullContent ch = formatMessages turns /\
      summarizeChapter_reply mdl (length (modelCalls w)) turns =
        Ok (summary ch) /\
      modelCalls w' =
        modelCalls w ++ [SummarizeCall turns; ExtractCall turns (summary ch)] /\
      id ch = nextId w /\ nextId w' = S (nextId w)
  | (Throw _, w') =>
      st_chapters w' = st_chapters w /\
      emitted w' = emitted w /\
      st_transcript w' = st_transcript w
  end.
Proof.
  intros turns.
  unfold createChapter, bind, reading, summarizeChapter, extractMetadata,
    issue, generateId, newDate, emit, ret, getChapters,
    getLastChapterEnd.
  cbn [fst snd st_chapters st_transcript modelCalls emitted now nextId].
  fold turns.
  destruct (summarizeChapter_reply mdl (length (modelCalls w)) turns)
    as [s|e] eqn:Es; [|repeat split].
  destruct (extractMetadata_reply mdl _ _ _) as [metadata|e]; [|repeat split].
  destruct (startOfChapter _ _) as [start|e]; [|repeat split].
  rewrite saveChapter_cases.
  cbn [fst snd st_chapters st_transcript modelCalls emitted now nextId].
  destruct (ChapterIndex.inSequence _ _ _); [|repeat split].
  cbn [st_chapters emitted st_transcript modelCalls nextId messageCount
       fullContent summary id].
  rewrite <- app_assoc. repeat split.
Qed.



(** X5.  Where [createChapter] rejects without a chapter.  Handed a signal
    with the flag set and no endpoint (the classifier's schema has no
    [suggestedEndpoint]), the handler rejects on reading
    [endpoint.endMessageId]: no model call, nothing changed.  On a story
    without chapters, an endpoint with no turn up to it still costs the
    summarization and the extraction call before [messages[0].id] throws;
    an id is used up and no chapter is stored. *)
Theorem createChapter_rejections (event : ClassificationEvent)
  (ep : EndpointSelection) (w : World) (s : string) (md : ChapterMetadata) :
  (shouldCreateChapter (chapterAnalysis event) = true ->
   suggestedEndpoint (chapterAnalysis event) = None ->
   handleClassificationComplete mdl event w =
     (Throw (TypeError "endpoint.endMessageId"), w)) /\
  (getChapters w = [] ->
   getMessagesSinceLastChapter (ep_endMessageId ep) w = [] ->
   summarizeChapter_reply mdl (length (modelCalls w)) [] = Ok s ->
   extractMetadata_reply mdl (S (length (modelCalls w))) [] s = Ok md ->
   createChapter mdl (Some ep) w =
     (Throw (TypeError "messages[0].id"),
      mkWorld [] (st_transcript w)
              (modelCalls w ++ [SummarizeCall []; ExtractCall [] s])
              (emitted w) (now w) (S (nextId w)))).
Proof.
  split.
  - intros Hflag Hep. unfold handleClassificationComplete.
    rewrite Hflag, Hep. reflexivity.
  - intros Hch Hturns Hs Hmd.
    unfold createChapter, bind, reading, summarizeChapter, extractMetadata,
      issue, generateId, newDate, saveChapter, emit, ret, getLastChapterEnd.
    unfold getChapters in Hch.
    cbn [fst snd st_chapters st_transcript modelCalls emitted now nextId].
    rewrite Hturns, Hs. cbn [fst snd st_chapters st_transcript modelCalls
                               emitted now nextId].
    rewrite length_app. cbn [length]. rewrite Nat.add_1_r, Hmd.
    cbn [fst snd st_chapters st_transcript modelCalls emitted now nextId].
    rewrite Hch. cbn [rev startOfChapter].
    rewrite <- app_assoc. reflexivity.
Qed.

End MemoryCreation.

Section MemoryRetrieval.

(* The equation of the [while] loop, named before the module's own names
   come into scope. *)
Local Abbreviation loop_equation := agentLoop_unfold.

Import Memory.

Variable mdl : Model.

Section Untouched.

(** An observation of the state that no model call changes: the chapters,
    the transcript, the events emitted. *)
Variables (X : Type) (f : World -> X).
Hypothesis f_issue :
  forall A (c : ModelCall) (reply : nat -> Result A), keeps f (issue c reply).

Lemma query_chapter_untouched (n : nat) (q : string) :
  keeps f (query_chapter mdl n q).
Proof.
  unfold query_chapter. apply keeps_bind; [apply keeps_requireChapter|].
  intros ch. apply keeps_bind; [apply f_issue | intros; apply keeps_ret].
Qed.

Lemma startAll_untouched {A} (ps : list (M A)) :
  (forall p, In p ps -> keeps f p) -> keeps f (startAll ps).
Proof.
  induction ps as [|p ps IH]; intros H; cbn [startAll].
  - apply keeps_ret.
  - apply keeps_bind.
    + intros w. unfold settle. specialize (H p (or_introl eq_refl) w).
      destruct (p w). exact H.
    + intros r. apply keeps_bind; [|intros; apply keeps_ret].
      apply IH. intros p' Hp'. apply H. right. exact Hp'.
Qed.

Lemma staticRetrieval_untouched (userInput : string) (chapters : list Chapter) :
  keeps f (staticRetrieval mdl userInput chapters).
Proof.
  unfold staticRetrieval. apply keeps_bind; [apply f_issue|].
  intros decision. apply keeps_bind.
  - unfold promiseAll. apply keeps_bind; [|intros rs w; reflexivity].
    apply startAll_untouched. intros p Hp. unfold queryPromises in Hp.
    apply in_map_iff in Hp. destruct Hp as [q [<- _]].
    apply query_chapter_untouched.
  - intros results. apply keeps_bind; [intros w; reflexivity|].
    intros; apply keeps_ret.
Qed.

Lemma agentIteration_untouched (g : Gathering) :
  keeps f (agentIteration mdl g).
Proof.
  unfold agentIteration. apply keeps_bind; [apply f_issue|].
  intros response.
  apply (forToolCalls_keeps mdl X f (fun A c r _ => f_issue A c r)).
Qed.

Lemma agentLoop_untouched (cfg : MemoryConfig) (k : nat) :
  forall (iterations : nat) (g : Gathering),
    Z.to_nat (maxAgentIterations cfg) - iterations = k ->
    keeps f (agentLoop mdl cfg iterations g).
Proof.
  unfold keeps.
  induction k as [|k IH]; intros iterations g Hk w;
    rewrite (loop_equation mdl cfg iterations g w);
    destruct (whileGuard cfg (complete g) iterations) eqn:guard;
    try reflexivity.
  - unfold whileGuard in guard. apply andb_prop in guard.
    destruct guard as [_ guard]. apply Z.ltb_lt in guard. lia.
  - pose proof (agentIteration_untouched g w) as H1.
    destruct (agentIteration mdl g w) as [[g'|e] w1]; cbn [snd] in *;
      [|exact H1].
    rewrite (IH (S iterations) g' ltac:(lia) w1). exact H1.
Qed.

Lemma agenticRetrieval_untouched (cfg : MemoryConfig) (userInput : string)
  (chapters : list Chapter) :
  keeps f (agenticRetrieval mdl cfg userInput chapters).
Proof.
  unfold agenticRetrieval. apply keeps_bind.
  - apply (agentLoop_untouched cfg _ 0 _ eq_refl).
  - intros run. apply keeps_bind; [intros w; reflexivity|].
    intros; apply keeps_ret.
Qed.

End Untouched.

(** X6.  Retrieval only reads the story.  [handleUserInput] leaves the
    committed chapters and the transcript as they were, whatever the model
    replies; when it resolves it has emitted exactly one event, a
    [ContextReady] carrying the user's text, and when it rejects it has
    emitted none. *)
Theorem handleUserInput_only_reads (cfg : MemoryConfig)
  (event : UserInputEvent) (w : World) :
  let out := handleUserInput mdl cfg event w in
  st_chapters (snd out) = st_chapters w /\
  st_transcript (snd out) = st_transcript w /\
  match fst out with
  | Ok _ =>
      exists context,
        emitted (snd out) = emitted w ++ [ContextReady context (text event)]
  | Throw _ => emitted (snd out) = emitted w
  end.
Proof.
  cbv zeta. unfold handleUserInput.
  destruct (getChapters w) as [|c cs] eqn:Hch.
  - cbn. split; [reflexivity|]. split; [reflexivity|].
    exists None. reflexivity.
  - cbv beta iota zeta.
    match goal with |- context [bind ?m _ w] => set (chosen := m) end.
    assert (K : forall X (f : World -> X),
               (forall A c0 r, keeps f (issue (A := A) c0 r)) ->
               keeps f chosen).
    { intros X f Hf. unfold chosen. destruct (useAgentic cfg (c :: cs)).
      - apply agenticRetrieval_untouched. exact Hf.
      - apply staticRetrieval_untouched. exact Hf. }
    pose proof (K _ st_chapters (fun A c0 r w0 => eq_refl) w) as K1.
    pose proof (K _ st_transcript (fun A c0 r w0 => eq_refl) w) as K2.
    pose proof (K _ emitted (fun A c0 r w0 => eq_refl) w) as K3.
    unfold bind. destruct (chosen w) as [[context|e] w1]; cbv beta iota;
      unfold emit; cbn [fst snd st_chapters st_transcript emitted] in *.
    + split; [exact K1|]. split; [exact K2|]. exists (Some context).
      rewrite K3. reflexivity.
    + split; [exact K1|]. split; [exact K2 | exact K3].
Qed.

(** The promises started by [map] run one after the other. *)
Lemma startAll_cons_state {S A} (p : Async S A) (ps : list (Async S A))
  (s : S) :
  snd (startAll (p :: ps) s) = snd (startAll ps (snd (p s))).
Proof.
  cbn [startAll]. unfold bind at 1. unfold settle.
  destruct (p s) as [r s1]. cbn [snd]. unfold bind, ret.
  destruct (startAll ps s1) as [[rs|e] s2]; reflexivity.
Qed.

Lemma query_chapter_call (n : nat) (q : string) (w : World) :
  modelCalls (snd (query_chapter mdl n q w)) =
  modelCalls w ++
  match getChapter n w with
  | Some ch => [QueryCall ch q]
  | None => []
  end.
Proof.
  unfold query_chapter, requireChapter, bind, executeQuery, issue, ret.
  destruct (getChapter n w) as [ch|]; cbn [snd modelCalls];
    [|rewrite app_nil_r; reflexivity].
  destruct (executeQuery_reply mdl _ ch q); reflexivity.
Qed.

(** The query calls that a list of decided queries issues: one per query
    whose chapter exists, none for a query on a missing chapter. *)
Lemma startAll_queries_calls (qs : list RetrievalQuery) :
  forall w,
    modelCalls (snd (startAll (map (fun q => query_chapter mdl (chapter q)
                                             (question q)) qs) w)) =
    modelCalls w ++
    flat_map (fun q => match getChapter (chapter q) w with
                       | Some ch => [QueryCall ch (question q)]
                       | None => []
                       end) qs.
Proof.
  induction qs as [|q qs IH]; intros w; cbn [map flat_map].
  - cbn. rewrite app_nil_r. reflexivity.
  - rewrite (startAll_cons_state (S := World)
               (query_chapter mdl (chapter q) (question q))).
    rewrite IH, query_chapter_call, <- app_assoc.
    f_equal. f_equal. apply flat_map_ext. intros a. unfold getChapter.
    rewrite (query_chapter_untouched _ st_chapters
               (fun A c r w0 => eq_refl) (chapter q) (question q) w).
    reflexivity.
Qed.

(** X7.  The model calls of a static retrieval.  A decision that rejects
    ends the retrieval after that one call.  Otherwise the calls issued are
    the decision and then, in the order of the decision, one query for each
    decided chapter that exists: a decided chapter that does not exist gets
    no call and makes the retrieval reject.  A decision with no query
    resolves with an empty context after the single decision call. *)
Theorem static_retrieval_calls (userInput : string) (chapters : list Chapter)
  (w : World) :
  let out := staticRetrieval mdl userInput chapters w in
  match decideRetrieval_reply mdl (length (modelCalls w)) userInput chapters with
  | Throw e =>
      fst out = Throw e /\
      modelCalls (snd out) = modelCalls w ++ [DecideCall userInput chapters]
  | Ok decision =>
      modelCalls (snd out) =
        modelCalls w ++
        DecideCall userInput chapters ::
        flat_map (fun q => match getChapter (chapter q) w with
                           | Some ch => [QueryCall ch (question q)]
                           | None => []
                           end) (queries decision) /\
      (queries decision = [] -> fst out = Ok (mkContext [] (now w))) /\
      (forall q, In q (queries decision) ->
                 getChapter (chapter q) w = None -> isOk (fst out) = false)
  end.
Proof.
  cbv zeta. rewrite staticRetrieval_steps.
  unfold decideRetrieval, issue.
  destruct (decideRetrieval_reply mdl (length (modelCalls w)) userInput chapters)
    as [decision|e]; [|split; reflexivity].
  set (w1 := mkWorld _ _ _ _ _ _).
  pose proof (startAll_queries_calls (queries decision) w1) as Hcalls.
  fold (queryPromises mdl decision) in Hcalls.
  split; [|split].
  - destruct (startAll (queryPromises mdl decision) w1) as [[outs|e] w2];
      cbn [snd] in *.
    + destruct (allOk outs); cbn [snd]; rewrite Hcalls; subst w1;
        cbn [modelCalls]; rewrite <- app_assoc; reflexivity.
    + rewrite Hcalls. subst w1. cbn [modelCalls]. rewrite <- app_assoc.
      reflexivity.
  - intros Hnil. unfold queryPromises. rewrite Hnil. reflexivity.
  - intros q Hin Hnone.
    assert (Hthrow : forall qs w0,
               st_chapters w0 = st_chapters w -> In q qs ->
               forall outs w2,
                 startAll (map (fun q => query_chapter mdl (chapter q)
                                           (question q)) qs) w0 = (Ok outs, w2) ->
                 In (Throw (ChapterNotFound (chapter q))) outs).
    { induction qs as [|a qs IH]; intros w0 Hw0 Hq outs w2 Hs; [destruct Hq|].
      cbn [map startAll] in Hs. unfold bind at 1 in Hs. unfold settle in Hs.
      assert (Ha : st_chapters
                     (snd (query_chapter mdl (chapter a) (question a) w0))
                   = st_chapters w0)
        by (apply (query_chapter_untouched _ st_chapters);
            intros A c r w3; reflexivity).
      destruct (query_chapter mdl (chapter a) (question a) w0) as [r w3] eqn:Er.
      cbn [snd] in Ha. unfold bind in Hs.
      destruct (startAll _ w3) as [[rs|e] w4] eqn:Es; [|discriminate].
      unfold ret in Hs. injection Hs as <- <-.
      destruct Hq as [->|Hq].
      - left. unfold query_chapter, requireChapter, bind in Er.
        unfold getChapter in Hnone, Er. rewrite Hw0, Hnone in Er.
        injection Er as <- _. reflexivity.
      - right. apply (IH w3 ltac:(congruence) Hq rs w4 Es). }
    destruct (startAll (queryPromises mdl decision) w1) as [[outs|e] w2] eqn:Es;
      [|reflexivity].
    pose proof (Hthrow (queries decision) w1 eq_refl Hin outs w2 Es) as Hin'.
    destruct (allOk_In_Throw outs _ Hin') as [e' ->]. reflexivity.
Qed.


(** X9.  With [maxAgentIterations] at zero or below, the agentic retrieval
    never asks the model: it resolves at once with an empty context and
    leaves the state as it was. *)
Theorem agentic_retrieval_without_iterations (cfg : MemoryConfig)
  (userInput : string) (chapters : list Chapter) (w : World) :
  (maxAgentIterations cfg <= 0)%Z ->
  agenticRetrieval mdl cfg userInput chapters w =
    (Ok (mkContext [] (now w)), w).
Proof.
  intros Hcap. unfold agenticRetrieval, bind.
  rewrite loop_equation. unfold whileGuard.
  replace (Z.of_nat 0 <? maxAgentIterations cfg)%Z with false
    by (symmetry; apply Z.ltb_ge; lia).
  rewrite andb_false_r. reflexivity.
Qed.

End MemoryRetrieval.

(* ===================================================================== *)
(** * Properties of the narrator module *)
(* ===================================================================== *)

Section NarratorFacts.

Import Narrator.

Variable host : Host.

Lemma streamed_app (a b : list NarratorEvent) :
  streamed (a ++ b) = streamed a ++ streamed b.
Proof. apply flat_map_app. Qed.

Lemma sentencesOf_app (a b : list NarratorEvent) :
  sentencesOf (a ++ b) = sentencesOf a ++ sentencesOf b.
Proof. apply flat_map_app. Qed.

Lemma narrated_app (a b : list NarratorEvent) :
  narrated (a ++ b) = narrated a ++ narrated b.
Proof. apply flat_map_app. Qed.

Lemma emitSentences_run (complete : list string) (b : Bus) :
  emitSentences complete b
  = (Ok tt, mkBus (emitted b ++ map SentenceComplete complete) (nextId b)).
Proof.
  revert b. induction complete as [|s rest IH]; intro b; simpl.
  - rewrite app_nil_r. destruct b; reflexivity.
  - unfold bind, emit. simpl. rewrite IH. simpl.
    rewrite <- app_assoc. reflexivity.
Qed.

Lemma streamed_sentences (l : list string) :
  streamed (map SentenceComplete l) = [].
Proof. induction l; simpl; auto. Qed.

Lemma narrated_sentences (l : list string) :
  narrated (map SentenceComplete l) = [].
Proof. induction l; simpl; auto. Qed.

Lemma sentencesOf_sentences (l : list string) :
  sentencesOf (map SentenceComplete l) = l.
Proof. induction l; simpl; congruence. Qed.

Lemma joined_app (a b : list string) :
  joined (a ++ b) = (joined a ++ joined b)%string.
Proof.
  unfold joined. induction a as [|x a IH]; simpl; auto.
  destruct a as [|y a].
  - simpl. destruct b; simpl; auto. now rewrite string_app_nil_r.
  - simpl in *. rewrite IH. now rewrite string_app_assoc.
Qed.

(** The loop over the chunks never throws and leaves the id generator alone;
    it streams the chunks in order, gives no final response, and ends with
    the text so far followed by all chunks. *)
Lemma forAwait_run (chunks : list string) (full buffer : string) (b : Bus) :
  exists remainder events,
    forAwait host chunks full buffer b
    = (Ok ((full ++ joined chunks)%string, remainder),
       mkBus (emitted b ++ events) (nextId b)) /\
    streamed events = chunks /\
    narrated events = [] /\
    (splits host ->
     (joined (sentencesOf events) ++ remainder)%string
     = (buffer ++ joined chunks)%string).
Proof.
  revert full buffer b.
  induction chunks as [|chunk rest IH]; intros full buffer b.
  - exists buffer, []. simpl. rewrite app_nil_r.
    unfold joined. simpl. rewrite !string_app_nil_r.
    destruct b; repeat split; auto.
  - simpl. unfold bind at 1. unfold emit at 1. cbn [fst snd].
    unfold bind at 1. rewrite emitSentences_run. cbn [fst snd emitted nextId].
    destruct (IH (full ++ chunk)%string
                 (snd (extractCompleteSentences host (buffer ++ chunk)%string))
                 (mkBus ((emitted b ++ [ResponseStreaming chunk]) ++
                         map SentenceComplete
                           (fst (extractCompleteSentences host
                                   (buffer ++ chunk)%string)))
                        (nextId b)))
      as (remainder & events & Hrun & Hs & Hn & Hsplit).
    exists remainder,
      (ResponseStreaming chunk ::
       map SentenceComplete
         (fst (extractCompleteSentences host (buffer ++ chunk)%string)) ++
       events).
    split; [|split; [|split]].
    + rewrite Hrun. cbn [emitted nextId].
      assert (joined (chunk :: rest) = (chunk ++ joined rest)%string) as ->.
      { change (chunk :: rest) with ([chunk] ++ rest). rewrite joined_app.
        reflexivity. }
      rewrite string_app_assoc. rewrite <- !app_assoc. reflexivity.
    + change (streamed (?x :: ?l)) with (streamed ([x] ++ l)).
      rewrite !streamed_app, streamed_sentences, Hs. reflexivity.
    + change (narrated (?x :: ?l)) with (narrated ([x] ++ l)).
      rewrite !narrated_app, narrated_sentences, Hn. reflexivity.
    + intro Hlaw. specialize (Hsplit Hlaw).
      change (sentencesOf (?x :: ?l)) with (sentencesOf ([x] ++ l)).
      rewrite !sentencesOf_app, sentencesOf_sentences. simpl app at 1.
      rewrite joined_app, string_app_assoc, Hsplit.
      rewrite <- string_app_assoc, (Hlaw (buffer ++ chunk)%string).
      assert (joined (chunk :: rest) = (chunk ++ joined rest)%string) as ->.
      { change (chunk :: rest) with ([chunk] ++ rest). rewrite joined_app.
        reflexivity. }
      now rewrite string_app_assoc.
Qed.

(** X11 (design.md A.2, [NarratorModule.handleContextReady]): when [generate]
    rejects, the handler rejects with the same error and emits nothing.
    Otherwise it emits one [ResponseStreaming] per chunk of the stream, in
    the order of the stream; when the stream ends normally it then emits
    exactly one [NarrativeResponse], with a fresh id and the concatenation of
    all chunks as content; when iterating the stream throws, the handler
    rejects with that error and emits no [NarrativeResponse] at all, although
    the chunks read so far were streamed. *)
Theorem narrator_streams_then_responds (event : ContextReadyEvent) (b : Bus) :
  let out := handleContextReady host event b in
  match generate host (buildPrompt host (retrievedContext event)
                                   (userInput event)) with
  | Throw e => out = (Throw e, b)
  | Ok (chunks, ending) =>
      streamed (emitted (snd out)) = streamed (emitted b) ++ chunks /\
      narrated (emitted (snd out))
      = narrated (emitted b) ++
        match ending with
        | None => [(nextId b, joined chunks)]
        | Some _ => []
        end /\
      fst out = match ending with None => Ok tt | Some e => Throw e end
  end.
Proof.
  intro out. subst out. unfold handleContextReady.
  destruct (generate host _) as [[chunks ending] | e]; unfold bind, lift;
    cbn [fst snd]; [|reflexivity].
  destruct (forAwait_run chunks "" "" b)
    as (remainder & events & Hrun & Hs & Hn & _).
  rewrite Hrun. cbn [fst snd].
  destruct ending as [e|]; unfold throw, generateId, emit;
    cbn [fst snd emitted nextId].
  - rewrite streamed_app, narrated_app, Hs, Hn, app_nil_r.
    repeat split; reflexivity.
  - rewrite !streamed_app, !narrated_app, Hs, Hn. simpl.
    rewrite !app_nil_r. repeat split; reflexivity.
Qed.

(** X12 (design.md A.2, [NarratorModule.handleContextReady]): with a sentence
    splitter that neither loses nor invents text, the sentences emitted as
    [SentenceComplete] during one response, read in order, are a prefix of
    the streamed text: together with one remainder (the unfinished end of the
    buffer, which is never emitted as a sentence) they are the concatenation
    of the chunks. *)
Theorem narrator_sentences_cover_the_stream
  (event : ContextReadyEvent) (b : Bus) (chunks : list string)
  (ending : option Error) :
  splits host ->
  generate host (buildPrompt host (retrievedContext event) (userInput event))
  = Ok (chunks, ending) ->
  exists events remainder,
    emitted (snd (handleContextReady host event b)) = emitted b ++ events /\
    (joined (sentencesOf events) ++ remainder)%string = joined chunks.
Proof.
  intros Hlaw Hgen. unfold handleContextReady. rewrite Hgen.
  unfold bind, lift. cbn [fst snd].
  destruct (forAwait_run chunks "" "" b)
    as (remainder & events & Hrun & _ & _ & Hsplit).
  rewrite Hrun. cbn [fst snd]. specialize (Hsplit Hlaw).
  destruct ending as [e|]; unfold throw, generateId, emit;
    cbn [fst snd emitted nextId].
  - exists events, remainder. auto.
  - exists (events ++ [NarrativeResponse (nextId b)
                        ("" ++ joined chunks)%string]), remainder.
    split; [now rewrite app_assoc|].
    rewrite sentencesOf_app. simpl. rewrite app_nil_r. exact Hsplit.
Qed.

End NarratorFacts.

(* ===================================================================== *)
(** * Properties of the vision module *)
(* ===================================================================== *)

Section VisionFacts.

Import Vision.

Variable ImageJob : Type.
Variable priority : ImageJob -> Z.
Variable createJob : VisualElement -> string -> ImageJob.

Local Abbreviation sorted := (StronglySorted (byPriority ImageJob priority)).

Lemma insertJob_perm (job : ImageJob) (l : list ImageJob) :
  Permutation (insertJob ImageJob priority job l) (job :: l).
Proof.
  induction l as [|j l IH]; simpl; auto.
  destruct (priority job <=? priority j)%Z; auto.
  rewrite IH. apply perm_swap.
Qed.

Lemma sortByPriority_perm (l : list ImageJob) :
  Permutation (sortByPriority ImageJob priority l) l.
Proof.
  induction l as [|j l IH]; simpl; auto.
  rewrite insertJob_perm. auto.
Qed.

Lemma insertJob_sorted (job : ImageJob) (l : list ImageJob) :
  sorted l -> sorted (insertJob ImageJob priority job l).
Proof.
  induction 1 as [|j l Hs IH Hall]; simpl.
  - constructor; constructor.
  - destruct (priority job <=? priority j)%Z eqn:Hle.
    + apply Z.leb_le in Hle. constructor.
      * constructor; assumption.
      * constructor; [exact Hle|].
        eapply Forall_impl; [|exact Hall].
        unfold byPriority. intros a Ha. lia.
    + apply Z.leb_gt in Hle. constructor; [exact IH|].
      eapply Permutation_Forall;
        [apply Permutation_sym, insertJob_perm|].
      constructor; [unfold byPriority; lia | exact Hall].
Qed.

Lemma sortByPriority_sorted (l : list ImageJob) :
  sorted (sortByPriority ImageJob priority l).
Proof.
  induction l as [|j l IH]; simpl.
  - constructor.
  - apply insertJob_sorted, IH.
Qed.

Lemma sorted_tail (j : ImageJob) (l : list ImageJob) :
  sorted (j :: l) -> sorted l.
Proof. inversion 1; assumption. Qed.

(** What one run of the while loop of [processQueue] leaves. *)
Lemma processQueue_run (q : list ImageJob) (active : nat)
  (begun : list ImageJob) :
  active <= maxConcurrent ->
  sorted q ->
  let s := processQueue q active begun in
  activeGenerations s <= maxConcurrent /\
  (queue s <> [] -> activeGenerations s = maxConcurrent) /\
  sorted (queue s) /\
  started s ++ queue s = begun ++ q /\
  length (started s) + active = length begun + activeGenerations s.
Proof.
  revert active begun.
  induction q as [|job rest IH]; intros active begun Hle Hs; simpl.
  - repeat split; auto. congruence.
  - destruct (active <? maxConcurrent) eqn:Hlt.
    + apply Nat.ltb_lt in Hlt.
      destruct (IH (S active) (begun ++ [job])) as (H1 & H2 & H3 & H4 & H5);
        [lia | eapply sorted_tail; eauto |].
      repeat split; auto.
      * rewrite H4, <- app_assoc. reflexivity.
      * rewrite length_app in H5. simpl in H5. lia.
    + apply Nat.ltb_ge in Hlt. simpl. repeat split; auto. lia.
Qed.

Lemma run_invariant (steps before : list Step) (s s' : State ImageJob) :
  settledState ImageJob priority createJob before s ->
  run ImageJob priority createJob steps s = Some s' ->
  settledState ImageJob priority createJob (before ++ steps) s'.
Proof.
  revert before s.
  induction steps as [|st rest IH]; intros before s Hinv Hrun; simpl in Hrun.
  - injection Hrun as <-. now rewrite app_nil_r.
  - destruct (step ImageJob priority createJob st s) as [s1|] eqn:Hstep;
      [|discriminate].
    replace (before ++ st :: rest) with ((before ++ [st]) ++ rest)
      by (rewrite <- app_assoc; reflexivity).
    apply (IH _ s1); [|exact Hrun].
    destruct Hinv as (Hle & Hfull & Hsorted & Hperm & Hlen).
    unfold settledState, requested, settled.
    rewrite flat_map_app, filter_app, length_app. simpl.
    destruct st as [event|]; simpl in Hstep.
    + injection Hstep as <-. unfold handleClassificationComplete.
      destruct (processQueue_run
                  (sortByPriority ImageJob priority
                     (queue s ++ jobsOf ImageJob createJob event))
                  (activeGenerations s) (started s) Hle
                  (sortByPriority_sorted _))
        as (H1 & H2 & H3 & H4 & H5).
      repeat split; auto.
      * rewrite H4, sortByPriority_perm, app_assoc, app_nil_r.
        apply Permutation_app_tail. exact Hperm.
      * unfold settled in *. simpl. lia.
    + unfold generationSettled in Hstep.
      destruct (activeGenerations s) as [|active] eqn:Hactive;
        [discriminate|].
      injection Hstep as <-.
      destruct (processQueue_run (queue s) active (started s)
                  ltac:(lia) Hsorted)
        as (H1 & H2 & H3 & H4 & H5).
      repeat split; auto.
      * rewrite H4, app_nil_r. exact Hperm.
      * unfold settled in *. simpl. lia.
Qed.

Lemma initial_settled :
  settledState ImageJob priority createJob [] initial.
Proof.
  unfold settledState, initial, maxConcurrent. simpl.
  repeat split; auto; try congruence; constructor.
Qed.

(** X13 (design.md A.4, [VisionModule.handleClassificationComplete] and
    [processQueue]): whatever events arrive and whenever generations settle,
    between two steps at most [maxConcurrent] = 2 generations are active, a
    job waits in the queue only while two generations are active, and the
    waiting jobs are in ascending priority order. *)
Theorem vision_generations_are_bounded
  (steps : list Step) (s : State ImageJob) :
  run ImageJob priority createJob steps initial = Some s ->
  activeGenerations s <= 2 /\
  (queue s <> [] -> activeGenerations s = 2) /\
  StronglySorted (byPriority ImageJob priority) (queue s).
Proof.
  intro Hrun.
  destruct (run_invariant steps [] initial s initial_settled Hrun)
    as (H1 & H2 & H3 & _).
  auto.
Qed.

(** X14 (design.md A.4, [VisionModule]): no job is lost or started twice.
    The jobs handed to [generateImage] together with the jobs still queued
    are, up to order, exactly the jobs created for the elements that are
    marked [generateImmediately] or of high importance, and
    [activeGenerations] is the number of generations started and not yet
    settled. *)
Theorem vision_jobs_are_conserved
  (steps : list Step) (s : State ImageJob) :
  run ImageJob priority createJob steps initial = Some s ->
  Permutation (started s ++ queue s) (requested ImageJob createJob steps) /\
  length (started s) = activeGenerations s + settled steps.
Proof.
  intro Hrun.
  destruct (run_invariant steps [] initial s initial_settled Hrun)
    as (_ & _ & _ & H4 & H5).
  auto.
Qed.

End VisionFacts.

(* ===================================================================== *)
(** * Properties of the text-to-speech module *)
(* ===================================================================== *)

Section TTSFacts.

Import TTS.

Variable AudioSegment : Type.

Local Abbreviation State := (TTS.State AudioSegment).
Local Abbreviation Step := (TTS.Step AudioSegment).

Lemma arrivals_app (a b : list Step) :
  arrivals (a ++ b) = arrivals a ++ arrivals b.
Proof. apply flat_map_app. Qed.

(** [playNext] moves at most the head of the queue to the player. *)
Lemma playNext_keeps_order (s : State) :
  played (playNext AudioSegment s) ++ queue (playNext AudioSegment s)
  = played s ++ queue s.
Proof.
  unfold playNext. destruct (isPlaying s); [reflexivity|].
  destruct (queue s) as [|segment rest] eqn:Hq; simpl.
  - now rewrite Hq.
  - now rewrite <- app_assoc.
Qed.

(** While nothing failed: a playback is pending exactly while [isPlaying] is
    set, and nothing waits unless something plays. *)
Lemma run_order (steps : list Step) (s s' : State) :
  run steps s = Some s' ->
  played s' ++ queue s' = (played s ++ queue s) ++ arrivals steps.
Proof.
  revert s. induction steps as [|st rest IH]; intros s Hrun; simpl in *.
  - injection Hrun as <-. now rewrite app_nil_r.
  - destruct st as [audio| | |]; simpl in Hrun.
    + rewrite (IH _ Hrun). unfold synthesized.
      rewrite playNext_keeps_order. simpl.
      now rewrite <- !app_assoc.
    + now rewrite (IH _ Hrun).
    + unfold playbackEnded in Hrun. destruct (playback s); [|discriminate].
      rewrite (IH _ Hrun), playNext_keeps_order. reflexivity.
    + unfold playbackFailed in Hrun. destruct (playback s); [|discriminate].
      rewrite (IH _ Hrun). reflexivity.
Qed.

Lemma run_healthy (steps : list Step) (s s' : State) :
  run steps s = Some s' ->
  existsb isFailure steps = false ->
  playback s = isPlaying s ->
  (isPlaying s = false -> queue s = []) ->
  playback s' = isPlaying s' /\ (isPlaying s' = false -> queue s' = []).
Proof.
  revert s. induction steps as [|st rest IH]; intros s Hrun Hok Hp Hq;
    simpl in *.
  - injection Hrun as <-. auto.
  - apply orb_false_iff in Hok as [Hst Hok].
    destruct st as [audio| | |]; simpl in Hrun, Hst; try discriminate.
    + apply (IH _ Hrun Hok); unfold synthesized, playNext; simpl;
        destruct (isPlaying s) eqn:Hplaying; simpl; auto; try discriminate.
      * rewrite (Hq eq_refl). reflexivity.
      * rewrite (Hq eq_refl). simpl. discriminate.
    + apply (IH _ Hrun Hok); auto.
    + unfold playbackEnded in Hrun. destruct (playback s); [|discriminate].
      apply (IH _ Hrun Hok); unfold playNext; simpl;
        destruct (queue s); simpl; auto; discriminate.
Qed.

Lemma run_app (a b : list Step) (s s' : State) :
  run (a ++ b) s = Some s' ->
  exists mid, run a s = Some mid /\ run b mid = Some s'.
Proof.
  revert s. induction a as [|st a IH]; intros s Hrun; simpl in *.
  - exists s. auto.
  - destruct (step AudioSegment st s) as [s1|]; [|discriminate].
    apply IH, Hrun.
Qed.

(** A pending playback always has [isPlaying] set. *)
Lemma run_pending (steps : list Step) (s s' : State) :
  run steps s = Some s' ->
  (playback s = true -> isPlaying s = true) ->
  playback s' = true -> isPlaying s' = true.
Proof.
  revert s. induction steps as [|st rest IH]; intros s Hrun Hinv;
    simpl in *.
  - injection Hrun as <-. exact Hinv.
  - destruct st as [audio| | |]; simpl in Hrun.
    + apply (IH _ Hrun). unfold synthesized, playNext. simpl.
      destruct (isPlaying s) eqn:Hp; simpl; auto.
      destruct (queue s); simpl; auto.
    + apply (IH _ Hrun Hinv).
    + unfold playbackEnded in Hrun. destruct (playback s); [|discriminate].
      apply (IH _ Hrun). unfold playNext. simpl.
      destruct (queue s); simpl; auto.
    + unfold playbackFailed in Hrun. destruct (playback s); [|discriminate].
      apply (IH _ Hrun). simpl. discriminate.
Qed.

(** Once a playback has failed and left [isPlaying] set, no step changes
    that. *)
Lemma run_stalled (steps : list Step) (s s' : State) :
  run steps s = Some s' ->
  isPlaying s = true -> playback s = false ->
  isPlaying s' = true /\ playback s' = false /\
  played s' = played s /\ queue s' = queue s ++ arrivals steps.
Proof.
  revert s. induction steps as [|st rest IH]; intros s Hrun Hp Hb; simpl in *.
  - injection Hrun as <-. rewrite app_nil_r. auto.
  - destruct st as [audio| | |]; simpl in Hrun.
    + unfold synthesized, playNext in Hrun. simpl in Hrun. rewrite Hp in Hrun.
      destruct (IH _ Hrun eq_refl Hb) as (H1 & H2 & H3 & H4). simpl in *.
      repeat split; auto. now rewrite H4, <- app_assoc.
    + apply (IH _ Hrun Hp Hb).
    + unfold playbackEnded in Hrun. rewrite Hb in Hrun. discriminate.
    + unfold playbackFailed in Hrun. rewrite Hb in Hrun. discriminate.
Qed.

(** X15 (design.md A.5, [TTSModule.handleSentenceComplete] and [playNext]):
    segments are played first in, first out, in the order in which their
    syntheses resolved: the segments handed to [playAudio] followed by those
    still queued are the synthesized segments in that order.  As long as no
    playback has failed, a playback is pending exactly when [isPlaying] is
    set, and a segment waits in the queue only while another one plays. *)
Theorem tts_plays_in_synthesis_order (steps : list Step) (s : State) :
  run steps initial = Some s ->
  played s ++ queue s = arrivals steps /\
  (existsb isFailure steps = false ->
   playback s = isPlaying s /\ (isPlaying s = false -> queue s = [])).
Proof.
  intro Hrun. split.
  - now rewrite (run_order _ _ _ Hrun).
  - intro Hok. apply (run_healthy _ _ _ Hrun Hok); reflexivity.
Qed.

(** X16 (design.md A.5, [TTSModule.playNext]): a playback that fails stops
    the module for good.  [isPlaying = false] comes after the [await] on
    [playAudio] and is not in a [finally], so after a rejected playback the
    flag stays set with no playback pending, and whatever is synthesized
    later is queued and never played. *)
Theorem tts_stalls_after_failed_playback
  (steps later : list Step) (s s' : State) :
  run (steps ++ [PlaybackFailed]) initial = Some s ->
  run later s = Some s' ->
  isPlaying s' = true /\ playback s' = false /\
  played s' = played s /\ queue s' = queue s ++ arrivals later.
Proof.
  intros Hrun Hlater.
  destruct (run_app _ _ _ _ Hrun) as (mid & Hmid & Hlast).
  pose proof (run_pending _ _ _ Hmid) as Hpending.
  simpl in Hlast. unfold playbackFailed in Hlast.
  destruct (playback mid) eqn:Hb; [|discriminate].
  injection Hlast as <-.
  apply (run_stalled _ _ _ Hlater); simpl; auto.
Qed.

End TTSFacts.

(* ===================================================================== *)
(** * Properties of the lore management module *)
(* ===================================================================== *)

Section LoreFacts.

Import LoreManagement.

Variable Entry : Type.
Variable Args : Type.
Variable host : Host Entry Args.

Local Abbreviation State := (LoreManagement.State Entry Args).

Lemma executed_app (a b : list (Call Args)) :
  executed (a ++ b) = executed a ++ executed b.
Proof. apply flat_map_app. Qed.

Lemma asked_app (a b : list (Call Args)) :
  asked (a ++ b) = asked a + asked b.
Proof. unfold asked. now rewrite filter_app, length_app. Qed.

Lemma executed_Execute (l : list (ToolCall Args)) :
  executed (map Execute l) = l.
Proof. induction l; simpl; congruence. Qed.

Lemma asked_Execute (l : list (ToolCall Args)) :
  asked (map Execute l) = 0.
Proof. induction l; simpl; auto. Qed.

(** One tool call that is answered. *)
Lemma executeTool_answered (toolCall : ToolCall Args) (s : State) :
  toolsAnswer host ->
  exists result news,
    executeTool host toolCall s
    = (Ok result,
       mkState (changes s ++ news)
               (trace s ++
                map Execute (filter (fun tc => negb (isFinish tc))
                                    [toolCall]))) /\
    map summary news = map finishSummary (filter recordsChange [toolCall]).
Proof.
  intros (Hcreate & Hupdate & Hmerge & Hdelete & Hread).
  destruct toolCall as [args|id ch prev|ids merged|id|text|name args];
    simpl; unfold bind, ask, pushChange, ret; cbn [fst snd changes trace].
  - specialize (Hcreate (length (trace s)) args).
    destruct (createEntry _ _ host _ args) as [created|]; [|discriminate].
    eexists _, [_]. simpl. split; reflexivity.
  - specialize (Hupdate (length (trace s)) id ch).
    destruct (updateEntry _ _ host _ id ch) as [updated|]; [|discriminate].
    eexists _, [_]. simpl. split; reflexivity.
  - specialize (Hmerge (length (trace s)) ids merged).
    destruct (mergeEntries _ _ host _ ids merged) as [m|]; [|discriminate].
    eexists _, [_]. simpl. split; reflexivity.
  - specialize (Hdelete (length (trace s)) id).
    destruct (deleteEntry _ _ host _ id) as [deleted|]; [|discriminate].
    eexists _, [_]. simpl. split; reflexivity.
  - eexists _, [_]. simpl. rewrite app_nil_r. split; reflexivity.
  - specialize (Hread (length (trace s)) name args).
    destruct (readTool _ _ host _ name args) as [text|]; [|discriminate].
    eexists _, []. simpl. rewrite app_nil_r. split; reflexivity.
Qed.

(** The loop over the tool calls of one response, all answered: every call
    is executed, whether or not [finish_lore_management] came before it. *)
Lemma forToolCalls_answered (text : string) (calls : list (ToolCall Args))
  (done : bool) (messages : list ChatMessage) (s : State) :
  toolsAnswer host ->
  exists messages' news,
    forToolCalls host text calls done messages s
    = (Ok (done || existsb isFinish calls, messages'),
       mkState (changes s ++ news)
               (trace s ++
                map Execute (filter (fun tc => negb (isFinish tc)) calls))) /\
    map summary news = map finishSummary (filter recordsChange calls).
Proof.
  intro Htools. revert done messages s.
  induction calls as [|toolCall rest IH]; intros done messages s.
  - exists messages, []. simpl. rewrite !app_nil_r, orb_false_r.
    destruct s; split; reflexivity.
  - simpl forToolCalls. unfold bind at 1.
    destruct (executeTool_answered toolCall s Htools)
      as (result & news & Hrun & Hnews).
    rewrite Hrun. cbn [fst snd].
    destruct (IH (done || isFinish toolCall)
                 (messages ++ [mkChat Assistant text; mkChat Tool result])
                 (mkState (changes s ++ news)
                    (trace s ++
                     map Execute (filter (fun tc => negb (isFinish tc))
                                         [toolCall]))))
      as (messages' & news' & Hrest & Hnews').
    exists messages', (news ++ news'). rewrite Hrest.
    cbn [changes trace]. split.
    + rewrite <- !app_assoc, <- map_app, <- filter_app. simpl.
      now rewrite orb_assoc.
    + rewrite map_app, Hnews, Hnews', <- map_app, <- filter_app.
      reflexivity.
Qed.

Lemma lastSummary_spec (news : list (LoreChange Entry Args))
  (calls : list (ToolCall Args)) :
  map summary news = map finishSummary calls ->
  lastSummary news
  = match rev calls with
    | finish_lore_management text :: _ => text
    | _ => ""
    end.
Proof.
  intro Hmap. unfold lastSummary.
  assert (map summary (rev news) = map finishSummary (rev calls)) as Hrev
    by (rewrite !map_rev; congruence).
  destruct (rev news) as [|change l], (rev calls) as [|call l'];
    simpl in Hrev; try discriminate; auto.
  injection Hrev as Hhead _. rewrite Hhead.
  destruct call; reflexivity.
Qed.

(** The while loop with an agent that never finishes: every turn of the
    loop is followed by another one. *)
Lemma whileNotComplete_runs_on (fuel : nat) (messages : list ChatMessage)
  (s : State) :
  toolsAnswer host -> neverFinishes host ->
  exists s',
    whileNotComplete host fuel messages s = (Ok None, s') /\
    asked (trace s') = asked (trace s) + fuel.
Proof.
  intros Htools Hnever. revert messages s.
  induction fuel as [|fuel IH]; intros messages s; simpl.
  - exists s. split; [reflexivity | lia].
  - unfold bind at 1. unfold ask at 1. cbn [fst snd].
    destruct (Hnever (length (trace s)) messages) as (response & -> & Hno).
    unfold bind at 1.
    destruct (forToolCalls_answered (response_content response)
                (toolCalls response) false messages
                (mkState (changes s) (trace s ++ [AskAgent messages])) Htools)
      as (messages' & news & -> & _).
    rewrite Hno. cbn [fst snd orb].
    destruct (IH messages'
                 (mkState
                    (changes (mkState (changes s)
                                (trace s ++ [AskAgent messages])) ++ news)
                    (trace (mkState (changes s)
                              (trace s ++ [AskAgent messages])) ++
                     map Execute
                       (filter (fun tc => negb (isFinish tc))
                               (toolCalls response)))))
      as (s' & -> & Hasked).
    exists s'. split; [reflexivity|].
    rewrite Hasked. cbn [trace]. rewrite !asked_app, asked_Execute.
    simpl. unfold asked at 2. simpl. lia.
Qed.

(** X17 (design.md A.8, [LoreManagementModule.runSession]): the session loop
    has no iteration cap.  With tools that answer and an agent that answers
    every request without ever calling [finish_lore_management], the loop is
    still running after any number of turns: [fuel] turns ask the agent
    [fuel] times and no result is returned. *)
Theorem lore_session_has_no_cap (fuel : nat) (text : string) (s : State) :
  toolsAnswer host -> neverFinishes host ->
  prompt host = Ok text ->
  exists s',
    runSession host fuel s = (Ok None, s') /\
    asked (trace s') = asked (trace s) + fuel.
Proof.
  intros Htools Hnever Hprompt. unfold runSession.
  unfold bind at 1. cbn [fst snd]. rewrite Hprompt.
  unfold bind at 1, lift. cbn [fst snd]. unfold bind at 1.
  destruct (whileNotComplete_runs_on fuel [mkChat User text]
              (mkState [] (trace s)) Htools Hnever) as (s' & -> & Hasked).
  exists s'. split; [reflexivity | exact Hasked].
Qed.

(** X18 (design.md A.8, [LoreManagementModule.runSession] and
    [executeTool]): [finish_lore_management] ends the session but not the
    turn.  When the agent's first response calls it and the tools answer, the
    session returns after that one request, having executed every other tool
    call of the response, also those that come after the finish call; and
    the returned summary is the summary of the finish call only when no
    later call of the response recorded a change: otherwise it is the empty
    string. *)
Theorem lore_finish_does_not_end_the_turn
  (fuel : nat) (text : string) (response : AgentResponse Args) (s : State) :
  toolsAnswer host ->
  prompt host = Ok text ->
  callAgent host (length (trace s)) [mkChat User text] = Ok response ->
  existsb isFinish (toolCalls response) = true ->
  exists result s',
    runSession host (S fuel) s = (Ok (Some result), s') /\
    asked (trace s') = asked (trace s) + 1 /\
    executed (trace s')
    = executed (trace s) ++
      filter (fun tc => negb (isFinish tc)) (toolCalls response) /\
    result_changes result = changes s' /\
    length (changes s') = length (filter recordsChange (toolCalls response)) /\
    result_summary result
    = match rev (filter recordsChange (toolCalls response)) with
      | finish_lore_management summary :: _ => summary
      | _ => ""
      end.
Proof.
  intros Htools Hprompt Hagent Hfinish. unfold runSession.
  unfold bind at 1. cbn [fst snd]. rewrite Hprompt.
  unfold bind at 1, lift. cbn [fst snd]. unfold bind at 1.
  simpl whileNotComplete. unfold bind at 1. unfold ask at 1.
  cbn [fst snd trace changes]. rewrite Hagent. unfold bind at 1.
  destruct (forToolCalls_answered (response_content response)
              (toolCalls response) false [mkChat User text]
              (mkState [] (trace s ++ [AskAgent [mkChat User text]])) Htools)
    as (messages' & news & -> & Hnews).
  rewrite Hfinish. cbn [fst snd orb changes trace app]. unfold ret.
  eexists _, _. split; [reflexivity|]. cbn [trace changes result_changes
                                             result_summary].
  rewrite !asked_app, !executed_app, asked_Execute, executed_Execute.
  repeat split.
  - unfold asked at 2. simpl. lia.
  - simpl. now rewrite app_nil_r.
  - rewrite <- (length_map summary), Hnews, length_map. reflexivity.
  - apply lastSummary_spec, Hnews.
Qed.

End LoreFacts.

(* ===================================================================== *)
(** * Properties of the lorebook import *)
(* ===================================================================== *)

Section STImportFacts.

Import STImport.

Variable EntryType : Type.
Variable EntryState : Type.
Variable Id : Type.
Variable inferType : STLorebookEntry -> EntryType.
Variable inferInitialState : STLorebookEntry -> EntryState.
Variable generateId : nat -> Id.

Local Abbreviation convertEntries :=
  (convertEntries inferType inferInitialState generateId).
Local Abbreviation convertEntry :=
  (convertEntry _ _ _ inferType inferInitialState generateId).

Lemma convertEntries_nth (stEntries : list STLorebookEntry) (calls i : nat)
  (stEntry : STLorebookEntry) :
  nth_error stEntries i = Some stEntry ->
  nth_error (fst (convertEntries stEntries calls)) i
  = Some (convertEntry (calls + i) stEntry).
Proof.
  revert calls i. induction stEntries as [|e rest IH]; intros calls i Hnth.
  - destruct i; discriminate.
  - destruct i as [|i]; simpl in *.
    + injection Hnth as ->. now rewrite Nat.add_0_r.
    + rewrite (IH (S calls) i Hnth). do 2 f_equal. lia.
Qed.

Lemma convertEntries_length (stEntries : list STLorebookEntry) (calls : nat) :
  length (fst (convertEntries stEntries calls)) = length stEntries /\
  snd (convertEntries stEntries calls) = calls + length stEntries.
Proof.
  revert calls. induction stEntries as [|e rest IH]; intro calls; simpl.
  - split; [reflexivity | lia].
  - destruct (IH (S calls)) as [-> ->]. split; [reflexivity | lia].
Qed.

(** X19 (design.md B.1, [convertSTLorebook]): the import gives one entry per
    lorebook entry, in the same order, and calls [generateId] once for each,
    in that order.  An imported entry is never nameless, and its injection
    keywords are the keys of its source.  When the first key is not empty,
    the name followed by the aliases are the keywords; when it is missing or
    empty the name is 'Unnamed', and an empty first key stays among the
    keywords although it is neither the name nor an alias.  The entry is
    never injected exactly when its source is disabled. *)
Theorem imported_entries_keep_their_keys
  (stLorebook : STLorebook) (calls i : nat) (stEntry : STLorebookEntry) :
  let converted :=
    convertSTLorebook inferType inferInitialState generateId stLorebook calls
  in
  nth_error (entries stLorebook) i = Some stEntry ->
  length (fst converted) = length (entries stLorebook) /\
  snd converted = calls + length (entries stLorebook) /\
  exists entry,
    nth_error (fst converted) i = Some entry /\
    id entry = generateId (calls + i) /\
    name entry <> "" /\
    keywords (injection entry) = key stEntry /\
    (hd "" (key stEntry) <> "" ->
     name entry :: aliases entry = keywords (injection entry)) /\
    (hd "" (key stEntry) = "" ->
     name entry = "Unnamed" /\
     (key stEntry = [] \/
      keywords (injection entry) = "" :: aliases entry)) /\
    (mode (injection entry) = never <->
     disable (extensions stEntry) = Some true).
Proof.
  intros converted Hnth. subst converted. unfold convertSTLorebook.
  destruct (convertEntries_length (entries stLorebook) calls) as [Hlen Hnext].
  split; [exact Hlen|]. split; [exact Hnext|].
  eexists. split; [apply convertEntries_nth, Hnth|]. simpl.
  split; [reflexivity|]. split; [|split; [reflexivity|split; [|split]]].
  - unfold nameOf. destruct (key stEntry) as [|first rest]; [discriminate|].
    destruct (String.eqb first "") eqn:Hfirst; [discriminate|].
    now apply String.eqb_neq in Hfirst.
  - unfold nameOf. destruct (key stEntry) as [|first rest]; simpl;
      [congruence|].
    intros Hfirst. apply String.eqb_neq in Hfirst. rewrite Hfirst.
    reflexivity.
  - unfold nameOf. destruct (key stEntry) as [|first rest]; simpl.
    + intros _. split; [reflexivity | left; reflexivity].
    + intros ->. split; [reflexivity | right; reflexivity].
  - unfold modeOf. destruct (disable (extensions stEntry)) as [[|]|];
      split; congruence.
Qed.

End STImportFacts.

(* ===================================================================== *)
(** * Further properties of the base service *)
(* ===================================================================== *)

Section CallLLMSettings.

Import BaseAIService.

Context {T : Type}.
Variables (svc : Service) (options : CallLLMOptions T).



End CallLLMSettings.

(* ===================================================================== *)
(** * Properties of the translation service *)
(* ===================================================================== *)

Section TranslationFacts.

Import BaseAIService TranslationService.

Variable Item : Type.
Variable rt : Runtime Item.
Variable svc : Service.

(** One request, when it can be built. *)
Lemma request_run (systemPrompt userPrompt : string) (t : Trace) :
  request svc systemPrompt userPrompt t
  = match requestFor svc systemPrompt userPrompt with
    | Throw e => (Throw e, t)
    | Ok req =>
        (generateResponse svc (length (requests t)) req,
         mkTrace (requests t ++ [req]) (logged t))
    end.
Proof.
  unfold request, bind, lift, send.
  destruct (requestFor svc systemPrompt userPrompt); reflexivity.
Qed.

(** The shared body of the three text translations, case by case. *)
Lemma translateText_cases
  (template called done failed language content : string) (t : Trace) :
  let out :=
    translateText rt svc template called done failed language content t in
  match renderPrompt rt template language,
        renderUserPrompt rt template content with
  | Throw e, _ => fst out = Throw e /\ requests (snd out) = requests t
  | Ok _, Throw e => fst out = Throw e /\ requests (snd out) = requests t
  | Ok systemPrompt, Ok userPrompt =>
      match requestFor svc systemPrompt userPrompt with
      | Throw e => fst out = Throw e /\ requests (snd out) = requests t
      | Ok req =>
          requests (snd out) = requests t ++ [req] /\
          fst out
          = match generateResponse svc (length (requests t)) req with
            | Ok response =>
                Ok (mkTranslation (trim rt (response_content response)) None)
            | Throw e => Throw e
            end
      end
  end.
Proof.
  intro out. subst out.
  unfold translateText, note, log, say, tryCatch, bind, lift, ret, throw.
  destruct (renderPrompt rt template language) as [systemPrompt|e];
    [|split; reflexivity].
  destruct (renderUserPrompt rt template content) as [userPrompt|e];
    [|split; reflexivity].
  rewrite request_run. cbn [requests logged].
  destruct (requestFor svc systemPrompt userPrompt) as [req|e];
    [|split; reflexivity].
  destruct (generateResponse svc _ req) as [response|e];
    split; reflexivity.
Qed.

(** The shared body of the three list translations, case by case. *)
Lemma translateList_cases
  (template called unparsed done failed : string)
  (items : list Item) (language : string) (t : Trace) :
  let out :=
    translateList rt svc template called unparsed done failed items language t
  in
  if match items with [] => true | _ => String.eqb language "en" end
  then out = (Ok items, t)
  else
    match renderPrompt rt template (getLanguageName rt language),
          renderUserPrompt rt template (stringify rt items) with
    | Throw e, _ => fst out = Throw e /\ requests (snd out) = requests t
    | Ok _, Throw e => fst out = Throw e /\ requests (snd out) = requests t
    | Ok systemPrompt, Ok userPrompt =>
        match requestFor svc systemPrompt userPrompt with
        | Throw e => fst out = Ok items /\ requests (snd out) = requests t
        | Ok req =>
            requests (snd out) = requests t ++ [req] /\
            fst out
            = Ok match generateResponse svc (length (requests t)) req with
                 | Ok response =>
                     match tryParseJsonWithHealing rt
                             (response_content response) with
                     | ParsedArray parsed => parsed
                     | _ => items
                     end
                 | Throw _ => items
                 end
        end
    end.
Proof.
  intro out. subst out. unfold translateList.
  destruct items as [|item items]; [reflexivity|].
  destruct (String.eqb language "en"); [reflexivity|].
  unfold note, log, say, tryCatch, bind, lift, ret.
  destruct (renderPrompt rt template _) as [systemPrompt|e];
    [|split; reflexivity].
  destruct (renderUserPrompt rt template _) as [userPrompt|e];
    [|split; reflexivity].
  rewrite request_run. cbn [requests logged].
  destruct (requestFor svc systemPrompt userPrompt) as [req|e];
    [|split; reflexivity].
  destruct (generateResponse svc _ req) as [response|e];
    [|split; reflexivity].
  destruct (tryParseJsonWithHealing rt (response_content response));
    split; reflexivity.
Qed.

(** What a text translation does once it is past its shortcut. *)
Lemma translateText_outcome
  (template called done failed language content : string) (t : Trace) :
  let out :=
    translateText rt svc template called done failed language content t in
  (requests (snd out) = requests t /\ exists e, fst out = Throw e) \/
  (exists req,
      requests (snd out) = requests t ++ [req] /\
      fst out
      = match generateResponse svc (length (requests t)) req with
        | Ok response =>
            Ok (mkTranslation (trim rt (response_content response)) None)
        | Throw e => Throw e
        end).
Proof.
  intro out.
  pose proof (translateText_cases template called done failed language
                content t) as H.
  fold out in H. cbv zeta in H.
  destruct (renderPrompt rt template language) as [systemPrompt|e];
    [|destruct H; eauto].
  destruct (renderUserPrompt rt template content) as [userPrompt|e];
    [|destruct H; eauto].
  destruct (requestFor svc systemPrompt userPrompt) as [req|e];
    [|destruct H; eauto].
  destruct H. right. eauto.
Qed.

(** X21 (TranslationService.ts, [translateNarration],
    [translateWizardContent], [translateInput]): a text translation sends at
    most one request.  Either it takes the English shortcut and returns the
    content untouched without a request; or it rejects before anything is
    sent; or it sends one request, and then it resolves with the trimmed
    answer or rejects with the very error of the provider: unlike [callLLM],
    these methods hand a provider failure on to the caller.  [translateInput]
    has no English shortcut: whenever it resolves, it has sent a request. *)
Theorem text_translation_rethrows
  (content language : string) (visual : bool)
  (translate : IO TranslationResult) (t : Trace) :
  In translate [translateNarration rt svc content language visual;
                translateWizardContent rt svc content language;
                translateInput rt svc content language] ->
  let out := translate t in
  ((language = "en" /\ out = (Ok (mkTranslation content None), t)) \/
   (requests (snd out) = requests t /\ exists e, fst out = Throw e) \/
   (exists req,
       requests (snd out) = requests t ++ [req] /\
       fst out
       = match generateResponse svc (length (requests t)) req with
         | Ok response =>
             Ok (mkTranslation (trim rt (response_content response)) None)
         | Throw e => Throw e
         end)) /\
  (forall result,
      fst (translateInput rt svc content language t) = Ok result ->
      length (requests (snd (translateInput rt svc content language t)))
      = S (length (requests t))).
Proof.
  intros Hin out. split.
  - subst out. destruct Hin as [<-|[<-|[<-|[]]]].
    + unfold translateNarration.
      destruct (String.eqb language "en") eqn:Hen.
      * left. apply String.eqb_eq in Hen. auto.
      * right. apply translateText_outcome.
    + unfold translateWizardContent.
      destruct (String.eqb language "en") eqn:Hen.
      * left. apply String.eqb_eq in Hen. auto.
      * right. apply translateText_outcome.
    + right. apply translateText_outcome.
  - intros result Hok. unfold translateInput in *.
    match goal with
    | |- context [translateText rt svc ?a ?b ?c ?d ?e ?f t] =>
        destruct (translateText_outcome a b c d e f t)
          as [[_ [e' Hthrow]]|[req [Hreq _]]]
    end.
    + rewrite Hthrow in Hok. discriminate.
    + rewrite Hreq, length_app. simpl. lia.
Qed.

(** X22 (TranslationService.ts, [translateUIElements],
    [translateSuggestions], [translateActionChoices]): a list translation
    sends at most one request and never loses the caller's items to a
    failure.  An empty list and an English target return the input without a
    request.  Once a request is sent the method resolves: with the parsed
    array when the answer parses to an array, and with the items it was
    given when the provider rejects or the answer is anything else.  It can
    reject only before a request is sent, when a prompt cannot be
    rendered. *)
Theorem list_translation_falls_back
  (items : list Item) (language : string)
  (translate : list Item -> string -> IO (list Item)) (t : Trace) :
  In translate [translateUIElements rt svc; translateSuggestions rt svc;
                translateActionChoices rt svc] ->
  let out := translate items language t in
  (items = [] \/ language = "en" -> out = (Ok items, t)) /\
  (requests (snd out) = requests t \/
   exists req,
     requests (snd out) = requests t ++ [req] /\
     fst out
     = Ok match generateResponse svc (length (requests t)) req with
          | Ok response =>
              match tryParseJsonWithHealing rt (response_content response) with
              | ParsedArray parsed => parsed
              | _ => items
              end
          | Throw _ => items
          end) /\
  (forall e,
      fst out = Throw e ->
      requests (snd out) = requests t /\
      exists template text,
        renderPrompt rt template text = Throw e \/
        renderUserPrompt rt template text = Throw e).
Proof.
  intros Hin out.
  assert (exists template called unparsed done failed,
             translate
             = translateList rt svc template called unparsed done failed)
    as (template & called & unparsed & done & failed & ->).
  { destruct Hin as [<-|[<-|[<-|[]]]]; do 5 eexists; reflexivity. }
  pose proof (translateList_cases template called unparsed done failed
                items language t) as H.
  fold out in H. cbv zeta in H.
  split; [|split].
  - intros [-> | ->].
    + exact H.
    + destruct items; exact H.
  - destruct (match items with [] => true | _ => String.eqb language "en" end).
    + rewrite H. auto.
    + destruct (renderPrompt rt template _) as [systemPrompt|e];
        [|destruct H; auto].
      destruct (renderUserPrompt rt template _) as [userPrompt|e];
        [|destruct H; auto].
      destruct (requestFor svc systemPrompt userPrompt) as [req|e];
        [|destruct H; auto].
      right. exists req. exact H.
  - intros e Hthrow.
    destruct (match items with [] => true | _ => String.eqb language "en" end).
    + rewrite H in Hthrow. discriminate.
    + destruct (renderPrompt rt template _) as [systemPrompt|e1] eqn:Hsys.
      * destruct (renderUserPrompt rt template _) as [userPrompt|e2]
          eqn:Husr.
        -- destruct (requestFor svc systemPrompt userPrompt) as [req|e3];
             destruct H as [H1 H2]; rewrite ?H1, ?H2 in Hthrow;
             discriminate.
        -- destruct H as [H1 H2]. rewrite H1 in Hthrow.
           injection Hthrow as <-. eauto.
      * destruct H as [H1 H2]. rewrite H1 in Hthrow.
        injection Hthrow as <-. eauto.
Qed.

(** [record[key] = value] on a key the record has. *)
Lemma assign_keys (key value : string) (record : list (string * string)) :
  In key (map fst record) ->
  map fst (assign key value record) = map fst record.
Proof.
  induction record as [|[k v] rest IH]; simpl; [tauto|].
  intros [Hk|Hin].
  - subst k. now rewrite String.eqb_refl.
  - destruct (String.eqb key k) eqn:Hkey; simpl; [reflexivity|].
    now rewrite IH.
Qed.

Lemma assign_In (key value k v : string) (record : list (string * string)) :
  In (k, v) (assign key value record) ->
  In (k, v) record \/ (k = key /\ v = value).
Proof.
  induction record as [|[k' v'] rest IH]; simpl.
  - intros [H|[]]. injection H as <- <-. auto.
  - destruct (String.eqb key k') eqn:Hkey; simpl.
    + apply String.eqb_eq in Hkey. subst k'.
      intros [H|H]; [injection H as <- <-|]; auto.
    + intros [H|H]; [auto|]. destruct (IH H); auto.
Qed.

Lemma assign_other (key value k v : string) (record : list (string * string)) :
  In (k, v) record -> k <> key -> In (k, v) (assign key value record).
Proof.
  induction record as [|[k' v'] rest IH]; simpl; [tauto|].
  intros [H|H] Hne.
  - injection H as -> ->.
    destruct (String.eqb key k) eqn:Hkey; simpl; auto.
    apply String.eqb_eq in Hkey. congruence.
  - destruct (String.eqb key k'); simpl; auto.
Qed.

(** What the loop over the matches keeps: the keys, the fields whose key is
    not numbered, and values that are the caller's or the trimmed, non-empty
    text of a match whose number is the place of the key. *)
Lemma applyMatches_keeps (fields : list (string * string))
  (fieldKeys : list string) (answer matches : list (Z * string))
  (result : list (string * string)) :
  let matched (k v : string) :=
    v <> "" /\
    exists number raw,
      In (number, raw) answer /\
      (1 <= number)%Z /\
      nth_error fieldKeys (Z.to_nat (number - 1)) = Some k /\
      v = trim rt raw in
  (forall k, In k fieldKeys -> In k (map fst fields)) ->
  incl matches answer ->
  map fst result = map fst fields ->
  (forall k v, In (k, v) fields -> ~ In k fieldKeys -> In (k, v) result) ->
  (forall k v, In (k, v) result -> In (k, v) fields \/ matched k v) ->
  let final := applyMatches rt fieldKeys matches result in
  map fst final = map fst fields /\
  (forall k v, In (k, v) fields -> ~ In k fieldKeys -> In (k, v) final) /\
  (forall k v, In (k, v) final -> In (k, v) fields \/ matched k v).
Proof.
  intros matched Hkeys. revert result.
  induction matches as [|[number raw] rest IH]; intros result Hincl H1 H2 H3;
    simpl; [auto|].
  apply IH.
  - intros m Hm. apply Hincl. right. exact Hm.
  - destruct (_ && _ && _); [|exact H1].
    destruct (nth_error fieldKeys _) as [key|] eqn:Hnth; [|exact H1].
    rewrite assign_keys; [exact H1|].
    rewrite H1. apply Hkeys. eapply nth_error_In, Hnth.
  - intros k v Hin Hnot.
    destruct (_ && _ && _); [|auto].
    destruct (nth_error fieldKeys _) as [key|] eqn:Hnth; [|auto].
    apply assign_other; [auto|].
    intros ->. apply Hnot. eapply nth_error_In, Hnth.
  - intros k v Hin.
    destruct ((0 <=? number - 1)%Z && _ &&
              negb (String.eqb (trim rt raw) "")) eqn:Hcond; [|auto].
    destruct (nth_error fieldKeys _) as [key|] eqn:Hnth; [|auto].
    destruct (assign_In _ _ _ _ _ Hin) as [Hold|[-> ->]]; [auto|].
    right. apply andb_true_iff in Hcond as [Hrange Hvalue].
    apply andb_true_iff in Hrange as [Hlow _]. apply Z.leb_le in Hlow.
    apply negb_true_iff, String.eqb_neq in Hvalue.
    split; [exact Hvalue|]. exists number, raw.
    split; [apply Hincl; left; reflexivity|].
    split; [lia|]. split; [exact Hnth | reflexivity].
Qed.

(** X23 (TranslationService.ts, [translateWizardBatch]): whatever the
    provider answers, a batch translation that resolves returns a record
    with exactly the keys it was given, in the same order.  A field whose
    value is empty or blank is returned as it was.  Every other value is
    either the caller's own, or it comes from the provider's answer to the
    one request sent: it is the trimmed, non-empty text of a numbered item
    matched in the trimmed answer, and the number of that item is the place
    of the field among the fields that are not blank, counted from 1.  With
    an English target, or when every field is blank, the fields are returned
    without a request. *)
Theorem wizard_batch_keeps_the_fields
  (fields result : list (string * string)) (language : string) (t : Trace) :
  NoDup (map fst fields) ->
  let out := translateWizardBatch rt svc fields language t in
  fst out = Ok result ->
  map fst result = map fst fields /\
  (forall key value,
      In (key, value) fields -> blank rt value = true ->
      In (key, value) result) /\
  (forall key value,
      In (key, value) result ->
      In (key, value) fields \/
      (value <> "" /\
       (exists original,
           In (key, original) fields /\ blank rt original = false) /\
       exists req response number raw,
         requests (snd out) = requests t ++ [req] /\
         generateResponse svc (length (requests t)) req = Ok response /\
         In (number, raw)
            (itemMatches rt (trim rt (response_content response))) /\
         (1 <= number)%Z /\
         nth_error (map fst (nonEmptyFields rt fields))
                   (Z.to_nat (number - 1)) = Some key /\
         value = trim rt raw)) /\
  (language = "en" \/ nonEmptyFields rt fields = [] ->
   out = (Ok fields, t)).
Proof.
  intros Hnodup out Hok. subst out.
  assert (forall k, In k (map fst (nonEmptyFields rt fields)) ->
                    exists original,
                      In (k, original) fields /\ blank rt original = false)
    as Hnumbered.
  { intros k Hin. apply in_map_iff in Hin as ([k' v] & <- & Hin).
    apply filter_In in Hin as [Hin Hblank].
    exists v. split; [exact Hin|]. now apply negb_true_iff in Hblank. }
  assert (forall k v, In (k, v) fields -> blank rt v = true ->
                      ~ In k (map fst (nonEmptyFields rt fields)))
    as Hblank.
  { intros k v Hin Hb Hk. destruct (Hnumbered k Hk) as (original & Hin' & Hb').
    assert (v = original); [|congruence].
    clear - Hnodup Hin Hin'.
    induction fields as [|[k0 v0] rest IH]; simpl in *; [tauto|].
    inversion Hnodup as [|? ? Hnot Hrest]; subst.
    destruct Hin as [H|H], Hin' as [H'|H'].
    - congruence.
    - injection H as -> ->. exfalso. apply Hnot.
      apply in_map_iff. exists (k, original). auto.
    - injection H' as -> ->. exfalso. apply Hnot.
      apply in_map_iff. exists (k, v). auto.
    - auto. }
  unfold translateWizardBatch in *.
  destruct (String.eqb language "en") eqn:Hen.
  { injection Hok as <-. repeat split; auto. }
  destruct (nonEmptyFields rt fields) as [|field others] eqn:Hnonempty.
  { injection Hok as <-. repeat split; auto. }
  revert Hok. set (fieldKeys := map fst (field :: others)) in *.
  unfold note, log, say, tryCatch, bind, ret, throw. rewrite request_run.
  cbn [requests logged].
  destruct (requestFor svc _ _) as [req|e]; [|discriminate].
  destruct (generateResponse svc (length (requests t)) req)
    as [response|e] eqn:Hresponse; [|discriminate].
  cbn [fst snd].
  set (answer := itemMatches rt (trim rt (response_content response))) in *.
  destruct (applyMatches_keeps fields fieldKeys answer answer fields)
    as (Hkeys & Hkept & Hvalues); auto.
  { intros k Hin. destruct (Hnumbered k Hin) as (original & Hin' & _).
    apply in_map_iff. exists (k, original). auto. }
  { apply incl_refl. }
  set (final := applyMatches rt fieldKeys answer fields) in *.
  destruct (_ <? _); cbn [fst snd requests]; intro Hok; injection Hok as <-.
  all: split; [exact Hkeys|]; split; [|split].
  all: try (intros key value Hin Hb; apply Hkept; eauto).
  all: try (intros key value Hin;
            destruct (Hvalues key value Hin)
              as [|(Hne & number & raw & Hmatch & Hlow & Hnth & Hraw)];
            [auto |
             right; split; [exact Hne|]; split;
             [apply Hnumbered; eapply nth_error_In, Hnth|];
             exists req, response, number, raw; repeat split; auto]).
  all: intros [->|Hnone]; [discriminate Hen | discriminate Hnone].
Qed.

End TranslationFacts.

(* ===================================================================== *)
(** * Properties of the service factory *)
(* ===================================================================== *)

Section ServiceFactoryFacts.

Import ServiceFactory.

Variable settings : Settings.

(** The outcome of [getProviderForProfileId], by the settings of the
    profile. *)
Lemma getProviderForProfileId_cases (profileId : string)
  (contextLabel : option string) (logged : list string) :
  match getApiSettingsForProfile settings profileId with
  | Throw e =>
      getProviderForProfileId settings profileId contextLabel logged
      = (Threw (Raised e), logged)
  | Ok found =>
      if keyMissing found
      then exists message,
          getProviderForProfileId settings profileId contextLabel logged
          = (Threw (ErrorMessage message),
             logged ++ ["Getting provider for profile"])
      else getProviderForProfileId settings profileId contextLabel logged
           = (Returned (mkProvider found),
              logged ++ ["Getting provider for profile"])
  end.
Proof.
  unfold getProviderForProfileId.
  destruct (getApiSettingsForProfile settings profileId) as [found|e];
    [|reflexivity].
  destruct (keyMissing found); [|reflexivity].
  destruct contextLabel as [label|]; [destruct (String.eqb label "")|];
    eexists; reflexivity.
Qed.

(** X24 (ServiceFactory, [getProviderForProfile], [getMainProvider],
    [tryGetProviderForProfile], [createContextBuilder]): the factory never
    hands out a provider without an API key.  A provider it returns was made
    from the settings of the resolved profile (the main narrative profile
    when the profile id is null), and these hold a non-empty key.
    [tryGetProviderForProfile] and [createContextBuilder] never throw: they
    give a provider exactly when the throwing getter returns one, and null
    otherwise.  A missing key of the main profile is reported as 'No API key
    configured for main narrative profile'. *)
Theorem providers_carry_an_api_key
  (profileId : option string) (logged : list string) :
  let resolved :=
    match profileId with
    | Some given => given
    | None => mainNarrativeProfileId settings
    end in
  let main := mainNarrativeProfileId settings in
  let keyed (profile : string) (provider : OpenAIProvider) :=
    getApiSettingsForProfile settings profile = Ok (apiSettings provider) /\
    keyMissing (apiSettings provider) = false in
  (forall provider logged',
      getProviderForProfile settings profileId logged
      = (Returned provider, logged') ->
      keyed resolved provider) /\
  (exists logged',
      tryGetProviderForProfile settings profileId logged
      = (Returned
           match fst (getProviderForProfile settings profileId logged) with
           | Returned provider => Some provider
           | Threw _ => None
           end, logged')) /\
  (forall (Config : Type) (config : option Config),
      exists builder logged',
        createContextBuilder settings config logged
        = (Returned builder, logged') /\
        builderConfig builder = config /\
        match builderProvider builder with
        | Some provider => keyed main provider
        | None =>
            exists t, fst (getMainProvider settings logged) = Threw t
        end) /\
  (forall found,
      getApiSettingsForProfile settings main = Ok found ->
      keyMissing found = true ->
      fst (getMainProvider settings logged)
      = Threw (ErrorMessage
                 "No API key configured for main narrative profile")).
Proof.
  intros resolved main keyed. subst keyed. cbv beta.
  split; [|split; [|split]].
  - intros provider logged' Hget. unfold getProviderForProfile in Hget.
    fold resolved in Hget.
    pose proof (getProviderForProfileId_cases resolved None logged) as H.
    destruct (getApiSettingsForProfile settings resolved) as [found|e];
      [|congruence].
    destruct (keyMissing found) eqn:Hkey.
    + destruct H as [message H]. congruence.
    + rewrite H in Hget. injection Hget as <- _. simpl. auto.
  - unfold tryGetProviderForProfile.
    destruct (getProviderForProfile settings profileId logged)
      as [[provider|t] logged']; eexists; reflexivity.
  - intros Config config. unfold createContextBuilder, getMainProvider.
    fold main.
    pose proof (getProviderForProfileId_cases main (Some "main narrative")
                  logged) as H.
    destruct (getApiSettingsForProfile settings main) as [found|e].
    + destruct (keyMissing found) eqn:Hkey.
      * destruct H as [message ->]. eexists _, _.
        split; [reflexivity|]. simpl. eauto.
      * rewrite H. eexists _, _. split; [reflexivity|]. simpl. auto.
    + rewrite H. eexists _, _. split; [reflexivity|]. simpl. eauto.
  - intros found Hfound Hkey. unfold getMainProvider, getProviderForProfileId.
    fold main. rewrite Hfound, Hkey. reflexivity.
Qed.

End ServiceFactoryFacts.

(* ===================================================================== *)
(** * The history of committed chapters *)
(* ===================================================================== *)

Section MemoryHistory.

Import Memory.

Variable mdl : Model.

(** The signals that ask for a chapter. *)
Local Abbreviation asking :=
  (filter (fun event => shouldCreateChapter (chapterAnalysis event))).

(** X10 (design.md A.1, [handleClassificationComplete] and [createChapter]):
    the committed chapters are append-only and densely numbered.  Whatever
    signals arrive and however the creations end, the chapters stay numbered
    1, 2, ..., count; a chapter once committed is never removed or changed;
    every chapter added ends at the endpoint of one of the signals that asked
    for a chapter; and at most one chapter is added per such signal. *)
Theorem committed_chapters_only_grow
  (events : list ClassificationEvent) (w : World) :
  numbered w ->
  let w' := handleAll mdl events w in
  numbered w' /\
  exists added,
    st_chapters w' = st_chapters w ++ added /\
    length added <= length (asking events) /\
    Forall (fun ch =>
              exists event ep,
                In event (asking events) /\
                suggestedEndpoint (chapterAnalysis event) = Some ep /\
                endMessageId ch = ep_endMessageId ep) added.
Proof.
  intros Hw w'. split; [apply handleAll_numbered, Hw|]. subst w'. clear Hw.
  revert w. induction events as [|event rest IH]; intro w.
  - exists []. simpl. rewrite app_nil_r. auto.
  - cbn [handleAll filter].
    destruct (shouldCreateChapter (chapterAnalysis event)) eqn:Hflag.
    + rewrite (handler_with_signal _ _ _ Hflag).
      destruct (createChapter mdl (suggestedEndpoint (chapterAnalysis event)) w)
        as [[ch|e] w1] eqn:E; cbn [snd];
        destruct (IH w1) as (added & Hadded & Hlen & Hall).
      * destruct (suggestedEndpoint (chapterAnalysis event)) as [ep|] eqn:Hep;
          [|discriminate].
        destruct (createChapter_stores _ _ _ _ _ E) as (Hstore & _ & Hend).
        exists (ch :: added). rewrite Hadded, Hstore, <- app_assoc.
        split; [reflexivity|]. split; [simpl; lia|].
        constructor.
        -- exists event, ep. simpl. auto.
        -- eapply Forall_impl; [|exact Hall].
           intros c (ev & ep' & Hin & H1 & H2). exists ev, ep'. simpl. auto.
      * rewrite (createChapter_throw _ _ _ _ _ E) in Hadded.
        exists added. split; [exact Hadded|]. split; [simpl; lia|].
        eapply Forall_impl; [|exact Hall].
        intros c (ev & ep' & Hin & H1 & H2). exists ev, ep'. simpl. auto.
    + rewrite (handler_without_signal _ _ _ Hflag). cbn [snd].
      exact (IH w).
Qed.

End MemoryHistory.

(* ===================================================================== *)
(** * Runs of the further properties *)
(* ===================================================================== *)

Section MemoryScenes.

Import Memory Samples Scenes.

(** Chapter 3 of the five-chapter story is listed, summarized and asked. *)
Lemma listed_chapters_are_found_witness :
  get_chapter_summary 3 fiveChapterStory
  = (Ok (mkChapterSummary 3 "summary 3" [] [] []), fiveChapterStory) /\
  fst (query_chapter model 3 "why?" fiveChapterStory)
  = Ok (mkQueryResult 3 "why?" "answer from chapter 3").
Proof.
  destruct (listed_chapters_are_found model fiveChapterStory
              (chapterOf 3 21 30) "why?") as (_ & _ & Hsum & _ & Hask).
  - vm_compute. reflexivity.
  - simpl. auto.
  - split; [exact Hsum | exact Hask].
Defined.

(** The five-chapter story has no chapter 0 and no chapter 6. *)
Lemma missing_chapter_is_rejected_witness :
  query_chapter model 0 "who?" fiveChapterStory
  = (Throw (ChapterNotFound 0), fiveChapterStory) /\
  get_chapter_summary 6 fiveChapterStory
  = (Throw (ChapterNotFound 6), fiveChapterStory).
Proof.
  split.
  - apply (missing_chapter_is_rejected model fiveChapterStory 0 "who?").
    + vm_compute. reflexivity.
    + left. reflexivity.
  - apply (missing_chapter_is_rejected model fiveChapterStory 6 "who?").
    + vm_compute. reflexivity.
    + right. vm_compute. lia.
Defined.



(** A name [tools] inherits is served: the retrieval goes on and gathers the
    inherited method's value. *)
Example inherited_tool_call_is_served :
  fst (agenticRetrieval pryingModel config "look around" fiveChapters
         fiveChapterStory)
  = Ok (mkContext [PrototypeValue "toString"] 0).
Proof. vm_compute. reflexivity. Qed.

(** With no iteration allowed the agent is never asked. *)
Lemma agentic_retrieval_without_iterations_witness :
  agenticRetrieval model noIterations "look around" fiveChapters
    fiveChapterStory
  = (Ok (mkContext [] 0), fiveChapterStory).
Proof.
  apply (agentic_retrieval_without_iterations model noIterations).
  vm_compute. discriminate.
Defined.

(** Three signals on the four-turn story, two of them asking for a chapter:
    the first is committed as chapter 1, the second is refused by the
    index. *)
Lemma committed_chapters_only_grow_witness :
  numbered (handleAll model [boundaryAt 3; noBoundary; boundaryAt 4]
              freshStory) /\
  length (st_chapters (handleAll model [boundaryAt 3; noBoundary; boundaryAt 4]
                         freshStory)) = 1.
Proof.
  destruct (committed_chapters_only_grow model
              [boundaryAt 3; noBoundary; boundaryAt 4] freshStory eq_refl)
    as (Hnumbered & _).
  split; [exact Hnumbered|]. vm_compute. reflexivity.
Defined.

End MemoryScenes.

Section ModuleScenes.

Import Scenes.

Lemma splitSentences_splits (current text : string) :
  (Narrator.joined (fst (splitSentences current text)) ++
   snd (splitSentences current text))%string
  = (current ++ text)%string.
Proof.
  revert current. induction text as [|c rest IH]; intro current; simpl.
  - now rewrite string_app_nil_r.
  - destruct (Ascii.eqb c "."%char).
    + cbn [fst snd].
      change (Narrator.joined (?x :: ?l))
        with (Narrator.joined ([x] ++ l)).
      rewrite joined_app, string_app_assoc, (IH EmptyString).
      unfold Narrator.joined. simpl. rewrite !string_app_assoc.
      reflexivity.
    + rewrite IH, string_app_assoc. reflexivity.
Qed.

(** Three chunks, one complete sentence, and the unfinished rest. *)
Lemma narrator_sentences_cover_the_stream_witness :
  exists events remainder,
    Narrator.emitted
      (snd (Narrator.handleContextReady narratorHost lookAround quietBus))
    = events /\
    (Narrator.joined (Narrator.sentencesOf events) ++ remainder)%string
    = "The door opens. A draft".
Proof.
  destruct (narrator_sentences_cover_the_stream narratorHost lookAround
              quietBus ["The door "; "opens. A "; "draft"] None)
    as (events & remainder & Hevents & Hjoined).
  - intro buffer. apply (splitSentences_splits EmptyString buffer).
  - reflexivity.
  - exists events, remainder. split; [exact Hevents | exact Hjoined].
Defined.

(** Three wanted jobs and one settled generation: two are active, none
    waits, and three were started. *)
Lemma vision_generations_are_bounded_witness :
  exists s,
    Vision.run _ snd sampleJob visionSteps Vision.initial = Some s /\
    Vision.activeGenerations s <= 2 /\
    StronglySorted (Vision.byPriority _ snd) (Vision.queue s).
Proof.
  eexists. split; [vm_compute; reflexivity|].
  destruct (vision_generations_are_bounded (string * Z) snd sampleJob
              visionSteps _ eq_refl) as (Hbound & _ & Hsorted).
  split; [exact Hbound | exact Hsorted].
Defined.

Lemma vision_jobs_are_conserved_witness :
  exists s,
    Vision.run _ snd sampleJob visionSteps Vision.initial = Some s /\
    Permutation (Vision.started s ++ Vision.queue s)
      [("a picture of the old lighthouse", 18%Z); ("a picture of a key", 5%Z);
       ("a picture of the harbour", 11%Z)] /\
    length (Vision.started s) = Vision.activeGenerations s + 1.
Proof.
  eexists. split; [vm_compute; reflexivity|].
  exact (vision_jobs_are_conserved (string * Z) snd sampleJob visionSteps _
           eq_refl).
Defined.

(** Two segments arrive while nothing fails: the first plays, the second
    waits. *)
Lemma tts_plays_in_synthesis_order_witness :
  exists s,
    TTS.run speechSteps TTS.initial = Some s /\
    TTS.played s ++ TTS.queue s = ["one"; "two"] /\
    TTS.playback s = TTS.isPlaying s.
Proof.
  eexists. split; [vm_compute; reflexivity|].
  destruct (tts_plays_in_synthesis_order string speechSteps _ eq_refl)
    as (Horder & Hhealthy).
  split; [exact Horder|]. exact (proj1 (Hhealthy eq_refl)).
Defined.

(** The first playback fails: the second and third segments are never
    played. *)
Lemma tts_stalls_after_failed_playback_witness :
  exists s',
    TTS.run (speechSteps ++ [TTS.PlaybackFailed] ++ laterSpeech) TTS.initial
    = Some s' /\
    TTS.isPlaying s' = true /\ TTS.played s' = ["one"] /\
    TTS.queue s' = ["two"; "three"].
Proof.
  eexists. split; [vm_compute; reflexivity|].
  destruct (tts_stalls_after_failed_playback string speechSteps laterSpeech
              (TTS.mkState ["two"] true false ["one"]) _ eq_refl eq_refl)
    as (Hplaying & _ & Hplayed & Hqueue).
  split; [exact Hplaying|]. split; [exact Hplayed | exact Hqueue].
Defined.

Lemma loreHost_answers (agent : nat -> LoreManagement.AgentResponse string) :
  LoreManagement.toolsAnswer (loreHost agent).
Proof. repeat split. Qed.

(** A browsing agent: after 25 turns the session is still running. *)
Lemma lore_session_has_no_cap_witness :
  exists s',
    LoreManagement.runSession browsingHost 25 noSession = (Ok None, s') /\
    LoreManagement.asked (LoreManagement.trace s') = 25.
Proof.
  apply (lore_session_has_no_cap string string browsingHost 25
           "Tidy the lore." noSession).
  - apply loreHost_answers.
  - intros n messages. eexists. split; reflexivity.
  - reflexivity.
Defined.

(** A hasty agent: the deletion after the finish call is executed, and the
    summary is lost. *)
Lemma lore_finish_does_not_end_the_turn_witness :
  exists result s',
    LoreManagement.runSession hastyHost 1 noSession = (Ok (Some result), s') /\
    LoreManagement.executed (LoreManagement.trace s')
    = [LoreManagement.delete_entry "entry_7"] /\
    LoreManagement.result_summary result = "".
Proof.
  destruct (lore_finish_does_not_end_the_turn string string hastyHost 0
              "Tidy the lore."
              (LoreManagement.mkResponse "done"
                 [LoreManagement.finish_lore_management "merged two entries";
                  LoreManagement.delete_entry "entry_7"])
              noSession)
    as (result & s' & Hrun & _ & Hexecuted & _ & _ & Hsummary).
  - apply loreHost_answers.
  - reflexivity.
  - reflexivity.
  - reflexivity.
  - exists result, s'. split; [exact Hrun|].
    split; [exact Hexecuted | exact Hsummary].
Defined.

(** The second entry of the sample lorebook has no key and is disabled: it
    is imported as 'Unnamed', with the second id generated, and never
    injected. *)
Lemma imported_entries_keep_their_keys_witness :
  exists entry,
    nth_error
      (fst (STImport.convertSTLorebook (fun _ => "concept")
              (fun _ => "unknown")
              (fun n => ("entry_" ++ Memory.showNat n)%string) lorebook 10)) 1
    = Some entry /\
    STImport.id entry = "entry_11"%string /\
    STImport.name entry = "Unnamed"%string /\
    STImport.mode (STImport.injection entry) = STImport.never.
Proof.
  destruct (imported_entries_keep_their_keys string string string
              (fun _ => "concept") (fun _ => "unknown")
              (fun n => ("entry_" ++ Memory.showNat n)%string) lorebook 10 1
              (STImport.mkSTEntry "1" [] "An entry without keys."
                 (STImport.mkExtensions None (Some true))) eq_refl)
    as (_ & _ & entry & Hnth & Hid & _ & _ & _ & Hunnamed & Hmode).
  exists entry. split; [exact Hnth|]. split; [exact Hid|].
  split; [exact (proj1 (Hunnamed eq_refl))|]. apply Hmode. reflexivity.
Defined.

End ModuleScenes.

Section ServiceScenes.

Import BaseAIService TranslationService CallSamples Scenes.


(** The same service with an override that lacks the reasoning effort: the
    [extraBody] getter reads the preset, the lookup throws inside the [try],
    no request is sent, and [callLLM] resolves with the fallback. *)
Example override_without_reasoning_effort :
  callLLM halfOverriddenService options idle
  = (Ok "no suggestion"%string,
     mkTrace [] [("Suggestions", "Sending request...");
                 ("Suggestions", "Request failed")]%string).
Proof. reflexivity. Qed.

(** A provider that is down: the narration translation rejects with the
    provider's error, after one request. *)
Lemma text_translation_rethrows_witness :
  fst (translateNarration runtime downService "Hello" "es" false idle)
  = Throw (ModelFailure "503") /\
  length (requests
            (snd (translateNarration runtime downService "Hello" "es" false
                    idle))) = 1.
Proof.
  destruct (text_translation_rethrows string runtime downService "Hello" "es"
              false
              (translateNarration runtime downService "Hello" "es" false)
              idle (or_introl eq_refl))
    as [[[Hen _]|[[Hnone _]|[req [Hreq Hout]]]] _].
  - discriminate Hen.
  - exfalso. revert Hnone. vm_compute. discriminate.
  - split; [rewrite Hout; reflexivity | rewrite Hreq; reflexivity].
Defined.

(** The same provider: the list translation gives the items back. *)
Lemma list_translation_falls_back_witness :
  translateUIElements runtime downService [] "es" idle = (Ok [], idle) /\
  fst (translateUIElements runtime downService ["a"; "b"] "es" idle)
  = Ok ["a"; "b"].
Proof.
  split.
  - apply (list_translation_falls_back string runtime downService [] "es"
             (translateUIElements runtime downService) idle
             (or_introl eq_refl)).
    left. reflexivity.
  - destruct (list_translation_falls_back string runtime downService
                ["a"; "b"] "es" (translateUIElements runtime downService)
                idle (or_introl eq_refl))
      as (_ & [Hnone|[req [Hreq Hout]]] & _).
    + exfalso. revert Hnone. vm_compute. discriminate.
    + rewrite Hout. reflexivity.
Defined.

(** Three fields, one of them blank; the answer names the items 1 and 3 of
    two: the title is translated, the blank field and the hero are kept.
    The new title is the trimmed text of an item of the answer, and the
    number of that item is the place of the title. *)
Lemma wizard_batch_keeps_the_fields_witness :
  fst (translateWizardBatch runtime overriddenService wizardFields "es" idle)
  = Ok [("title", "Un faro"); ("notes", "  "); ("hero", "Elena")] /\
  map fst [("title", "Un faro"); ("notes", "  "); ("hero", "Elena")]
  = map fst wizardFields /\
  In ("notes", "  ") [("title", "Un faro"); ("notes", "  "); ("hero", "Elena")] /\
  exists number raw,
    In (number, raw) (itemMatches runtime (trim runtime "  Hola  ")) /\
    nth_error ["title"; "hero"] (Z.to_nat (number - 1)) = Some "title" /\
    "Un faro" = trim runtime raw.
Proof.
  assert (NoDup (map fst wizardFields)) as Hnodup.
  { repeat constructor; simpl; intuition discriminate. }
  destruct (wizard_batch_keeps_the_fields string runtime overriddenService
              wizardFields
              [("title", "Un faro"); ("notes", "  "); ("hero", "Elena")]
              "es" idle Hnodup)
    as (Hkeys & Hblank & Hvalues & _).
  - vm_compute. reflexivity.
  - split; [vm_compute; reflexivity|]. split; [exact Hkeys|].
    split; [apply Hblank; [simpl; auto | vm_compute; reflexivity]|].
    destruct (Hvalues "title" "Un faro" (or_introl eq_refl))
      as [Hold | (_ & _ & req & response & number & raw & _ & Hresponse
                  & Hmatch & _ & Hplace & Hvalue)].
    + exfalso. simpl in Hold.
      destruct Hold as [H | [H | [H | []]]]; discriminate H.
    + injection Hresponse as <-.
      exists number, raw. split; [exact Hmatch|].
      split; [exact Hplace | exact Hvalue].
Defined.

End ServiceScenes.

(* ===================================================================== *)
(** * Properties of the entries module *)
(* ===================================================================== *)

Section EntriesFacts.

Import Entries.

Variable Entry : Type.
Variable Changes : Type.
Variable NewEntry : Type.
Variable host : Host Entry Changes NewEntry.

Local Abbreviation State := (Entries.State Entry Changes NewEntry).
Local Abbreviation Call := (Entries.Call Changes NewEntry).

Lemma forEach_map {A : Type} (g : A -> Call) (xs : list A) (s : State) :
  forEach (fun x => await host (g x)) xs s
  = forEach (await host) (map g xs) s.
Proof.
  revert s. induction xs as [|x rest IH]; intro s; simpl; [reflexivity|].
  unfold bind. destruct (await host (g x) s) as [[[]|e] s1]; auto.
Qed.

Lemma forEach_app (a b : list Call) (s : State) :
  forEach (await host) (a ++ b) s
  = (forEach (await host) a ;; forEach (await host) b)%async s.
Proof.
  revert s. induction a as [|x rest IH]; intro s; simpl.
  - reflexivity.
  - unfold bind in *. destruct (await host x s) as [[[]|e] s1]; auto.
Qed.

(** A loop of awaited calls makes them in order and stops at the first one
    that fails. *)
Lemma forEach_stops (intent : list Call) (s : State) :
  let out := forEach (await host) intent s in
  exists k,
    calls (snd out) = calls s ++ firstn k intent /\
    stateUpdated (snd out) = stateUpdated s /\
    match fst out with
    | Ok _ => k = length intent
    | Throw e =>
        0 < k /\
        exists call,
          nth_error intent (k - 1) = Some call /\
          answer host (length (calls s) + (k - 1)) call = Throw e
    end.
Proof.
  revert s. induction intent as [|call rest IH]; intro s.
  - exists 0. simpl. rewrite app_nil_r. auto.
  - assert (forEach (await host) (call :: rest) s
            = match answer host (length (calls s)) call with
              | Ok _ =>
                  forEach (await host) rest
                    (mkState (calls s ++ [call]) (stateUpdated s))
              | Throw e =>
                  (Throw e, mkState (calls s ++ [call]) (stateUpdated s))
              end) as ->.
    { simpl. unfold bind, await.
      destruct (answer host (length (calls s)) call) as [[]|e]; reflexivity. }
    destruct (answer host (length (calls s)) call) as [[]|e] eqn:Hcall.
    + destruct (IH (mkState (calls s ++ [call]) (stateUpdated s)))
        as (k & Hcalls & Hupdated & Hout).
      exists (S k). cbn [calls stateUpdated] in *.
      split; [rewrite Hcalls, <- app_assoc; reflexivity|].
      split; [exact Hupdated|].
      destruct (fst (forEach (await host) rest _)) as [[]|e'].
      * simpl. lia.
      * destruct Hout as (Hk & c & Hnth & Hfail).
        split; [lia|]. exists c. split.
        -- destruct k; [lia|]. simpl in *. now rewrite Nat.sub_0_r in *.
        -- rewrite length_app in Hfail. simpl in Hfail.
           replace (length (calls s) + (S k - 1))
             with (length (calls s) + 1 + (k - 1)) by lia.
           exact Hfail.
    + exists 1. cbn [fst snd calls stateUpdated]. simpl.
      split; [reflexivity|]. split; [reflexivity|].
      split; [lia|]. exists call. rewrite Nat.add_0_r. auto.
Qed.

(** X25 (design.md A.6, [EntriesModule.handleClassificationComplete]): the
    handler makes the calls an event asks for one after the other, every
    update before any creation, and stops at the first call that fails: it
    then rejects with that call's error, the calls after it are never made,
    and no [StateUpdated] is emitted although the calls before it took
    effect.  Only when every call succeeded is [StateUpdated] emitted, once,
    with the entries as they are after the last call. *)
Theorem entry_updates_stop_at_first_failure
  (event : ClassificationEvent Changes NewEntry) (s : State) :
  let out := handleClassificationComplete host event s in
  exists k,
    calls (snd out) = calls s ++ firstn k (intended event) /\
    match fst out with
    | Ok _ =>
        k = length (intended event) /\
        stateUpdated (snd out)
        = stateUpdated s ++ [getAllEntries host (calls (snd out))]
    | Throw e =>
        stateUpdated (snd out) = stateUpdated s /\
        0 < k /\
        exists call,
          nth_error (intended event) (k - 1) = Some call /\
          answer host (length (calls s) + (k - 1)) call = Throw e
    end.
Proof.
  intro out. subst out. unfold handleClassificationComplete.
  assert (forall s0,
             (forEach (fun update =>
                         await host (UpdateEntry (entryId _ update)
                                                 (changes _ update)))
                      (updates _ _ event) ;;
              forEach (fun newEntry => await host (CreateEntry newEntry))
                      (newEntries _ _ event) ;;
              emitStateUpdated _ _ _ host)%async s0
             = (forEach (await host) (intended event) ;;
                emitStateUpdated _ _ _ host)%async s0) as ->.
  { intro s0. unfold intended. unfold bind.
    rewrite forEach_app.
    rewrite (forEach_map (fun update => UpdateEntry (entryId _ update)
                                                    (changes _ update))).
    unfold bind.
    destruct (forEach (await host) _ s0) as [[[]|e] s1]; [|reflexivity].
    rewrite (forEach_map CreateEntry). reflexivity. }
  unfold bind.
  destruct (forEach_stops (intended event) s) as (k & Hcalls & Hupdated & Hout).
  exists k.
  destruct (forEach (await host) (intended event) s) as [[[]|e] s1];
    cbn [fst snd] in *.
  - unfold emitStateUpdated. cbn [fst snd calls stateUpdated].
    split; [exact Hcalls|]. split; [exact Hout|]. now rewrite Hupdated.
  - split; [exact Hcalls|]. split; [exact Hupdated|]. exact Hout.
Qed.

End EntriesFacts.
